(** * agentstash: backup orchestration, verified against its specification

    Shallow embedding of the decision logic of the agentstash CLI
    (src/cli/backup.ts, src/cli/restore.ts, src/cli/forget.ts,
    src/cli/snapshots.ts, src/cli/status.ts, src/core/config.ts,
    src/core/health.ts, src/core/agents/registry.ts and the agent
    definition tables), followed by the properties of the specification
    that hold of it, and by the inputs at which others fail.

    Conventions of the embedding.
    - A JavaScript string is a [string]; each character stands for one
      code unit below 256.
    - A JavaScript number is a double.  The numbers the code computes
      with are integers (counts, times in milliseconds), the infinities
      and [NaN] ([jsnum]); every product and difference is rounded to the
      nearest double, ties to even, and overflows to an infinity
      ([to_double]), as the code's arithmetic does.  Counts that are only
      printed are [Z].
    - [process.exit], exceptions and normal return are the three ways a
      command can end ([outcome]); only exceptions are caught by
      [try]/[catch].
    - Everything a command does to the outside (log lines, spinner
      updates, engine invocations, key-chain lookups) is appended to a
      trace, in order. *)

From Stdlib Require Import String Ascii List ZArith Lia Bool Arith.
Import ListNotations.
Local Open Scope string_scope.
Local Open Scope list_scope.
Local Open Scope Z_scope.

Set Implicit Arguments.

(* ===================================================================== *)
(** ** Outcomes, traces and the command monad *)
(* ===================================================================== *)

(** How a piece of code ends: it returns a value, throws (catchable), or
    terminates the process with an exit code (not catchable). *)
Inductive outcome (A : Type) : Type :=
| Ret (a : A)
| Throw (err : string)
| Exit (code : Z).
Arguments Ret {A} a.
Arguments Throw {A} err.
Arguments Exit {A} code.

(** A template literal: text fragments, interpolated numbers, and numbers
    passed through a formatting helper of utils/fs.js ([formatBytes],
    [formatDuration]). *)
Inductive frag : Type :=
| Str (s : string)
| Num (n : Z)
| Fmt (helper : string) (n : Z).
Definition text := list frag.

(** The double-quote character, for messages that quote a name. *)
Definition dq : string := String (ascii_of_nat 34) EmptyString.

Inductive level : Type :=
| Debug | Info | Warn | Error | Header | Blank
| SpinStart | SpinStop | SpinFail | SpinSucceed | SpinWarn.

(** What [Promise]-returning collaborators give back: a value or a
    rejection. *)
Inductive result (A : Type) : Type :=
| Ok (a : A)
| Err (err : string).
Arguments Ok {A} a.
Arguments Err {A} err.

(** *** Data model (src/core/config.ts, src/core/agents/types.ts,
        src/core/restic.ts as far as its types are used) *)

Record RetentionConfig : Type := {
  keepLast : Z;
  keepDaily : Z;
  keepWeekly : Z;
  keepMonthly : Z
}.

(** The provider tag: ["r2" | "s3" | "b2" | "minio"]. *)
Inductive Provider : Type := R2 | S3 | B2 | MinIO.

Record StorageConfig : Type := {
  provider : Provider;
  bucket : string;
  accountId : option string;
  accessKeyId : string;
  secretAccessKey : string;
  endpoint : option string;
  region : option string;
  jurisdiction : option string
}.

Record AgentConfig : Type := {
  ac_id : string;
  ac_dataDir : option string;
  ac_enabled : bool;
  ac_excludes : option (list string)
}.

Record AgentstashConfig : Type := {
  cfg_agents : list AgentConfig;
  cfg_storage : StorageConfig;
  cfg_retention : RetentionConfig;
  cfg_exclude : list string;
  cfg_resticVersion : string
}.

Record DataDir : Type := {
  path : string;
  dd_description : string;
  critical : bool
}.

Record CategoryRule : Type := {
  cr_description : string;
  backupIncludes : list string;
  restoreIncludes : list string
}.

(** src/core/agents/types.ts.  [categories] is a plain JavaScript object:
    its own properties in insertion order.  A probe is a function of no
    argument; what matters of it is how a call ends. *)
Record AgentDefinition : Type := {
  id : string;
  displayName : string;
  description : string;
  dataDirs : list DataDir;
  categories : list (string * CategoryRule);
  excludes : list string;
  detectInstalled : outcome bool;
  isRunning : option (outcome bool)
}.

(** src/cli/backup.ts, src/cli/restore.ts, src/cli/forget.ts *)
Record BackupOptions : Type := {
  passphrase : option string;
  agent : option string;
  only : option string;
  opt_dryRun : option bool;
  opt_forget : option bool      (* --no-forget sets this to false *)
}.

Record RestoreOptions : Type := {
  r_passphrase : option string;
  r_agent : option string;
  r_only : option string;
  r_at : option string;
  r_target : option string;
  r_dryRun : option bool
}.

Record ForgetOptions : Type := {
  f_passphrase : option string;
  f_agent : option string
}.

(** src/core/health.ts *)
Inductive health_status : Type := st_ok | st_warn | st_error.

Record HealthCheck : Type := {
  hc_name : string;
  hc_status : health_status;
  hc_message : string
}.

Record ResticOpts : Type := {
  ro_storage : StorageConfig;
  ro_passphrase : string
}.

(** The third argument of [backup(path, opts, backupOpts)]. *)
Record BackupOpts : Type := {
  bo_tags : list string;
  bo_excludes : list string;
  bo_includes : option (list string);
  bo_dryRun : option bool
}.

Record ResticBackupSummary : Type := {
  files_new : Z;
  files_changed : Z;
  files_unmodified : Z;
  data_added : Z;
  total_bytes_processed : Z;
  total_duration : Z;
  snapshot_id : string
}.

Record ResticSnapshot : Type := {
  snap_id : string;
  short_id : string;
  time : string;
  snap_tags : option (list string)
}.

(** One observable step of a command. *)
Inductive event : Type :=
| Log (l : level) (msg : text)
| Kv (key : string) (value : text) (status : option string)
| KeychainLookup
| EnsureRestic (version : string)
| EngineBackup (dir : string) (ro : ResticOpts) (bo : BackupOpts)
| EngineListSnapshots (ro : ResticOpts) (tgs : option (list string))
| EngineForget (ro : ResticOpts) (r : RetentionConfig)
               (tgs : option (list string)).

(* ===================================================================== *)
(** ** JavaScript helpers *)
(* ===================================================================== *)

(** JavaScript truthiness of [string | undefined] (and [string | null]). *)
Definition truthy (s : option string) : bool :=
  match s with
  | Some x => negb (String.eqb x EmptyString)
  | None => false
  end.

(** The value of a [string | undefined] that is known to be truthy. *)
Definition the (s : option string) : string :=
  match s with
  | Some x => x
  | None => EmptyString
  end.

(** String concatenation, [a + b] and template literals that yield a
    string. *)
Infix "+++" := String.append (right associativity, at level 60).

(** [xs.join(sep)] *)
Definition join (sep : string) (xs : list string) : string :=
  String.concat sep xs.

(** [a || b] on strings *)
Definition or_else (a b : string) : string :=
  if String.eqb a EmptyString then b else a.

(** [s.slice(0, n)] *)
Definition slice0 (n : nat) (s : string) : string := substring 0 n s.

(** [s.startsWith(p)] *)
Definition startsWith (p s : string) : bool := prefix p s.

(** What [replace] makes of its replacement text when the pattern is a
    string, so that there are no capture groups: [$$] is a dollar sign,
    [$&] the matched text, [$`] the text before the match and [$'] the text
    after it; any other [$] stands for itself. *)
Fixpoint GetSubstitution (matched before after replacement : string) : string :=
  match replacement with
  | EmptyString => EmptyString
  | String c rest =>
      if Ascii.eqb c "$" then
        match rest with
        | String d rest' =>
            if Ascii.eqb d "$"
            then String "$" (GetSubstitution matched before after rest')
            else if Ascii.eqb d "&"
            then matched +++ GetSubstitution matched before after rest'
            else if Ascii.eqb d "`"
            then before +++ GetSubstitution matched before after rest'
            else if Ascii.eqb d "'"
            then after +++ GetSubstitution matched before after rest'
            else String c (GetSubstitution matched before after rest)
        | EmptyString => String c EmptyString
        end
      else String c (GetSubstitution matched before after rest)
  end.

(** [s.replace(pattern, replacement)] for a string [pattern]: the first
    occurrence is replaced, [before] being what was passed over. *)
Fixpoint replace_after (pattern replacement before s : string) : string :=
  if prefix pattern s then
    let after := substring (String.length pattern)
                           (String.length s - String.length pattern) s in
    before +++ GetSubstitution pattern before after replacement +++ after
  else
    match s with
    | EmptyString => before
    | String c rest =>
        replace_after pattern replacement (before +++ String c EmptyString) rest
    end.

Definition replace (pattern replacement s : string) : string :=
  replace_after pattern replacement EmptyString s.

(** [s.trim()] *)
Fixpoint dropWhile {A} (f : A -> bool) (xs : list A) : list A :=
  match xs with
  | x :: rest => if f x then dropWhile f rest else xs
  | [] => []
  end.

(** White space and line terminators, among the code units below 256:
    what [trim] strips and what [\s] matches. *)
Definition is_space (c : ascii) : bool :=
  let n := nat_of_ascii c in
  (((9 <=? n) && (n <=? 13)) || (n =? 32) || (n =? 160))%nat.

Definition trim (s : string) : string :=
  string_of_list_ascii
    (rev (dropWhile is_space (rev (dropWhile is_space (list_ascii_of_string s))))).

(** [path.join(a, b, ...)] on segments that need no normalisation. *)
Definition path_join (parts : list string) : string := join "/" parts.

(** The property names every object literal inherits from
    [Object.prototype]; each of them holds a function, except [__proto__],
    whose getter yields [Object.prototype] itself.  All are truthy. *)
Definition Object_prototype_keys : list string :=
  [ "constructor"; "__defineGetter__"; "__defineSetter__";
    "hasOwnProperty"; "__lookupGetter__"; "__lookupSetter__";
    "isPrototypeOf"; "propertyIsEnumerable"; "toString"; "valueOf";
    "__proto__"; "toLocaleString" ].

(** The value of [obj[key]] for an object literal [obj]: an own property,
    a property found on [Object.prototype], or [undefined]. *)
Inductive property (A : Type) : Type :=
| Own (a : A)
| Inherited (name : string)
| Undefined.
Arguments Own {A} a.
Arguments Inherited {A} name.
Arguments Undefined {A}.

Fixpoint own_property {A} (obj : list (string * A)) (key : string) : option A :=
  match obj with
  | [] => None
  | (k, v) :: rest => if String.eqb k key then Some v else own_property rest key
  end.

Definition mem (x : string) (xs : list string) : bool :=
  existsb (String.eqb x) xs.

Definition get_property {A} (obj : list (string * A)) (key : string) : property A :=
  match own_property obj key with
  | Some v => Own v
  | None => if mem key Object_prototype_keys then Inherited key else Undefined
  end.

(** [Object.keys(obj)] *)
Definition Object_keys {A} (obj : list (string * A)) : list string :=
  map fst obj.

(** [xs.filter(f)] for a callback that may throw. *)
Fixpoint array_filter {A} (f : A -> outcome bool) (xs : list A) : outcome (list A) :=
  match xs with
  | [] => Ret []
  | x :: rest =>
      match f x with
      | Ret b =>
          match array_filter f rest with
          | Ret ys => Ret (if b then x :: ys else ys)
          | Throw e => Throw e
          | Exit c => Exit c
          end
      | Throw e => Throw e
      | Exit c => Exit c
      end
  end.

(** The numbers [findSnapshotByTime] computes with: doubles that hold an
    integer, the infinities, and [NaN] (an invalid date).  The sign of a
    zero plays no part in what the code does with them. *)
Inductive jsnum : Type :=
| Fin (z : Z)
| Infinity
| NegInfinity
| NaN.

(** The nearest integer to [m >= 0] that has at most 53 significant bits,
    the even one of two that are equally near. *)
Definition round_even (m : Z) : Z :=
  if m <? 2 ^ 53 then m
  else
    let ulp := 2 ^ (Z.log2 m - 52) in
    let q := m / ulp in
    let rest := m mod ulp in
    let q' := if 2 * rest <? ulp then q
              else if ulp <? 2 * rest then q + 1
              else if Z.even q then q else q + 1 in
    q' * ulp.

(** The double an integer result is rounded to: the nearest one, or an
    infinity from 2^1024 on. *)
Definition to_double (z : Z) : jsnum :=
  let m := round_even (Z.abs z) in
  if 2 ^ 1024 <=? m
  then (if z <? 0 then NegInfinity else Infinity)
  else Fin (Z.sgn z * m).

(** [new Date(s).getTime()]: a time value, or [NaN]. *)
Definition of_date (t : option Z) : jsnum :=
  match t with
  | Some z => Fin z
  | None => NaN
  end.

Definition isNaN (x : jsnum) : bool :=
  match x with
  | NaN => true
  | _ => false
  end.

(** [a * b] *)
Definition js_mul (a b : jsnum) : jsnum :=
  match a, b with
  | NaN, _ | _, NaN => NaN
  | Fin x, Fin y => to_double (x * y)
  | Fin x, Infinity | Infinity, Fin x =>
      if x =? 0 then NaN else if 0 <? x then Infinity else NegInfinity
  | Fin x, NegInfinity | NegInfinity, Fin x =>
      if x =? 0 then NaN else if 0 <? x then NegInfinity else Infinity
  | Infinity, Infinity | NegInfinity, NegInfinity => Infinity
  | Infinity, NegInfinity | NegInfinity, Infinity => NegInfinity
  end.

(** [a - b] *)
Definition js_sub (a b : jsnum) : jsnum :=
  match a, b with
  | NaN, _ | _, NaN => NaN
  | Fin x, Fin y => to_double (x - y)
  | Infinity, Infinity | NegInfinity, NegInfinity => NaN
  | Infinity, _ | _, NegInfinity => Infinity
  | NegInfinity, _ | _, Infinity => NegInfinity
  end.

(** [Math.abs(a)] *)
Definition js_abs (a : jsnum) : jsnum :=
  match a with
  | Fin x => Fin (Z.abs x)
  | Infinity | NegInfinity => Infinity
  | NaN => NaN
  end.

(** [Math.abs(a - b)] *)
Definition abs_diff (a b : jsnum) : jsnum := js_abs (js_sub a b).

(** [a < b] *)
Definition js_lt (a b : jsnum) : bool :=
  match a, b with
  | NaN, _ | _, NaN => false
  | Fin x, Fin y => x <? y
  | NegInfinity, NegInfinity => false
  | NegInfinity, _ => true
  | Fin _, Infinity => true
  | _, _ => false
  end.

(* ===================================================================== *)
(** ** A backtracking matcher for the relative-time pattern *)
(* ===================================================================== *)

(** A matcher lists every way to match a prefix of the input, in the
    order in which the regular-expression engine tries them; each way
    gives what was captured and the rest of the input.  The result of
    [String.prototype.match] is the first way that reaches the end of the
    pattern. *)
Definition matcher (A : Type) : Type := list ascii -> list (A * list ascii).

Definition m_ret {A} (a : A) : matcher A := fun s => [(a, s)].

Definition m_seq {A B} (m : matcher A) (f : A -> matcher B) : matcher B :=
  fun s => flat_map (fun '(a, rest) => f a rest) (m s).

(** [r1|r2] *)
Definition m_alt {A} (m1 m2 : matcher A) : matcher A :=
  fun s => m1 s ++ m2 s.

(** [r?], greedy *)
Definition m_opt {A} (m : matcher A) : matcher (option A) :=
  fun s => map (fun '(a, rest) => (Some a, rest)) (m s) ++ [(None, s)].

(** [c*] for a character class, greedy: longest first. *)
Fixpoint m_star (cls : ascii -> bool) (s : list ascii) : list (list ascii * list ascii) :=
  match s with
  | c :: rest =>
      if cls c
      then map (fun '(m, r) => (c :: m, r)) (m_star cls rest) ++ [([], s)]
      else [([], s)]
  | [] => [([], [])]
  end.

(** [c+] for a character class, greedy. *)
Definition m_plus (cls : ascii -> bool) : matcher (list ascii) :=
  fun s =>
    match s with
    | c :: rest =>
        if cls c then map (fun '(m, r) => (c :: m, r)) (m_star cls rest) else []
    | [] => []
    end.

(** Case folding of the [i] flag, on the code units the model covers: a
    lower-case ASCII letter is compared through its upper-case form, and
    no other code unit folds to an ASCII letter. *)
Definition canonicalize (c : ascii) : ascii :=
  let n := nat_of_ascii c in
  if ((97 <=? n) && (n <=? 122))%nat then ascii_of_nat (n - 32) else c.

(** A literal word under the [i] flag; captures the text it matched. *)
Fixpoint m_word (w : list ascii) : matcher (list ascii) :=
  fun s =>
    match w with
    | [] => [([], s)]
    | p :: w' =>
        match s with
        | c :: rest =>
            if Ascii.eqb (canonicalize c) (canonicalize p)
            then map (fun '(m, r) => (c :: m, r)) (m_word w' rest)
            else []
        | [] => []
        end
    end.

(** [$] (no [m] flag): the end of the input. *)
Definition m_end : matcher unit :=
  fun s => match s with [] => [(tt, [])] | _ :: _ => [] end.

(** [\d] *)
Definition is_digit (c : ascii) : bool :=
  let n := nat_of_ascii c in ((48 <=? n) && (n <=? 57))%nat.

Definition word (w : string) : matcher (list ascii) :=
  m_word (list_ascii_of_string w).

(** [/^(\d+)\s+(minute|hour|day|week|month)s?\s+ago$/i]: the two
    capture groups of the first match, if any. *)
Definition relative_pattern : matcher (list ascii * list ascii) :=
  m_seq (m_plus is_digit) (fun g1 =>
  m_seq (m_plus is_space) (fun _ =>
  m_seq (m_alt (word "minute") (m_alt (word "hour") (m_alt (word "day")
        (m_alt (word "week") (word "month"))))) (fun g2 =>
  m_seq (m_opt (word "s")) (fun _ =>
  m_seq (m_plus is_space) (fun _ =>
  m_seq (word "ago") (fun _ =>
  m_seq m_end (fun _ =>
  m_ret (g1, g2)))))))).

Definition relativeMatch (timeStr : string) : option (string * string) :=
  match relative_pattern (list_ascii_of_string timeStr) with
  | ((g1, g2), _) :: _ => Some (string_of_list_ascii g1, string_of_list_ascii g2)
  | [] => None
  end.

(** The integer the leading decimal digits of [s] denote. *)
Fixpoint parse_digits (acc : Z) (s : list ascii) : Z :=
  match s with
  | c :: rest =>
      if is_digit c
      then parse_digits (10 * acc + Z.of_nat (nat_of_ascii c - 48)) rest
      else acc
  | [] => acc
  end.

(** [parseInt(s, 10)] on a string that starts with neither white space
    nor a sign, as the first group of the pattern does: the double nearest
    to the integer its leading digits denote, [NaN] when it has none. *)
Definition parseInt (s : string) : jsnum :=
  match list_ascii_of_string s with
  | c :: rest =>
      if is_digit c then to_double (parse_digits 0 (c :: rest)) else NaN
  | [] => NaN
  end.

(** [s.toLowerCase()] on the code units the model covers where it is
    used: ASCII letters. *)
Definition lower_char (c : ascii) : ascii :=
  let n := nat_of_ascii c in
  if ((65 <=? n) && (n <=? 90))%nat then ascii_of_nat (n + 32) else c.

Definition toLowerCase (s : string) : string :=
  string_of_list_ascii (map lower_char (list_ascii_of_string s)).

(** The collaborators of the commands: operating system, key chain,
    configuration store, installer and backup engine.  Their
    implementations are outside the orchestration layer; a command sees
    only what they return.  The file system, the environment and the clock
    are taken as fixed while one command runs.  [Repo] is the state of the
    remote repository, owned by the backup engine. *)
Record Host (Repo : Type) : Type := {
  homedir : string;
  pathExists : string -> bool;             (* utils/fs.js, awaited *)
  existsSync : string -> bool;             (* node:fs, never throws *)
  execSync : string -> result string;      (* node:child_process *)
  fetchOk : string -> result bool;         (* fetch(url) then response.ok *)
  envPassphrase : option string;           (* process.env.AGENTSTASH_PASSPHRASE *)
  getKeychainPassphrase : option string;   (* core/keychain.js, string | null *)
  loadConfig : option AgentstashConfig;    (* core/config.ts *)
  ensureRestic : string -> result string;  (* core/restic-installer.js *)
  isResticInstalled : bool;
  getResticVersion : string;
  getResticBinaryPath : string;
  getAgentstashConfigPath : string;
  dateNow : Z;                             (* Date.now(), a time value *)
  dateParse : string -> option Z;          (* new Date(s).getTime(), a time
                                              value; None = NaN *)
  backup : string -> ResticOpts -> BackupOpts -> Repo ->
           result ResticBackupSummary * Repo;
  listSnapshots : ResticOpts -> option (list string) -> Repo ->
                  result (list ResticSnapshot) * Repo;
  forget : ResticOpts -> RetentionConfig -> option (list string) -> Repo ->
           result unit * Repo;
  checkRepo : ResticOpts -> Repo -> bool * Repo
}.

(** A command: run from a repository state, it ends with an outcome, a new
    repository state and the events it produced. *)
Definition M (Repo A : Type) : Type := Repo -> outcome A * Repo * list event.

Section Monad.
Context {Repo : Type}.

Definition ret {A} (a : A) : M Repo A := fun r => (Ret a, r, []).

Definition bind {A B} (m : M Repo A) (f : A -> M Repo B) : M Repo B :=
  fun r =>
    match m r with
    | (Ret a, r1, t1) =>
        match f a r1 with
        | (o, r2, t2) => (o, r2, t1 ++ t2)
        end
    | (Throw e, r1, t1) => (Throw e, r1, t1)
    | (Exit c, r1, t1) => (Exit c, r1, t1)
    end.

Definition emit (e : event) : M Repo unit := fun r => (Ret tt, r, [e]).
Definition throw {A} (e : string) : M Repo A := fun r => (Throw e, r, []).
Definition process_exit {A} (c : Z) : M Repo A := fun r => (Exit c, r, []).

(** [try { m } catch (err) { handler err }]: only a [Throw] is caught. *)
Definition try_catch {A} (m : M Repo A) (handler : string -> M Repo A) : M Repo A :=
  fun r =>
    match m r with
    | (Throw e, r1, t1) =>
        match handler e r1 with
        | (o, r2, t2) => (o, r2, t1 ++ t2)
        end
    | other => other
    end.

(** Awaiting a collaborator that does not touch the repository. *)
Definition await {A} (x : result A) : M Repo A :=
  match x with
  | Ok a => ret a
  | Err e => throw e
  end.

(** Awaiting an engine operation. *)
Definition engine {A} (op : Repo -> result A * Repo) : M Repo A :=
  fun r =>
    match op r with
    | (Ok a, r1) => (Ret a, r1, [])
    | (Err e, r1) => (Throw e, r1, [])
    end.

(** Calling a probe of an agent definition. *)
Definition call {A} (o : outcome A) : M Repo A := fun r => (o, r, []).

(** [for (const x of xs) { body x }] *)
Fixpoint for_of {A} (xs : list A) (body : A -> M Repo unit) : M Repo unit :=
  match xs with
  | [] => ret tt
  | x :: rest => bind (body x) (fun _ => for_of rest body)
  end.

Definition log (l : level) (msg : text) : M Repo unit := emit (Log l msg).
Definition log_kv (k : string) (v : text) (st : option string) : M Repo unit :=
  emit (Kv k v st).

Definition outcome_of {A} (x : outcome A * Repo * list event) : outcome A :=
  fst (fst x).
Definition repo_of {A} (x : outcome A * Repo * list event) : Repo :=
  snd (fst x).
Definition trace_of {A} (x : outcome A * Repo * list event) : list event :=
  snd x.

End Monad.

Notation "x <- m ;; k" := (bind m (fun x => k))
  (at level 61, m at next level, right associativity).
Notation "m ;; k" := (bind m (fun _ => k))
  (at level 61, right associativity).

Section Commands.

Variable Repo : Type.
Variable h : Host Repo.

(* ===================================================================== *)
(** ** Passphrase resolution *)
(* ===================================================================== *)

(** src/cli/backup.ts [resolvePassphrase] (lines 21-42); src/cli/restore.ts
    has the same function, statement for statement. *)
Definition resolvePassphrase (passphrase : option string) : M Repo string :=
  (* 1. Explicit flag *)
  if truthy passphrase then ret (the passphrase)
  else
  (* 2. Environment variable *)
  if truthy (envPassphrase h)
  then ret (the (envPassphrase h))
  else
  (* 3. System keychain *)
  emit KeychainLookup ;;
  let fromKeychain := getKeychainPassphrase h in
  if truthy fromKeychain then
    log Debug [Str "Passphrase loaded from system keychain"] ;;
    ret (the fromKeychain)
  else
  (* 4. Give up *)
  log Error [Str "No passphrase found."] ;;
  log Info [Str "Options:"] ;;
  log Info [Str "  1. Save to keychain:  agentstash setup"] ;;
  log Info [Str "  2. Set env var:       export AGENTSTASH_PASSPHRASE=..."] ;;
  log Info [Str "  3. Pass flag:         --passphrase ..."] ;;
  process_exit 1.

(** src/cli/forget.ts [resolvePassphrase]; src/cli/snapshots.ts has the
    same function. *)
Definition resolvePassphrase_forget (passphrase : option string) : M Repo string :=
  if truthy passphrase then ret (the passphrase)
  else
  if truthy (envPassphrase h)
  then ret (the (envPassphrase h))
  else
  emit KeychainLookup ;;
  let fromKeychain := getKeychainPassphrase h in
  if truthy fromKeychain
  then ret (the fromKeychain)
  else
  log Error [Str "No passphrase found."] ;;
  log Info [Str "Run `agentstash setup` to save it to keychain, or set AGENTSTASH_PASSPHRASE env var."] ;;
  process_exit 1.

(** src/cli/status.ts: the passphrase is optional there, and the command
    reports without the remote part when none is found.  [a ?? b] passes
    over [undefined] and [null] only. *)
Definition statusPassphrase (passphrase : option string) : M Repo (option string) :=
  match passphrase with
  | Some p => ret (Some p)
  | None =>
      match envPassphrase h with
      | Some e => ret (Some e)
      | None => emit KeychainLookup ;; ret (getKeychainPassphrase h)
      end
  end.

(* ===================================================================== *)
(** ** Agent catalog (src/core/agents/registry.ts) *)
(* ===================================================================== *)

(** The module-level [Map<string, AgentDefinition>]: its entries in
    insertion order, one per key. *)
Definition Registry := list AgentDefinition.

(** [agents.set(agent.id, agent)]: an existing key keeps its position and
    takes the new value; a new key goes last. *)
Fixpoint registerAgent (a : AgentDefinition) (agents : Registry) : Registry :=
  match agents with
  | [] => [a]
  | b :: rest =>
      if String.eqb (id b) (id a) then a :: rest
      else b :: registerAgent a rest
  end.


(* ===================================================================== *)
(** ** The agent definitions (src/core/agents/definitions/*.ts) *)
(* ===================================================================== *)

(** [checkProcessRunning] and [commandExists], as defined at the top of
    the definition modules: both swallow the failure of [execSync]. *)
Definition checkProcessRunning (name : string) : bool :=
  match execSync h ("pgrep -f " +++ dq +++ name +++ dq +++ " 2>/dev/null") with
  | Ok output => (0 <? String.length (trim output))%nat
  | Err _ => false
  end.

Definition commandExists (cmd : string) : bool :=
  match execSync h ("which " +++ cmd +++ " 2>/dev/null") with
  | Ok _ => true
  | Err _ => false
  end.

Definition rule (d : string) (b r : list string) : CategoryRule :=
  {| cr_description := d; backupIncludes := b; restoreIncludes := r |}.

Definition dir (p d : string) (c : bool) : DataDir :=
  {| path := p; dd_description := d; critical := c |}.

Definition openclaw : AgentDefinition := {|
  id := "openclaw";
  displayName := "OpenClaw";
  description := "OpenClaw AI coding agent with workspace, sessions, memory, and skills";
  dataDirs := [ dir "~/.openclaw" "OpenClaw data directory" true ];
  categories := [
    ("config", rule "Main configuration files (openclaw.json, .env)"
       ["openclaw.json"; "openclaw.json5"; ".env"]
       ["**/openclaw.json"; "**/openclaw.json5"; "**/.env"]);
    ("secrets", rule "Credentials and auth tokens"
       ["credentials/**"; "auth/**"]
       ["**/credentials/**"; "**/auth/**"]);
    ("workspace", rule "Workspace prompts, identity, memory logs, canvas"
       ["workspace/**"; "workspace-*/**"]
       ["**/workspace/**"; "**/workspace-*/**"]);
    ("sessions", rule "Agent session transcripts"
       ["agents/*/sessions/**"]
       ["**/agents/*/sessions/**"]);
    ("memory", rule "Persistent memory databases"
       ["memory/**"]
       ["**/memory/**"]);
    ("skills", rule "Managed and local skills"
       ["skills/**"; "workspace/skills/**"]
       ["**/skills/**"; "**/workspace/skills/**"]);
    ("settings", rule "User preferences (TTS, UI state)"
       ["settings/**"]
       ["**/settings/**"]);
    ("history", rule "Per-agent configuration and history"
       ["agents/*/agent/**"]
       ["**/agents/*/agent/**"]) ];
  excludes := [ "*.lock"; "gateway.lock"; "*.tmp"; "*.temp"; "*-wal"; "*-shm";
                "node_modules"; ".DS_Store"; "Thumbs.db"; "*.log"; "cache/";
                ".cache/"; "sandboxes/"; "*/qmd/xdg-cache/" ];
  detectInstalled := Ret (existsSync h (path_join [homedir h; ".openclaw"]));
  isRunning := Some
    match fetchOk h "http://127.0.0.1:18789/health" with
    | Ok ok => Ret ok
    | Err _ => Ret (checkProcessRunning "openclaw")
    end
|}.

Definition claude_code : AgentDefinition := {|
  id := "claude-code";
  displayName := "Claude Code";
  description := "Anthropic's CLI coding agent with sessions, skills, and project memory";
  dataDirs := [
    dir "~/.claude" "Claude Code data (sessions, settings, skills)" true;
    dir "~/.claude.json" "Claude Code master state file" true ];
  categories := [
    ("config", rule "Configuration and state files"
       ["settings.json"; "settings.local.json"; "mcp-needs-auth-cache.json"]
       ["**/settings.json"; "**/settings.local.json"; "**/mcp-needs-auth-cache.json"]);
    ("secrets", rule "Credentials and auth tokens"
       [".credentials.json"]
       ["**/.credentials.json"]);
    ("sessions", rule "Project conversation sessions and memory"
       ["projects/**/*.jsonl"; "projects/**/memory/**"]
       ["**/projects/**/*.jsonl"; "**/projects/**/memory/**"]);
    ("skills", rule "Custom agent skills"
       ["skills/**"]
       ["**/skills/**"]);
    ("settings", rule "User preferences and shell configuration"
       ["settings.json"; "settings.local.json"; "statusline-command.sh"]
       ["**/settings.json"; "**/settings.local.json"; "**/statusline-command.sh"]);
    ("history", rule "Global command history"
       ["history.jsonl"]
       ["**/history.jsonl"]);
    ("workspace", rule "Plans and todos"
       ["plans/**"; "todos/**"]
       ["**/plans/**"; "**/todos/**"]) ];
  excludes := [ "debug/**"; "file-history/**"; "cache/**"; "telemetry/**";
                "shell-snapshots/**"; "paste-cache/**"; "session-env/**";
                "tasks/**"; "downloads/**"; "backups/**";
                "plugins/marketplaces/*/.git/**" ];
  detectInstalled :=
    Ret (existsSync h (path_join [homedir h; ".claude"])
         || existsSync h (path_join [homedir h; ".claude.json"]));
  isRunning := Some (Ret (checkProcessRunning "claude"))
|}.

Definition opencode : AgentDefinition := {|
  id := "opencode";
  displayName := "OpenCode";
  description := "OpenCode TUI coding agent with sessions DB, snapshots, and state";
  dataDirs := [
    dir "~/.local/share/opencode" "OpenCode data (sessions DB, snapshots)" true;
    dir "~/.local/state/opencode" "OpenCode state (UI prefs, model selection)" false;
    dir "~/.config/opencode" "OpenCode config and plugins" false ];
  categories := [
    ("config", rule "Main configuration file"
       ["~/.opencode.json"]
       ["**/.opencode.json"]);
    ("secrets", rule "Authentication tokens"
       ["auth.json"]
       ["**/auth.json"]);
    ("sessions", rule "Sessions database and diff storage"
       ["opencode.db"; "storage/session_diff/**"]
       ["**/opencode.db"; "**/storage/session_diff/**"]);
    ("settings", rule "UI preferences and model selection"
       ["kv.json"; "model.json"]
       ["**/kv.json"; "**/model.json"]);
    ("history", rule "Prompt input history"
       ["prompt-history.jsonl"]
       ["**/prompt-history.jsonl"]);
    ("workspace", rule "Session snapshots"
       ["snapshot/**"]
       ["**/snapshot/**"]) ];
  excludes := [ "*-wal"; "*-shm"; "*.log"; "log/**"; "tool-output/**";
                "bin/**"; "node_modules/**" ];
  detectInstalled :=
    Ret (existsSync h (path_join [homedir h; ".local"; "share"; "opencode"])
         || existsSync h (path_join [homedir h; ".opencode"; "bin"; "opencode"]));
  isRunning := Some (Ret (checkProcessRunning "opencode"))
|}.

Definition gemini : AgentDefinition := {|
  id := "gemini";
  displayName := "Gemini CLI";
  description := "Google Gemini CLI with sessions, settings, and project memory";
  dataDirs := [ dir "~/.gemini" "Gemini CLI data directory" true ];
  categories := [
    ("config", rule "Main configuration"
       ["settings.json"]
       ["**/settings.json"]);
    ("secrets", rule "Environment secrets and OAuth tokens"
       [".env"; "mcp-oauth-tokens.json"]
       ["**/.env"; "**/mcp-oauth-tokens.json"]);
    ("sessions", rule "Conversation history and checkpoints"
       ["history/**"; "tmp/**/checkpoints/**"]
       ["**/history/**"; "**/tmp/**/checkpoints/**"]);
    ("settings", rule "User preferences and trusted folders"
       ["settings.json"; "trustedFolders.json"; "mcp-server-enablement.json"]
       ["**/settings.json"; "**/trustedFolders.json"; "**/mcp-server-enablement.json"]);
    ("history", rule "Shell command history"
       ["tmp/**/shell_history"]
       ["**/tmp/**/shell_history"]);
    ("memory", rule "Project memory file"
       ["GEMINI.md"]
       ["**/GEMINI.md"]) ];
  excludes := [ "tmp/**/otel/**"; "node_modules/**" ];
  detectInstalled := Ret (existsSync h (path_join [homedir h; ".gemini"]));
  isRunning := Some (Ret (checkProcessRunning "gemini"))
|}.

Definition codex : AgentDefinition := {|
  id := "codex";
  displayName := "Codex CLI";
  description := "OpenAI Codex CLI configuration";
  dataDirs := [ dir "~/.codex" "OpenAI Codex CLI config" true ];
  categories := [
    ("config", rule "Main configuration file" ["config.toml"] ["**/config.toml"]);
    ("settings", rule "User preferences" ["config.toml"] ["**/config.toml"]) ];
  excludes := [ "*.log" ];
  detectInstalled := Ret (existsSync h (path_join [homedir h; ".codex"]));
  isRunning := None
|}.

Definition aider : AgentDefinition := {|
  id := "aider";
  displayName := "Aider";
  description := "Aider AI pair programming tool with config and history dotfiles";
  dataDirs := [ dir "~" "Aider stores config in home dir dotfiles" false ];
  categories := [
    ("config", rule "Main configuration file"
       [".aider.conf.yml"]
       ["**/.aider.conf.yml"]);
    ("history", rule "Input and chat history"
       [".aider.input.history"; ".aider.chat.history.md"]
       ["**/.aider.input.history"; "**/.aider.chat.history.md"]);
    ("settings", rule "Model settings and metadata"
       [".aider.model.settings.yml"; ".aider.model.metadata.json"]
       ["**/.aider.model.settings.yml"; "**/.aider.model.metadata.json"]) ];
  excludes := [];
  detectInstalled :=
    Ret (commandExists "aider"
         || existsSync h (path_join [homedir h; ".aider.conf.yml"])
         || existsSync h (path_join [homedir h; ".aider.input.history"]));
  isRunning := Some (Ret (checkProcessRunning "aider"))
|}.

Definition continue_dev : AgentDefinition := {|
  id := "continue";
  displayName := "Continue";
  description := "Continue VS Code/JetBrains extension for AI-assisted development";
  dataDirs := [ dir "~/.continue" "Continue extension data" true ];
  categories := [
    ("config", rule "Configuration files"
       ["config.yaml"; "config.json"]
       ["**/config.yaml"; "**/config.json"]);
    ("sessions", rule "Conversation sessions"
       ["sessions/**"]
       ["**/sessions/**"]);
    ("settings", rule "User preferences"
       ["config.yaml"; "config.json"]
       ["**/config.yaml"; "**/config.json"]) ];
  excludes := [ "index/**"; "logs/**"; "types/**"; "node_modules/**" ];
  detectInstalled := Ret (existsSync h (path_join [homedir h; ".continue"]));
  isRunning := None
|}.

Definition cursor : AgentDefinition := {|
  id := "cursor";
  displayName := "Cursor";
  description := "Cursor AI-powered code editor settings and extensions";
  dataDirs := [
    dir "~/.cursor" "Cursor extensions and config" true;
    dir "~/.config/Cursor" "Cursor app data (Linux)" true ];
  categories := [
    ("config", rule "Editor configuration and keybindings"
       ["User/settings.json"; "User/keybindings.json"]
       ["**/User/settings.json"; "**/User/keybindings.json"]);
    ("settings", rule "User preferences"
       ["User/settings.json"; "User/keybindings.json"]
       ["**/User/settings.json"; "**/User/keybindings.json"]) ];
  excludes := [ "extensions/**"; "CachedData/**"; "Cache/**"; "logs/**";
                "node_modules/**" ];
  detectInstalled :=
    Ret (existsSync h (path_join [homedir h; ".cursor"])
         || existsSync h (path_join [homedir h; ".config"; "Cursor"]));
  isRunning := None
|}.

Definition copilot : AgentDefinition := {|
  id := "copilot";
  displayName := "GitHub Copilot";
  description := "GitHub Copilot CLI configuration and host settings";
  dataDirs := [ dir "~/.config/github-copilot" "GitHub Copilot config" true ];
  categories := [
    ("config", rule "Host configuration and version info"
       ["hosts.json"; "versions.json"]
       ["**/hosts.json"; "**/versions.json"]);
    ("settings", rule "Host settings"
       ["hosts.json"]
       ["**/hosts.json"]) ];
  excludes := [ "node_modules/**" ];
  detectInstalled :=
    Ret (existsSync h (path_join [homedir h; ".config"; "github-copilot"]));
  isRunning := None
|}.

(** The catalog after the imports of src/core/agents/index.ts have run, in
    their order. *)
Definition builtin_agents : Registry :=
  fold_left (fun m a => registerAgent a m)
    [ openclaw; claude_code; opencode; gemini; codex; aider; continue_dev;
      cursor; copilot ]
    [].

(** The registry the commands run against. *)
Variable agents : Registry.

Definition getAgent (i : string) : option AgentDefinition :=
  find (fun a => String.eqb (id a) i) agents.

Definition getAllAgents : list AgentDefinition := agents.

Definition getInstalledAgents : outcome (list AgentDefinition) :=
  array_filter (fun a => detectInstalled a) getAllAgents.

Definition getAgentIds : list string := map id agents.

(* ===================================================================== *)
(** ** Category resolution *)
(* ===================================================================== *)

(** Resolve [~] to the home directory in a path. *)
Definition expandHome (p : string) : string :=
  if startsWith "~/" p then replace "~" (homedir h) p
  else if String.eqb p "~" then homedir h
  else p.

(** src/cli/backup.ts [getCategoryIncludes] (lines 56-74). *)
Definition getCategoryIncludes (agentId : string) (only : option string)
  : M Repo (option (list string)) :=
  if negb (truthy only) then ret None else
  match getAgent agentId with
  | None =>
      log Error [Str "Unknown agent: "; Str agentId] ;;
      process_exit 1
  | Some agentDef =>
      match get_property (categories agentDef) (the only) with
      | Undefined =>
          let validCategories := join ", " (Object_keys (categories agentDef)) in
          log Error [Str "Unknown category "; Str dq; Str (the only); Str dq;
                     Str " for agent "; Str (displayName agentDef)] ;;
          log Info [Str "Valid categories: "; Str validCategories] ;;
          process_exit 1
      | Own categoryRule => ret (Some (backupIncludes categoryRule))
      | Inherited _ =>
          (* a built-in of Object.prototype is truthy and has no
             backupIncludes property *)
          ret None
      end
  end.

(** src/cli/restore.ts [getCategoryIncludes]: the same, with the restore
    patterns. *)
Definition getCategoryIncludes_restore (agentId : string) (only : option string)
  : M Repo (option (list string)) :=
  if negb (truthy only) then ret None else
  match getAgent agentId with
  | None =>
      log Error [Str "Unknown agent: "; Str agentId] ;;
      process_exit 1
  | Some agentDef =>
      match get_property (categories agentDef) (the only) with
      | Undefined =>
          let validCategories := join ", " (Object_keys (categories agentDef)) in
          log Error [Str "Unknown category "; Str dq; Str (the only); Str dq;
                     Str " for agent "; Str (displayName agentDef)] ;;
          log Info [Str "Valid categories: "; Str validCategories] ;;
          process_exit 1
      | Own categoryRule => ret (Some (restoreIncludes categoryRule))
      | Inherited _ => ret None
      end
  end.

(* ===================================================================== *)
(** ** Backup (src/cli/backup.ts) *)
(* ===================================================================== *)

(** The body of the [for (const dataDir of dataDirs)] loop of
    [backupAgent] (lines 109-171). *)
Definition backupDataDir (agentDef : AgentDefinition) (agentConfig : AgentConfig)
    (opts : BackupOptions) (passphrase : string) (config : AgentstashConfig)
    (dataDir : DataDir) : M Repo unit :=
  let resolvedDir := expandHome (path dataDir) in
  if negb (pathExists h resolvedDir) then
    log Warn [Str "Data directory not found: "; Str resolvedDir; Str " (";
              Str (dd_description dataDir); Str ")"]
  else
  (* Build excludes: agent defaults + agent-specific config + global config *)
  let excludes :=
    excludes agentDef ++
    (match ac_excludes agentConfig with Some xs => xs | None => [] end) ++
    cfg_exclude config in
  (* Build tags *)
  let tags := ["agentstash"; ac_id agentConfig] in
  let tags := if truthy (only opts) then tags ++ [the (only opts)] else tags in
  (* Build includes (for --only filtering) *)
  includes <- getCategoryIncludes (ac_id agentConfig) (only opts) ;;
  (* Run backup *)
  log SpinStart
    (if match opt_dryRun opts with Some true => true | _ => false end
     then [Str "Calculating backup for "; Str resolvedDir; Str " (dry run)..."]
     else [Str "Backing up "; Str resolvedDir; Str "..."]) ;;
  try_catch
    (let ro := {| ro_storage := cfg_storage config; ro_passphrase := passphrase |} in
     let bo := {| bo_tags := tags; bo_excludes := excludes;
                  bo_includes := includes; bo_dryRun := opt_dryRun opts |} in
     emit (EngineBackup resolvedDir ro bo) ;;
     summary <- engine (backup h resolvedDir ro bo) ;;
     log SpinStop [] ;;
     let totalFiles :=
       files_new summary + files_changed summary + files_unmodified summary in
     let changedFiles := files_new summary + files_changed summary in
     log Blank [] ;;
     (if match opt_dryRun opts with Some true => true | _ => false end
      then log Info [Str "["; Str (displayName agentDef); Str "] Dry run complete"]
      else log Info [Str "["; Str (displayName agentDef); Str "] Backup complete"]) ;;
     log_kv "Snapshot" [Str (slice0 8 (snapshot_id summary))] (Some "ok") ;;
     log_kv "Source" [Str resolvedDir] None ;;
     log_kv "Files" [Num totalFiles; Str " total, "; Num changedFiles; Str " changed"] None ;;
     log_kv "Data added" [Fmt "formatBytes" (data_added summary)] None ;;
     log_kv "Processed" [Fmt "formatBytes" (total_bytes_processed summary)] None ;;
     log_kv "Duration" [Fmt "formatDuration" (total_duration summary)] None)
    (fun err =>
     log SpinFail [Str "Backup failed for "; Str resolvedDir] ;;
     log Error [Str err]).

(** Backup a single agent's data directories (lines 79-172). *)
Definition backupAgent (agentConfig : AgentConfig) (opts : BackupOptions)
    (passphrase : string) (config : AgentstashConfig) : M Repo unit :=
  match getAgent (ac_id agentConfig) with
  | None =>
      log Warn [Str "Agent "; Str dq; Str (ac_id agentConfig); Str dq;
                Str " not found in registry, skipping"]
  | Some agentDef =>
      log Blank [] ;;
      log Header [Str "Backing up "; Str (displayName agentDef)] ;;
      (* Check if agent process is running *)
      match isRunning agentDef with
      | Some probe =>
          running <- call probe ;;
          if running : bool then
            log Warn [Str (displayName agentDef);
                      Str " is running. SQLite files may be locked."] ;;
            log Info [Str "Backup will proceed but SQLite data may be inconsistent."] ;;
            log Blank []
          else ret tt
      | None => ret tt
      end ;;
      (* Determine data directories to backup *)
      let dataDirs :=
        if truthy (ac_dataDir agentConfig)
        then [{| path := the (ac_dataDir agentConfig);
                 dd_description := "Custom data directory";
                 critical := true |}]
        else dataDirs agentDef in
      for_of dataDirs (backupDataDir agentDef agentConfig opts passphrase config)
  end.

(** Load config or throw with a helpful message (src/core/config.ts). *)
Definition requireConfig : M Repo AgentstashConfig :=
  match loadConfig h with
  | None => throw "No agentstash config found. Run `agentstash setup` first."
  | Some config => ret config
  end.

(** "Determine which agents to back up" (lines 181-201 of
    [backupCommand]). *)
Definition agentsToBackup (opts : BackupOptions) (config : AgentstashConfig)
  : M Repo (list AgentConfig) :=
  selected <-
    (if truthy (agent opts) then
       match find (fun a => String.eqb (ac_id a) (the (agent opts))) (cfg_agents config) with
       | None =>
           log Error [Str "Agent "; Str dq; Str (the (agent opts)); Str dq;
                      Str " is not configured."] ;;
           log Info [Str "Configured agents: ";
                     Str (or_else (join ", " (map ac_id (cfg_agents config))) "(none)")] ;;
           log Info [Str "Run `agentstash setup` to configure agents."] ;;
           process_exit 1
       | Some agentConfig => ret [agentConfig]
       end
     else ret (filter ac_enabled (cfg_agents config))) ;;
  if (length selected =? 0)%nat then
    log Error [Str "No agents configured for backup."] ;;
    log Info [Str "Run `agentstash setup` to configure agents."] ;;
    process_exit 1
  else ret selected.

(** "Backup each agent" (lines 203-206). *)
Definition backupAgents (selected : list AgentConfig) (opts : BackupOptions)
    (passphrase : string) (config : AgentstashConfig) : M Repo unit :=
  for_of selected (fun agentConfig => backupAgent agentConfig opts passphrase config).

Definition backupCommand (opts : BackupOptions) : M Repo unit :=
  config <- requireConfig ;;
  passphrase <- resolvePassphrase (passphrase opts) ;;
  (* Ensure restic *)
  emit (EnsureRestic (cfg_resticVersion config)) ;;
  _ <- await (ensureRestic h (cfg_resticVersion config)) ;;
  (* Determine which agents to back up *)
  selected <- agentsToBackup opts config ;;
  (* Backup each agent *)
  backupAgents selected opts passphrase config ;;
  (* Apply retention policy (unless --no-forget) *)
  if negb (match opt_dryRun opts with Some true => true | _ => false end)
     && negb (match opt_forget opts with Some false => true | _ => false end)
  then
    log SpinStart [Str "Applying retention policy..."] ;;
    try_catch
      (let ro := {| ro_storage := cfg_storage config; ro_passphrase := passphrase |} in
       emit (EngineForget ro (cfg_retention config) None) ;;
       engine (forget h ro (cfg_retention config) None) ;;
       log SpinSucceed [Str "Retention policy applied"])
      (fun err =>
       log SpinWarn [Str "Retention policy failed (backup was successful)"] ;;
       log Debug [Str err])
  else ret tt.

(* ===================================================================== *)
(** ** Snapshot selection (src/cli/restore.ts [findSnapshotByTime]) *)
(* ===================================================================== *)

Definition multipliers : list (string * Z) :=
  [ ("minute", 60000);
    ("hour", 3600000);
    ("day", 86400000);
    ("week", 604800000);
    ("month", 2592000000) ].

(** [multipliers[unit] ?? 0] *)
Definition multiplier (unit : string) : jsnum :=
  match get_property multipliers unit with
  | Own n => Fin n
  | Undefined => Fin 0
  | Inherited _ => NaN      (* a function, converted to a number *)
  end.

(** The first half of [findSnapshotByTime] (down to the [isNaN] guard):
    the target time of the expression. *)
Definition targetTime (timeStr : string) : M Repo jsnum :=
  (* Handle relative times like "3 days ago" *)
  match relativeMatch timeStr with
  | Some (g1, g2) =>
      let amount := parseInt g1 in
      let unit := toLowerCase g2 in
      ret (js_sub (Fin (dateNow h)) (js_mul amount (multiplier unit)))
  | None =>
      let t := of_date (dateParse h timeStr) in
      if isNaN t then
        log Error [Str "Cannot parse time: "; Str timeStr] ;;
        process_exit 1
      else ret t
  end.

(** The second half: the loop that keeps the closest snapshot seen so
    far. *)
Fixpoint closest (target : jsnum) (snapshots : list ResticSnapshot)
    (best : option ResticSnapshot) (bestDiff : jsnum) : option ResticSnapshot :=
  match snapshots with
  | [] => best
  | snap :: rest =>
      let snapTime := of_date (dateParse h (time snap)) in
      let diff := abs_diff snapTime target in
      if js_lt diff bestDiff
      then closest target rest (Some snap) diff
      else closest target rest best bestDiff
  end.

Definition findSnapshotByTime (snapshots : list ResticSnapshot) (timeStr : string)
  : M Repo (option ResticSnapshot) :=
  target <- targetTime timeStr ;;
  ret (closest target snapshots None Infinity).

(* ===================================================================== *)
(** ** Retention (src/cli/forget.ts [forgetCommand]) *)
(* ===================================================================== *)

(** [forgetCommand] from the point where the configuration and the
    passphrase are at hand (from [const resticOpts] to its end). *)
Definition applyRetention (opts : ForgetOptions) (config : AgentstashConfig)
    (passphrase : string) : M Repo unit :=
  let resticOpts := {| ro_storage := cfg_storage config; ro_passphrase := passphrase |} in
  (* Filter by agent tag if specified *)
  let tags := if truthy (f_agent opts) then Some [the (f_agent opts)] else None in
  (* Count before *)
  emit (EngineListSnapshots resticOpts tags) ;;
  before <- engine (listSnapshots h resticOpts tags) ;;
  let label :=
    if truthy (f_agent opts)
    then [Str "Applying retention policy for "; Str dq; Str (the (f_agent opts));
          Str dq; Str " and pruning..."]
    else [Str "Applying retention policy and pruning..."] in
  log SpinStart label ;;
  try_catch
    (emit (EngineForget resticOpts (cfg_retention config) tags) ;;
     engine (forget h resticOpts (cfg_retention config) tags) ;;
     log SpinStop [] ;;
     (* Count after *)
     emit (EngineListSnapshots resticOpts tags) ;;
     after <- engine (listSnapshots h resticOpts tags) ;;
     let removed := Z.of_nat (length before) - Z.of_nat (length after) in
     log Blank [] ;;
     log Header (if truthy (f_agent opts)
                 then [Str "Retention applied ("; Str (the (f_agent opts)); Str ")"]
                 else [Str "Retention applied"]) ;;
     log_kv "Before" [Num (Z.of_nat (length before)); Str " snapshots"] None ;;
     log_kv "After" [Num (Z.of_nat (length after)); Str " snapshots"] None ;;
     log_kv "Removed" [Num removed; Str " snapshots"]
            (if 0 <? removed then Some "ok" else None))
    (fun err =>
     log SpinFail [Str "Failed to apply retention policy"] ;;
     log Error [Str err] ;;
     process_exit 1).

Definition forgetCommand (opts : ForgetOptions) : M Repo unit :=
  config <- requireConfig ;;
  passphrase <- resolvePassphrase_forget (f_passphrase opts) ;;
  emit (EnsureRestic (cfg_resticVersion config)) ;;
  _ <- await (ensureRestic h (cfg_resticVersion config)) ;;
  applyRetention opts config passphrase.

(* ===================================================================== *)
(** ** Health checks (src/core/config.ts [getStorageEndpoint],
       src/core/health.ts [runHealthChecks]) *)
(* ===================================================================== *)

(** Build the S3 endpoint URL for a storage config. *)
Definition getStorageEndpoint (storage : StorageConfig) : outcome string :=
  if truthy (endpoint storage) then Ret (the (endpoint storage)) else
  match provider storage with
  | R2 =>
      if negb (truthy (accountId storage)) then Throw "R2 requires an accountId"
      else
        let jur := if truthy (jurisdiction storage)
                   then "." +++ the (jurisdiction storage) else EmptyString in
        Ret ("https://" +++ the (accountId storage) +++ jur +++ ".r2.cloudflarestorage.com")
  | S3 =>
      Ret ("https://s3." +++
           match region storage with Some r => r | None => "us-east-1" end +++
           ".amazonaws.com")
  | B2 => Ret "https://s3.us-west-004.backblazeb2.com"
  | MinIO => Throw "MinIO requires a custom endpoint"
  end.

(** Build the restic repository URL: [s3:https://endpoint/bucket]. *)
Definition getResticRepoUrl (storage : StorageConfig) : outcome string :=
  match getStorageEndpoint storage with
  | Ret e => Ret ("s3:" +++ e +++ "/" +++ bucket storage)
  | Throw e => Throw e
  | Exit c => Exit c
  end.

(** The body of the per-agent loop of [runHealthChecks]: the checks it
    pushes. *)
Definition agentHealthChecks (agentConfig : AgentConfig) : M Repo (list HealthCheck) :=
  match getAgent (ac_id agentConfig) with
  | None =>
      (* Is agent registered? *)
      ret [ {| hc_name := "Agent: " +++ ac_id agentConfig;
               hc_status := st_warn;
               hc_message := "Unknown agent (not in registry)" |} ]
  | Some agentDef =>
      let displayName := displayName agentDef in
      (* Is agent installed? *)
      installed <- call (detectInstalled agentDef) ;;
      if negb installed then
        ret [ {| hc_name := "Agent: " +++ displayName;
                 hc_status := st_warn;
                 hc_message := "Not installed on this system" |} ]
      else
      (* Check data directories exist and are accessible *)
      let dataDirs :=
        if truthy (ac_dataDir agentConfig)
        then [the (ac_dataDir agentConfig)]
        else map path (dataDirs agentDef) in
      let dirMessages :=
        map (fun dir => expandHome dir +++ " missing")
            (filter (fun dir => negb (pathExists h (expandHome dir))) dataDirs) in
      let allDirsOk := forallb (fun dir => pathExists h (expandHome dir)) dataDirs in
      let dirCheck :=
        if allDirsOk
        then {| hc_name := "Agent: " +++ displayName;
                hc_status := st_ok;
                hc_message := "Installed (" +++ join ", " (map expandHome dataDirs) +++ ")" |}
        else {| hc_name := "Agent: " +++ displayName;
                hc_status := st_error;
                hc_message := "Data dir issue: " +++ join "; " dirMessages |} in
      (* Check if running *)
      match isRunning agentDef with
      | Some probe =>
          running <- call probe ;;
          if running : bool then
            ret [ dirCheck;
                  {| hc_name := "  " +++ displayName +++ " process";
                     hc_status := st_warn;
                     hc_message := "Running (SQLite may be locked during backup)" |} ]
          else
            ret [ dirCheck;
                  {| hc_name := "  " +++ displayName +++ " process";
                     hc_status := st_ok;
                     hc_message := "Not running (safe to backup)" |} ]
      | None => ret [dirCheck]
      end
  end.

(** [for (const agentConfig of config.agents)], collecting the pushes. *)
Fixpoint agentsHealthChecks (configured : list AgentConfig) : M Repo (list HealthCheck) :=
  match configured with
  | [] => ret []
  | agentConfig :: rest =>
      here <- agentHealthChecks agentConfig ;;
      later <- agentsHealthChecks rest ;;
      ret (here ++ later)
  end.

(** Run all health checks and return results. *)
Definition runHealthChecks (passphrase : option string) : M Repo (list HealthCheck) :=
  (* 1. Restic binary *)
  let c1 :=
    if isResticInstalled h
    then {| hc_name := "Restic binary"; hc_status := st_ok;
            hc_message := "v" +++ getResticVersion h +++ " (" +++ getResticBinaryPath h +++ ")" |}
    else {| hc_name := "Restic binary"; hc_status := st_error;
            hc_message := "Not installed. Run `agentstash setup`" |} in
  (* 2. Config file *)
  let config := loadConfig h in
  let c2 :=
    match config with
    | Some _ => {| hc_name := "Config"; hc_status := st_ok;
                   hc_message := getAgentstashConfigPath h |}
    | None => {| hc_name := "Config"; hc_status := st_error;
                 hc_message := "Not found. Run `agentstash setup`" |}
    end in
  (* 3. Per-agent checks *)
  c3 <- match config with
        | Some config =>
            let none :=
              if (length (cfg_agents config) =? 0)%nat
              then [ {| hc_name := "Agents"; hc_status := st_warn;
                        hc_message := "No agents configured. Run `agentstash setup`" |} ]
              else [] in
            per_agent <- agentsHealthChecks (cfg_agents config) ;;
            ret (none ++ per_agent)
        | None => ret []
        end ;;
  (* 4. Remote repository *)
  c4 <- match config with
        | Some config =>
            if truthy passphrase then
              repoOk <- (fun r =>
                           let ro := {| ro_storage := cfg_storage config;
                                        ro_passphrase := the passphrase |} in
                           let '(ok, r1) := checkRepo h ro r in
                           (Ret ok, r1, [])) ;;
              if repoOk : bool then
                url <- call (getResticRepoUrl (cfg_storage config)) ;;
                ret [ {| hc_name := "Remote repository"; hc_status := st_ok;
                         hc_message := url |} ]
              else
                ret [ {| hc_name := "Remote repository"; hc_status := st_error;
                         hc_message := "Cannot reach repository. Check credentials and network." |} ]
            else
              ret [ {| hc_name := "Remote repository"; hc_status := st_warn;
                       hc_message := "Skipped (no passphrase provided, use --passphrase or AGENTSTASH_PASSPHRASE)" |} ]
        | None => ret []
        end ;;
  ret ([c1; c2] ++ c3 ++ c4).

End Commands.

(* ===================================================================== *)
(** ** Configuration loading (src/core/config.ts [loadConfig]) *)
(* ===================================================================== *)

(** The legacy shape of the configuration file: [agents] may be missing
    and the directory of the one agent of old may stand in
    [openclawDir]. *)
Record LegacyConfig : Type := {
  lc_openclawDir : option string;
  lc_agents : option (list AgentConfig);
  lc_storage : StorageConfig;
  lc_retention : RetentionConfig;
  lc_exclude : list string;
  lc_resticVersion : string
}.

(** [loadConfig], from what [readJson] found at the configuration path
    ([None]: no file).  An array, empty or not, is truthy. *)
Definition loadConfig_of (raw : option LegacyConfig) : option AgentstashConfig :=
  match raw with
  | None => None
  | Some raw =>
      (* Migrate legacy openclawDir -> agents[] *)
      let agents1 :=
        if truthy (lc_openclawDir raw)
           && negb (match lc_agents raw with Some _ => true | None => false end)
        then Some [ {| ac_id := "openclaw";
                       ac_dataDir := Some (the (lc_openclawDir raw));
                       ac_enabled := true;
                       ac_excludes := None |} ]
        else lc_agents raw in
      (* Ensure agents array exists even if config was written without it *)
      let agents2 := match agents1 with Some l => l | None => [] end in
      Some {| cfg_agents := agents2;
              cfg_storage := lc_storage raw;
              cfg_retention := lc_retention raw;
              cfg_exclude := lc_exclude raw;
              cfg_resticVersion := lc_resticVersion raw |}
  end.

(** src/core/agents/categories.ts *)
Definition CATEGORY_DESCRIPTIONS : list (string * string) :=
  [ ("config", "Main configuration files");
    ("secrets", "Credentials, API keys, auth tokens");
    ("sessions", "Conversation history and chat logs");
    ("memory", "Persistent memory and knowledge bases");
    ("skills", "Custom skills, plugins, and extensions");
    ("workspace", "Workspace and project-specific data");
    ("settings", "User preferences and UI state");
    ("history", "Input and prompt history");
    ("all", "Everything") ].

Section Listing.

Variable agents : Registry.

(* ===================================================================== *)
(** ** Snapshot listing (src/cli/snapshots.ts) *)
(* ===================================================================== *)

(** The loop of [getAgentNameFromTag]. *)
Fixpoint agentNameOf (tags : list string) : option string :=
  match tags with
  | [] => None
  | tag :: rest =>
      if String.eqb tag "agentstash" then agentNameOf rest
      else
        match getAgent agents tag with
        | Some agentDef => Some (displayName agentDef)
        | None => agentNameOf rest
        end
  end.

(** Resolve agent display name from a tag. *)
Definition getAgentNameFromTag (tags : option (list string)) : option string :=
  match tags with
  | None => None
  | Some tags => agentNameOf tags
  end.

(** [snap.tags?.filter((t) => t !== "agentstash" && !getAgent(t)) ?? []]
    of [snapshotsCommand]. *)
Definition displayTags (tags : option (list string)) : list string :=
  match tags with
  | Some tags =>
      filter (fun t => negb (String.eqb t "agentstash")
                       && negb (match getAgent agents t with
                                | Some _ => true
                                | None => false
                                end)) tags
  | None => []
  end.

End Listing.

Section Restore.

Variable Repo : Type.
Variable h : Host Repo.
Variable agents : Registry.

(** The engine operation [restore(snapshotId, targetPath, opts,
    { include })] of src/core/restic.ts, and the answer of the user to
    the confirmation prompt, should it be asked. *)
Variable restore : string -> string -> ResticOpts -> option (list string) ->
                   Repo -> result unit * Repo.
Variable confirmed : bool.

(* ===================================================================== *)
(** ** Restore (src/cli/restore.ts [restoreCommand]) *)
(* ===================================================================== *)

(** [formatTimeAgo(new Date(s))], a helper of utils/fs.js applied to a
    date. *)
Definition timeAgo (s : string) : frag :=
  match dateParse h s with
  | Some t => Fmt "formatTimeAgo" t
  | None => Str "formatTimeAgo(Invalid Date)"
  end.

(** "Require --agent flag for restore", down to the configured agent. *)
Definition restoreAgent (opts : RestoreOptions) (config : AgentstashConfig)
  : M Repo AgentConfig :=
  agentName <-
    (if negb (truthy (r_agent opts)) then
       match cfg_agents config with
       | [only_one] =>
           (* Auto-select the only configured agent *)
           log Info [Str "Auto-selected agent: "; Str (ac_id only_one)] ;;
           ret (ac_id only_one)
       | _ =>
           log Error [Str "Specify which agent to restore with --agent <id>"] ;;
           log Info [Str "Configured agents: ";
                     Str (or_else (join ", " (map ac_id (cfg_agents config))) "(none)")] ;;
           process_exit 1
       end
     else ret (the (r_agent opts))) ;;
  match find (fun a => String.eqb (ac_id a) agentName) (cfg_agents config) with
  | None =>
      log Error [Str "Agent "; Str dq; Str agentName; Str dq;
                 Str " is not configured."] ;;
      log Info [Str "Configured agents: ";
                Str (or_else (join ", " (map ac_id (cfg_agents config))) "(none)")] ;;
      process_exit 1
  | Some agentConfig => ret agentConfig
  end.

(** "Select snapshot".  On an empty list [snapshots[snapshots.length - 1]]
    is [undefined] and reading its [short_id] throws. *)
Definition selectSnapshot (opts : RestoreOptions) (snapshots : list ResticSnapshot)
  : M Repo ResticSnapshot :=
  if truthy (r_at opts) then
    found <- findSnapshotByTime h snapshots (the (r_at opts)) ;;
    match found with
    | None =>
        log Error [Str "No snapshot found near that time."] ;;
        process_exit 1
    | Some found =>
        log Info [Str "Closest snapshot: "; Str (short_id found); Str " (";
                  timeAgo (time found); Str ")"] ;;
        ret found
    end
  else
    (* Use latest *)
    match rev snapshots with
    | latest :: _ =>
        log Info [Str "Latest snapshot: "; Str (short_id latest); Str " (";
                  timeAgo (time latest); Str ")"] ;;
        ret latest
    | [] => throw "TypeError: Cannot read properties of undefined (reading 'short_id')"
    end.

(** "Target directory: custom target, agent config dataDir, or agent
    default". *)
Definition restoreTarget (opts : RestoreOptions) (agentConfig : AgentConfig)
    (agentDef : option AgentDefinition) : M Repo string :=
  if truthy (r_target opts) then ret (the (r_target opts))
  else if truthy (ac_dataDir agentConfig)
  then ret (expandHome h (the (ac_dataDir agentConfig)))
  else
    match agentDef with
    | Some def =>
        match dataDirs def with
        | first :: _ => ret (expandHome h (path first))
        | [] =>
            log Error [Str "Cannot determine restore target. Use --target to specify."] ;;
            process_exit 1
        end
    | None =>
        log Error [Str "Cannot determine restore target. Use --target to specify."] ;;
        process_exit 1
    end.

Definition restoreCommand (opts : RestoreOptions) : M Repo unit :=
  config <- requireConfig h ;;
  passphrase <- resolvePassphrase h (r_passphrase opts) ;;
  (* Require --agent flag for restore *)
  agentConfig <- restoreAgent opts config ;;
  let agentDef := getAgent agents (ac_id agentConfig) in
  let agentDisplayName :=
    match agentDef with
    | Some def => displayName def
    | None => ac_id agentConfig
    end in
  emit (EnsureRestic (cfg_resticVersion config)) ;;
  _ <- await (ensureRestic h (cfg_resticVersion config)) ;;
  let resticOpts := {| ro_storage := cfg_storage config; ro_passphrase := passphrase |} in
  (* Fetch snapshots filtered by agent tag *)
  log SpinStart [Str "Loading snapshots..."] ;;
  emit (EngineListSnapshots resticOpts (Some [ac_id agentConfig])) ;;
  snapshots <- engine (listSnapshots h resticOpts (Some [ac_id agentConfig])) ;;
  log SpinStop [] ;;
  if (length snapshots =? 0)%nat then
    log Error [Str "No snapshots found for "; Str agentDisplayName;
               Str ". Run `agentstash backup --agent "; Str (ac_id agentConfig);
               Str "` first."] ;;
    process_exit 1
  else
  (* Select snapshot *)
  selectedSnapshot <- selectSnapshot opts snapshots ;;
  (* Target directory *)
  targetDir <- restoreTarget opts agentConfig agentDef ;;
  (* Confirmation *)
  let dry := match r_dryRun opts with Some true => true | _ => false end in
  proceed <-
    (if negb dry then
       if pathExists h targetDir && negb (truthy (r_target opts)) then
         log Blank [] ;;
         log Warn [Str "This will overwrite files in "; Str targetDir] ;;
         if negb confirmed then
           log Info [Str "Restore cancelled."] ;;
           ret false
         else ret true
       else ret true
     else ret true) ;;
  if negb proceed then ret tt else
  (* Build includes for --only *)
  includes <- getCategoryIncludes_restore agents (ac_id agentConfig) (r_only opts) ;;
  (* Restore *)
  log SpinStart
    (if dry then [Str "Calculating restore (dry run)..."]
     else [Str "Restoring "; Str agentDisplayName; Str " snapshot ";
           Str (short_id selectedSnapshot); Str "..."]) ;;
  try_catch
    (engine (restore (snap_id selectedSnapshot) targetDir resticOpts includes) ;;
     log SpinStop [] ;;
     log Blank [] ;;
     log Header (if dry then [Str "Dry run complete"] else [Str "Restore complete"]) ;;
     log_kv "Agent" [Str agentDisplayName] (Some "ok") ;;
     log_kv "Snapshot" [Str (short_id selectedSnapshot)] (Some "ok") ;;
     log_kv "From" [timeAgo (time selectedSnapshot)] None ;;
     log_kv "To" [Str targetDir] None ;;
     (if truthy (r_only opts) then log_kv "Category" [Str (the (r_only opts))] None
      else ret tt))
    (fun err =>
     log SpinFail [Str "Restore failed"] ;;
     log Error [Str err] ;;
     process_exit 1).

End Restore.

(* ===================================================================== *)
(** * Vocabulary of the specification *)
(* ===================================================================== *)

(** The first source, in priority order, that holds a non-empty value. *)
Fixpoint first_nonempty (sources : list (option string)) : option string :=
  match sources with
  | [] => None
  | s :: rest => if truthy s then s else first_nonempty rest
  end.

(** The engine invocations of a trace, in order. *)
Definition engine_calls (t : list event) : list (string * ResticOpts * BackupOpts) :=
  flat_map (fun e => match e with EngineBackup d ro bo => [(d, ro, bo)] | _ => [] end) t.

(** The engine operations of a trace, in order. *)
Definition engine_events (t : list event) : list event :=
  filter (fun e => match e with
                   | EngineBackup _ _ _ | EngineListSnapshots _ _
                   | EngineForget _ _ _ => true
                   | _ => false
                   end) t.

Section Vocabulary.
Variable Repo : Type.
Variable h : Host Repo.
Variable agents : Registry.

(** The directories [backupAgent] goes through for one configured agent:
    the override of the configuration, else those of the definition. *)
Definition effective_dirs (agentDef : AgentDefinition) (agentConfig : AgentConfig)
  : list DataDir :=
  if truthy (ac_dataDir agentConfig)
  then [{| path := the (ac_dataDir agentConfig);
           dd_description := "Custom data directory";
           critical := true |}]
  else dataDirs agentDef.

(** The directories of one configured agent that are due for a backup:
    none for an agent the registry does not know, else the effective
    directories that exist, home-expanded. *)
Definition due_dirs (agentConfig : AgentConfig) : list string :=
  match getAgent agents (ac_id agentConfig) with
  | None => []
  | Some agentDef =>
      filter (pathExists h)
             (map (fun d => expandHome h (path d)) (effective_dirs agentDef agentConfig))
  end.

(** What [backupAgent] hands to the engine for one directory. *)
Definition backup_includes (agentDef : AgentDefinition) (only : option string)
  : option (list string) :=
  if truthy only then
    match get_property (categories agentDef) (the only) with
    | Own categoryRule => Some (backupIncludes categoryRule)
    | _ => None
    end
  else None.

Definition due_call (agentDef : AgentDefinition) (agentConfig : AgentConfig)
    (opts : BackupOptions) (passphrase : string) (config : AgentstashConfig)
    (d : string) : string * ResticOpts * BackupOpts :=
  (d,
   {| ro_storage := cfg_storage config; ro_passphrase := passphrase |},
   {| bo_tags := if truthy (only opts)
                 then ["agentstash"; ac_id agentConfig; the (only opts)]
                 else ["agentstash"; ac_id agentConfig];
      bo_excludes := excludes agentDef ++
                     match ac_excludes agentConfig with Some xs => xs | None => [] end ++
                     cfg_exclude config;
      bo_includes := backup_includes agentDef (only opts);
      bo_dryRun := opt_dryRun opts |}).

Definition due_calls (agentConfig : AgentConfig) (opts : BackupOptions)
    (passphrase : string) (config : AgentstashConfig)
  : list (string * ResticOpts * BackupOpts) :=
  match getAgent agents (ac_id agentConfig) with
  | None => []
  | Some agentDef =>
      map (due_call agentDef agentConfig opts passphrase config) (due_dirs agentConfig)
  end.

(** The category filter, if any, names an own category of the agent or a
    property every object has: [getCategoryIncludes] does not exit. *)
Definition category_resolves (only : option string) (agentDef : AgentDefinition) : Prop :=
  truthy only = true ->
  get_property (categories agentDef) (the only) <> Undefined.

(** The liveness probe of the agent, if it has one, returns. *)
Definition probe_returns (agentDef : AgentDefinition) : Prop :=
  forall p, isRunning agentDef = Some p -> exists b, p = Ret b.

End Vocabulary.

(** The units of the relative-time grammar, their names and their fixed
    durations in milliseconds. *)
Inductive time_unit : Type := Minute | Hour | Day | Week | Month.

Definition unit_name (u : time_unit) : string :=
  match u with
  | Minute => "minute"
  | Hour => "hour"
  | Day => "day"
  | Week => "week"
  | Month => "month"
  end.

Definition unit_ms (u : time_unit) : Z :=
  match u with
  | Minute => 60000
  | Hour => 3600000
  | Day => 86400000
  | Week => 604800000
  | Month => 2592000000
  end.

(** [w] spells the word [name], letter case apart. *)
Definition same_ci (w : list ascii) (name : string) : Prop :=
  map canonicalize w = map canonicalize (list_ascii_of_string name).

(** A run of one or more characters of a class. *)
Definition run_of (cls : ascii -> bool) (l : list ascii) : Prop :=
  l <> [] /\ forallb cls l = true.

(** [s] reads [<integer> <unit>(s)? ago]: decimal digits, white space, a
    unit name with an optional plural s, white space, the word ago; letter
    case is free. *)
Definition relative_expression (s : string) (digits : list ascii) (u : time_unit)
  : Prop :=
  exists ws1 w pl ws2 a,
    list_ascii_of_string s = digits ++ ws1 ++ w ++ pl ++ ws2 ++ a /\
    run_of is_digit digits /\
    run_of is_space ws1 /\
    same_ci w (unit_name u) /\
    (pl = [] \/ same_ci pl "s") /\
    run_of is_space ws2 /\
    same_ci a "ago".

(** The first element of a list of matches. *)
Definition starts {A} (l : list A) (x : A) : Prop := exists tl, l = x :: tl.

(** The head of the rest of the input is outside a class. *)
Definition head_outside (cls : ascii -> bool) (l : list ascii) : Prop :=
  match l with
  | [] => True
  | c :: _ => cls c = false
  end.

(** A letter, letter case apart. *)
Definition is_letter (c : ascii) : bool :=
  let n := nat_of_ascii (canonicalize c) in ((65 <=? n) && (n <=? 90))%nat.

(** [pat] is a prefix of [s], letter case apart. *)
Fixpoint ci_prefix (pat s : list ascii) : bool :=
  match pat, s with
  | [], _ => true
  | p :: pat', c :: s' =>
      Ascii.eqb (canonicalize c) (canonicalize p) && ci_prefix pat' s'
  | _ :: _, [] => false
  end.

(** The installation probe answers that the agent is installed. *)
Definition installed (a : AgentDefinition) : bool :=
  match detectInstalled a with
  | Ret true => true
  | _ => false
  end.

(** Both probes of a definition return. *)
Definition probes_return (a : AgentDefinition) : Prop :=
  (exists b, detectInstalled a = Ret b) /\ probe_returns a.

(** A probe of the definition throws [e] when the health checks call it:
    the installation probe, or the liveness probe of an agent that is
    installed. *)
Definition probe_throws (a : AgentDefinition) (e : string) : Prop :=
  detectInstalled a = Throw e \/
  (detectInstalled a = Ret true /\ isRunning a = Some (Throw e)).

(** An integer that doubles hold exactly, and on which their arithmetic
    is exact: [Number.isSafeInteger]. *)
Definition safe_integer (z : Z) : Prop := Z.abs z < 2 ^ 53.

(** A time value, as [Date.now()] and the date parser yield: at most
    100,000,000 days from the epoch. *)
Definition time_value (z : Z) : Prop := Z.abs z <= 8640000000000000.

(** The distance of a snapshot to an instant, in double precision: the
    magnitude of the double nearest to their difference.  There is none
    when the time stamp is no valid date or the difference overflows. *)
Definition distance {Repo} (h : Host Repo) (t : Z) (snap : ResticSnapshot) : option Z :=
  match dateParse h (time snap) with
  | Some x =>
      match to_double (x - t) with
      | Fin d => Some (Z.abs d)
      | _ => None
      end
  | None => None
  end.

(** [snap] is the nearest snapshot of [snapshots] to the instant [t], the
    first one in list order among those at the least distance: every
    snapshot before it is strictly farther, every snapshot after it is at
    least as far. *)
Definition first_nearest {Repo} (h : Host Repo) (t : Z)
    (snapshots : list ResticSnapshot) (snap : ResticSnapshot) : Prop :=
  exists earlier later d,
    snapshots = earlier ++ snap :: later /\
    distance h t snap = Some d /\
    (forall s' d', In s' earlier -> distance h t s' = Some d' -> d < d') /\
    (forall s' d', In s' later -> distance h t s' = Some d' -> d <= d').

(* ===================================================================== *)
(** * Vocabulary of the further properties *)
(* ===================================================================== *)

(** The pattern lists of a category rule are usable: none is empty and
    there is one restore pattern per backup pattern. *)
Definition usable_rule (categoryRule : CategoryRule) : Prop :=
  backupIncludes categoryRule <> [] /\
  length (restoreIncludes categoryRule) = length (backupIncludes categoryRule).

(** The restore patterns are the backup patterns, anchored anywhere in the
    archive. *)
Definition anchored_rule (categoryRule : CategoryRule) : Prop :=
  restoreIncludes categoryRule =
  map (fun pattern => "**/" +++ pattern) (backupIncludes categoryRule).

(** The configuration file as [saveConfig] writes it, possibly with a
    stale [openclawDir] left in it. *)
Definition saved (config : AgentstashConfig) (stale : option string) : LegacyConfig :=
  {| lc_openclawDir := stale;
     lc_agents := Some (cfg_agents config);
     lc_storage := cfg_storage config;
     lc_retention := cfg_retention config;
     lc_exclude := cfg_exclude config;
     lc_resticVersion := cfg_resticVersion config |}.

(** An event that is no engine operation. *)
Definition quiet (e : event) : Prop :=
  match e with
  | EngineBackup _ _ _ | EngineListSnapshots _ _ | EngineForget _ _ _ => False
  | _ => True
  end.

(** An event that is no engine operation other than a backup. *)
Definition backup_step (e : event) : Prop :=
  match e with
  | EngineListSnapshots _ _ | EngineForget _ _ _ => False
  | _ => True
  end.

Section FurtherVocabulary.
Variable Repo : Type.
Variable h : Host Repo.

(** The last step of [backupCommand]: "Apply retention policy (unless
    --no-forget)". *)
Definition retentionAfterBackup (opts : BackupOptions) (config : AgentstashConfig)
    (pw : string) : M Repo unit :=
  if negb (match opt_dryRun opts with Some true => true | _ => false end)
     && negb (match opt_forget opts with Some false => true | _ => false end)
  then
    log SpinStart [Str "Applying retention policy..."] ;;
    try_catch
      (let ro := {| ro_storage := cfg_storage config; ro_passphrase := pw |} in
       emit (EngineForget ro (cfg_retention config) None) ;;
       engine (forget h ro (cfg_retention config) None) ;;
       log SpinSucceed [Str "Retention policy applied"])
      (fun err =>
       log SpinWarn [Str "Retention policy failed (backup was successful)"] ;;
       log Debug [Str err])
  else ret tt.

End FurtherVocabulary.

(** Two computations that end alike and leave the same repository; they
    may differ in what they log. *)
Definition same_effect {Repo A} (m1 m2 : M Repo A) : Prop :=
  forall r, outcome_of (m1 r) = outcome_of (m2 r) /\
            repo_of (m1 r) = repo_of (m2 r).

(** The options with [--dry-run] given or not. *)
Definition withDryRun (dry : bool) (opts : RestoreOptions) : RestoreOptions :=
  {| r_passphrase := r_passphrase opts; r_agent := r_agent opts;
     r_only := r_only opts; r_at := r_at opts; r_target := r_target opts;
     r_dryRun := Some dry |}.

(** A text without a dollar sign, which [replace] inserts as it is. *)
Fixpoint plain_text (s : string) : bool :=
  match s with
  | EmptyString => true
  | String c rest => negb (Ascii.eqb c "$") && plain_text rest
  end.

(** The one agent a legacy configuration is migrated to. *)
Definition migrated_agent (openclawDir : string) : AgentConfig :=
  {| ac_id := "openclaw"; ac_dataDir := Some openclawDir;
     ac_enabled := true; ac_excludes := None |}.

(* ===================================================================== *)
(** * A small host and catalog, for the examples *)
(* ===================================================================== *)

Module Example.

Definition storage : StorageConfig := {|
  provider := R2; bucket := "test"; accountId := Some "abc";
  accessKeyId := "key"; secretAccessKey := "secret";
  endpoint := None; region := None; jurisdiction := None |}.

(** Agent A, whose directory exists on the example host, and agent B,
    whose directory is missing there. *)
Definition agentA : AgentDefinition := {|
  id := "a"; displayName := "A"; description := "agent A";
  dataDirs := [ dir "~/.a" "data of A" true ];
  categories := [ ("secrets", rule "Credentials" ["auth/**"] ["**/auth/**"]) ];
  excludes := [ "*.lock" ];
  detectInstalled := Ret true;
  isRunning := Some (Ret false) |}.

Definition agentB : AgentDefinition := {|
  id := "b"; displayName := "B"; description := "agent B";
  dataDirs := [ dir "~/.b" "data of B" true ];
  categories := [];
  excludes := [];
  detectInstalled := Ret false;
  isRunning := None |}.

(** An agent whose installation probe throws. *)
Definition agentBroken : AgentDefinition := {|
  id := "broken"; displayName := "Broken"; description := "agent with a failing probe";
  dataDirs := [ dir "~/.broken" "data" true ];
  categories := [];
  excludes := [];
  detectInstalled := Throw "EACCES: permission denied";
  isRunning := None |}.

Definition registry : Registry := [agentA; agentB].

Definition configA : AgentConfig :=
  {| ac_id := "a"; ac_dataDir := None; ac_enabled := true;
     ac_excludes := Some ["*.tmp"] |}.
Definition configB : AgentConfig :=
  {| ac_id := "b"; ac_dataDir := None; ac_enabled := false; ac_excludes := None |}.
Definition configBroken : AgentConfig :=
  {| ac_id := "broken"; ac_dataDir := None; ac_enabled := true; ac_excludes := None |}.

Definition config_of (l : list AgentConfig) : AgentstashConfig := {|
  cfg_agents := l;
  cfg_storage := storage;
  cfg_retention := {| keepLast := 6; keepDaily := 30; keepWeekly := 12; keepMonthly := 6 |};
  cfg_exclude := ["*.custom"];
  cfg_resticVersion := "0.17.3" |}.

Definition summary : ResticBackupSummary := {|
  files_new := 5; files_changed := 2; files_unmodified := 100;
  data_added := 2048; total_bytes_processed := 50000; total_duration := 2;
  snapshot_id := "abc12345def67890" |}.

Definition snapshot_at (t : string) : ResticSnapshot :=
  {| snap_id := "id-" +++ t; short_id := t; time := t; snap_tags := Some ["agentstash"] |}.

(** The repository is the list of its snapshots.  A backup appends one;
    pruning keeps the last [keepLast]; times of day stand for dates. *)
Definition host (l : list AgentConfig) : Host (list ResticSnapshot) := {|
  homedir := "/home/user";
  pathExists := fun p => String.eqb p "/home/user/.a";
  existsSync := fun _ => false;
  execSync := fun _ => Err "ENOENT";
  fetchOk := fun _ => Err "ECONNREFUSED";
  envPassphrase := Some "env-pass";
  getKeychainPassphrase := None;
  loadConfig := Some (config_of l);
  ensureRestic := fun _ => Ok "/usr/bin/restic";
  isResticInstalled := true;
  getResticVersion := "0.17.3";
  getResticBinaryPath := "/usr/bin/restic";
  getAgentstashConfigPath := "/home/user/.agentstash/config.json";
  dateNow := 1700000000000;
  dateParse := fun s =>
    if String.eqb s "10:00" then Some 36000000
    else if String.eqb s "11:00" then Some 39600000
    else if String.eqb s "12:00" then Some 43200000
    else if String.eqb s "13:30" then Some 48600000
    else if String.eqb s "15:00" then Some 54000000
    else None;
  backup := fun d _ _ repo => (Ok summary, repo ++ [snapshot_at "12:00"]);
  listSnapshots := fun _ _ repo => (Ok repo, repo);
  forget := fun _ rc _ repo =>
    (Ok tt, skipn (length repo - Z.to_nat (keepLast rc)) repo);
  checkRepo := fun _ repo => (true, repo)
|}.

Definition plain : BackupOptions :=
  {| passphrase := Some "pw"; agent := None; only := None;
     opt_dryRun := None; opt_forget := None |}.

Definition three_snapshots : list ResticSnapshot :=
  [snapshot_at "10:00"; snapshot_at "12:00"; snapshot_at "15:00"].

Definition ten_snapshots : list ResticSnapshot :=
  map snapshot_at ["10:00"; "10:00"; "10:00"; "10:00"; "12:00"; "12:00";
                   "12:00"; "15:00"; "15:00"; "15:00"].

Definition only_secrets : BackupOptions :=
  {| passphrase := Some "pw"; agent := None; only := Some "secrets";
     opt_dryRun := None; opt_forget := None |}.

(** What a backup of agent A with [--only secrets] hands to the engine. *)
Definition call_for_A : string * ResticOpts * BackupOpts :=
  due_call agentA configA only_secrets "pw" (config_of [configA]) "/home/user/.a".

(** [--agent b], for the disabled agent b. *)
Definition named_b : BackupOptions :=
  {| passphrase := None; agent := Some "b"; only := None;
     opt_dryRun := None; opt_forget := None |}.

(** The loop of a plain backup over A and B, from an empty repository. *)
Definition loop_AB : outcome unit * list ResticSnapshot * list event :=
  backupAgents (host [configA; configB]) registry [configA; configB]
               plain "pw" (config_of [configA; configB]) [].

(** Pruning a repository of ten snapshots. *)
Definition forget_ten : outcome unit * list ResticSnapshot * list event :=
  forgetCommand (host [configA]) {| f_passphrase := None; f_agent := None |}
                ten_snapshots.

End Example.

(** Further situations on the example host: other configuration files,
    an engine that fails, restores. *)
Module Scenario.
Import Example.

(** The example host with another configuration file and other answers of
    the engine to listing and pruning. *)
Definition host_with (config : option AgentstashConfig)
    (listing : ResticOpts -> option (list string) -> list ResticSnapshot ->
               result (list ResticSnapshot) * list ResticSnapshot)
    (pruning : ResticOpts -> RetentionConfig -> option (list string) ->
               list ResticSnapshot -> result unit * list ResticSnapshot)
  : Host (list ResticSnapshot) := {|
  homedir := homedir (host []);
  pathExists := pathExists (host []);
  existsSync := existsSync (host []);
  execSync := execSync (host []);
  fetchOk := fetchOk (host []);
  envPassphrase := envPassphrase (host []);
  getKeychainPassphrase := getKeychainPassphrase (host []);
  loadConfig := config;
  ensureRestic := ensureRestic (host []);
  isResticInstalled := isResticInstalled (host []);
  getResticVersion := getResticVersion (host []);
  getResticBinaryPath := getResticBinaryPath (host []);
  getAgentstashConfigPath := getAgentstashConfigPath (host []);
  dateNow := dateNow (host []);
  dateParse := dateParse (host []);
  backup := backup (host []);
  listSnapshots := listing;
  forget := pruning;
  checkRepo := checkRepo (host [])
|}.

(** A repository that is locked: pruning fails. *)
Definition locked_host : Host (list ResticSnapshot) :=
  host_with (Some (config_of [configA]))
            (listSnapshots (host []))
            (fun _ _ _ repo => (Err "repository is locked", repo)).

Definition forget_all : ForgetOptions := {| f_passphrase := None; f_agent := None |}.

(** No configuration file at all. *)
Definition fresh_host : Host (list ResticSnapshot) :=
  host_with None (listSnapshots (host [])) (forget (host [])).

(** A configuration file of the old format, for the directory of A. *)
Definition legacy_file : LegacyConfig :=
  {| lc_openclawDir := Some "~/.a";
     lc_agents := None;
     lc_storage := storage;
     lc_retention := cfg_retention (config_of []);
     lc_exclude := ["*.custom"];
     lc_resticVersion := "0.17.3" |}.

Definition legacy_host : Host (list ResticSnapshot) :=
  host_with (loadConfig_of (Some legacy_file))
            (listSnapshots (host [])) (forget (host [])).

(** The engine restores without changing the repository, or fails. *)
Definition restore_ok (snapshotId targetPath : string) (ro : ResticOpts)
    (include : option (list string)) (repo : list ResticSnapshot)
  : result unit * list ResticSnapshot := (Ok tt, repo).

(** [restore --agent a], and with [--target /tmp/out]. *)
Definition restore_a : RestoreOptions :=
  {| r_passphrase := None; r_agent := Some "a"; r_only := None; r_at := None;
     r_target := None; r_dryRun := None |}.

Definition restore_a_to_tmp : RestoreOptions :=
  {| r_passphrase := None; r_agent := Some "a"; r_only := Some "secrets";
     r_at := Some "13:30"; r_target := Some "/tmp/out"; r_dryRun := None |}.

(** The backup of agent A alone with [--only secrets], from an empty
    repository. *)
Definition backup_A_secrets : outcome unit * list ResticSnapshot * list event :=
  backupAgent (host [configA]) registry configA only_secrets "pw"
              (config_of [configA]) [].

(** A plain backup of the configured agents A and B, from an empty
    repository. *)
Definition backup_plain : outcome unit * list ResticSnapshot * list event :=
  backupCommand (host [configA; configB]) registry plain [].

(** The resolved options of the plain backup. *)
Definition resticOpts_plain : ResticOpts :=
  {| ro_storage := storage; ro_passphrase := "pw" |}.

End Scenario.

(* ===================================================================== *)
(** * Properties *)
(* ===================================================================== *)

(** ** Running commands *)

Section MonadFacts.
Context {Repo : Type}.

Lemma bind_ret_l {A B} (a : A) (f : A -> M Repo B) (r : Repo) :
  bind (ret a) f r = f a r.
Proof.
  unfold bind, ret. destruct (f a r) as [[o r'] t]. reflexivity.
Qed.

Lemma bind_emit {B} (e : event) (f : unit -> M Repo B) (r : Repo) :
  bind (emit e) f r =
  (outcome_of (f tt r), repo_of (f tt r), e :: trace_of (f tt r)).
Proof.
  unfold bind, emit. destruct (f tt r) as [[o r'] t]. reflexivity.
Qed.

Lemma bind_exit {A B} (c : Z) (f : A -> M Repo B) (r : Repo) :
  bind (process_exit c) f r = (Exit c, r, []).
Proof. reflexivity. Qed.

Lemma bind_call_ret {A B} (a : A) (f : A -> M Repo B) (r : Repo) :
  bind (call (Ret a)) f r = f a r.
Proof.
  unfold bind, call. destruct (f a r) as [[o r'] t]. reflexivity.
Qed.

Lemma bind_bind {A B C} (m : M Repo A) (f : A -> M Repo B) (g : B -> M Repo C)
    (r : Repo) :
  bind (bind m f) g r = bind m (fun a => bind (f a) g) r.
Proof.
  unfold bind. destruct (m r) as [[[a|e|c] r1] t1]; try reflexivity.
  destruct (f a r1) as [[[b|e|c] r2] t2]; try reflexivity.
  destruct (g b r2) as [[o3 r3] t3]. rewrite app_assoc. reflexivity.
Qed.

(** The outcome of a sequence whose first part returns. *)
Lemma bind_outcome_ret {A B} (m : M Repo A) (f : A -> M Repo B) r a :
  outcome_of (m r) = Ret a ->
  outcome_of (bind m f r) = outcome_of (f a (repo_of (m r))).
Proof.
  unfold bind, outcome_of, repo_of.
  destruct (m r) as [[o r1] t1]; simpl. intros ->.
  destruct (f a r1) as [[o2 r2] t2]. reflexivity.
Qed.

Lemma bind_trace_ret {A B} (m : M Repo A) (f : A -> M Repo B) r a :
  outcome_of (m r) = Ret a ->
  trace_of (bind m f r) = trace_of (m r) ++ trace_of (f a (repo_of (m r))).
Proof.
  unfold bind, outcome_of, repo_of, trace_of.
  destruct (m r) as [[o r1] t1]; simpl. intros ->.
  destruct (f a r1) as [[o2 r2] t2]. reflexivity.
Qed.

Lemma bind_repo_ret {A B} (m : M Repo A) (f : A -> M Repo B) r a :
  outcome_of (m r) = Ret a ->
  repo_of (bind m f r) = repo_of (f a (repo_of (m r))).
Proof.
  unfold bind, outcome_of, repo_of.
  destruct (m r) as [[o r1] t1]; simpl. intros ->.
  destruct (f a r1) as [[o2 r2] t2]. reflexivity.
Qed.

Lemma engine_calls_app (t1 t2 : list event) :
  engine_calls (t1 ++ t2) = engine_calls t1 ++ engine_calls t2.
Proof. apply flat_map_app. Qed.

Lemma In_engine_calls d ro bo (t : list event) :
  In (d, ro, bo) (engine_calls t) <-> In (EngineBackup d ro bo) t.
Proof.
  unfold engine_calls. rewrite in_flat_map. split.
  - intros (e & He & Hin). destruct e; simpl in Hin; try tauto.
    destruct Hin as [Heq | []]. inversion Heq; subst. exact He.
  - intros Hin. exists (EngineBackup d ro bo). simpl. auto.
Qed.

(** An event of a sequence comes from its first part, or from its second
    part run from where the first one returned. *)
Lemma bind_trace_inv {A B} (m : M Repo A) (f : A -> M Repo B) (r : Repo) e :
  In e (trace_of (bind m f r)) ->
  In e (trace_of (m r)) \/
  exists a, outcome_of (m r) = Ret a /\ In e (trace_of (f a (repo_of (m r)))).
Proof.
  unfold bind, outcome_of, repo_of, trace_of.
  destruct (m r) as [[[a|err|c] r1] t1]; simpl; auto.
  destruct (f a r1) as [[o2 r2] t2] eqn:E; simpl.
  rewrite in_app_iff. intros [H | H]; [auto|].
  right. exists a. rewrite E. auto.
Qed.

Lemma try_catch_trace_inv {A} (m : M Repo A) (hd : string -> M Repo A) (r : Repo) e :
  In e (trace_of (try_catch m hd r)) ->
  In e (trace_of (m r)) \/
  exists err, outcome_of (m r) = Throw err /\
              In e (trace_of (hd err (repo_of (m r)))).
Proof.
  unfold try_catch, outcome_of, repo_of, trace_of.
  destruct (m r) as [[[a|err|c] r1] t1]; simpl; auto.
  destruct (hd err r1) as [[o2 r2] t2] eqn:E; simpl.
  rewrite in_app_iff. intros [H | H]; [auto|].
  right. exists err. rewrite E. auto.
Qed.

(** An event of a loop comes from one of its iterations. *)
Lemma for_of_trace_inv {A} (xs : list A) (body : A -> M Repo unit) e :
  forall r, In e (trace_of (for_of xs body r)) ->
  exists x r', In x xs /\ In e (trace_of (body x r')).
Proof.
  induction xs as [|x xs IH]; simpl; intros r Hin.
  - destruct Hin.
  - apply bind_trace_inv in Hin. destruct Hin as [H | (a & _ & H)].
    + exists x, r. auto.
    + destruct (IH _ H) as (y & r' & Hy & He). exists y, r'. auto.
Qed.

(** A loop whose iterations all return returns, and its trace is made of
    the traces of the iterations. *)
Lemma for_of_returns {A} (xs : list A) (body : A -> M Repo unit) :
  (forall x, In x xs -> forall r, outcome_of (body x r) = Ret tt) ->
  forall r, outcome_of (for_of xs body r) = Ret tt.
Proof.
  induction xs as [|x xs IH]; simpl; intros Hb r; [reflexivity|].
  rewrite (bind_outcome_ret _ _ _ (Hb x (or_introl eq_refl) r)).
  apply IH. intros y Hy. apply Hb. auto.
Qed.

Lemma for_of_calls {A} (xs : list A) (body : A -> M Repo unit)
    (g : A -> list (string * ResticOpts * BackupOpts)) :
  (forall x, In x xs -> forall r,
     outcome_of (body x r) = Ret tt /\ engine_calls (trace_of (body x r)) = g x) ->
  forall r, engine_calls (trace_of (for_of xs body r)) = flat_map g xs.
Proof.
  induction xs as [|x xs IH]; simpl; intros Hb r; [reflexivity|].
  destruct (Hb x (or_introl eq_refl) r) as [Ho Hc].
  rewrite (bind_trace_ret _ _ _ Ho), engine_calls_app, Hc. f_equal.
  apply IH. intros y Hy. apply Hb. auto.
Qed.

Lemma for_of_event {A} (xs : list A) (body : A -> M Repo unit) x e :
  (forall y, In y xs -> forall r, outcome_of (body y r) = Ret tt) ->
  In x xs ->
  (forall r, In e (trace_of (body x r))) ->
  forall r, In e (trace_of (for_of xs body r)).
Proof.
  induction xs as [|y xs IH]; simpl; intros Hb Hx He r; [destruct Hx|].
  rewrite (bind_trace_ret _ _ _ (Hb y (or_introl eq_refl) r)), in_app_iff.
  destruct Hx as [-> | Hx].
  - left. apply He.
  - right. apply IH; auto.
Qed.

End MonadFacts.

(** Unfolds the monad on a command made of logging, returning and
    exiting only. *)
Ltac run :=
  repeat first
    [ rewrite bind_bind
    | rewrite bind_emit
    | rewrite bind_ret_l
    | rewrite bind_call_ret
    | rewrite bind_exit ];
  cbn [outcome_of repo_of trace_of fst snd].

(** ** Passphrase resolution *)

Section Passphrase.
Variable Repo : Type.
Variable h : Host Repo.

Lemma truthy_the (s : option string) : truthy s = true -> s = Some (the s).
Proof. destruct s; simpl; [reflexivity | discriminate]. Qed.

(** C1.  Every copy of [resolvePassphrase] (backup and restore; forget and
    snapshots) returns the first non-empty value among the flag, the
    environment variable and the key chain, in that order; it exits with
    code 1 when there is none; it leaves the repository alone; and it asks
    the key chain only when the flag and the environment gave nothing. *)
Theorem resolvePassphrase_priority (flag : option string) (r : Repo) :
  let sources := [flag; envPassphrase h; getKeychainPassphrase h] in
  let expected :=
    match first_nonempty sources with
    | Some p => Ret p
    | None => Exit 1
    end in
  outcome_of (resolvePassphrase h flag r) = expected /\
  outcome_of (resolvePassphrase_forget h flag r) = expected /\
  repo_of (resolvePassphrase h flag r) = r /\
  repo_of (resolvePassphrase_forget h flag r) = r /\
  (In KeychainLookup (trace_of (resolvePassphrase h flag r)) <->
   truthy flag = false /\ truthy (envPassphrase h) = false) /\
  (In KeychainLookup (trace_of (resolvePassphrase_forget h flag r)) <->
   truthy flag = false /\ truthy (envPassphrase h) = false).
Proof.
  unfold resolvePassphrase, resolvePassphrase_forget, log.
  cbn [first_nonempty].
  destruct (truthy flag) eqn:Hf.
  - rewrite (truthy_the _ Hf). cbn.
    repeat split; try tauto; intros [? _]; discriminate.
  - destruct (truthy (envPassphrase h)) eqn:He.
    + rewrite (truthy_the _ He). cbn.
      repeat split; try tauto; intros [_ ?]; discriminate.
    + destruct (truthy (getKeychainPassphrase h)) eqn:Hk.
      * rewrite (truthy_the _ Hk). run.
        repeat split; auto; left; reflexivity.
      * run. repeat split; auto; left; reflexivity.
Qed.

(** [statusCommand] is not a command that needs a credential: its lookup
    always returns, with or without a passphrase. *)
Remark statusPassphrase_optional (flag : option string) (r : Repo) :
  exists found, outcome_of (statusPassphrase h flag r) = Ret found /\
                repo_of (statusPassphrase h flag r) = r.
Proof.
  unfold statusPassphrase. destruct flag as [p|]; [eexists; split; reflexivity|].
  destruct (envPassphrase h) as [e|]; eexists; split; reflexivity.
Qed.

End Passphrase.

(** ** Agent selection *)

Section Selection.
Variable Repo : Type.
Variable h : Host Repo.

Lemma find_id_some (X : string) (l : list AgentConfig) :
  In X (map ac_id l) ->
  exists ac, find (fun a => String.eqb (ac_id a) X) l = Some ac /\
             ac_id ac = X /\ In ac l.
Proof.
  induction l as [|a l IH]; simpl; [tauto|].
  destruct (String.eqb (ac_id a) X) eqn:E.
  - intros _. exists a. apply String.eqb_eq in E. auto.
  - intros [Ha | Hin].
    + rewrite Ha, String.eqb_refl in E. discriminate.
    + destruct (IH Hin) as (ac & Hf & Hid & Hac). exists ac. auto.
Qed.

Lemma find_id_none (X : string) (l : list AgentConfig) :
  ~ In X (map ac_id l) ->
  find (fun a => String.eqb (ac_id a) X) l = None.
Proof.
  induction l as [|a l IH]; simpl; [reflexivity|].
  intros Hn. destruct (String.eqb (ac_id a) X) eqn:E.
  - apply String.eqb_eq in E. tauto.
  - apply IH. tauto.
Qed.

Lemma agentsToBackup_named (opts : BackupOptions) (config : AgentstashConfig)
    (r : Repo) :
  truthy (agent opts) = true ->
  outcome_of (agentsToBackup opts config r) =
  match find (fun a => String.eqb (ac_id a) (the (agent opts))) (cfg_agents config) with
  | Some ac => Ret [ac]
  | None => Exit 1
  end.
Proof.
  intros Ht. unfold agentsToBackup, log. rewrite Ht.
  destruct (find _ (cfg_agents config)) as [ac|].
  - rewrite bind_ret_l. reflexivity.
  - reflexivity.
Qed.

(** C10.  Without an agent option the selection is exactly the configured
    agents that are enabled, in their order, and the command exits with
    code 1 when there is none.  With [--agent X] the first configured
    agent whose id is X is selected, whatever its enabled flag, and the
    command exits with code 1 exactly when no configured agent has id
    X. *)
Theorem agentsToBackup_selection (opts : BackupOptions) (config : AgentstashConfig)
    (r : Repo) :
  let run := agentsToBackup opts config r in
  let enabled := filter ac_enabled (cfg_agents config) in
  (truthy (agent opts) = false ->
     outcome_of run = match enabled with [] => Exit 1 | _ :: _ => Ret enabled end) /\
  (truthy (agent opts) = true ->
     (In (the (agent opts)) (map ac_id (cfg_agents config)) ->
      exists ac, outcome_of run = Ret [ac] /\ ac_id ac = the (agent opts) /\
                 In ac (cfg_agents config)) /\
     (~ In (the (agent opts)) (map ac_id (cfg_agents config)) <->
      outcome_of run = Exit 1)).
Proof.
  cbv zeta. split; intros Ht.
  - unfold agentsToBackup, log. rewrite Ht, bind_ret_l.
    destruct (filter ac_enabled (cfg_agents config)) as [|a l]; reflexivity.
  - rewrite (agentsToBackup_named _ _ r Ht). split; [|split].
    + intros Hin. destruct (find_id_some _ _ Hin) as (ac & Hf & Hid & Hac).
      exists ac. rewrite Hf. auto.
    + intros Hn. rewrite (find_id_none _ _ Hn). reflexivity.
    + intros Hex Hin. destruct (find_id_some _ _ Hin) as (ac & Hf & _).
      rewrite Hf in Hex. discriminate.
Qed.

End Selection.

(** ** Backup: what reaches the engine *)

Section Backup.
Variable Repo : Type.
Variable h : Host Repo.
Variable agents : Registry.

(** Unfolds one directory's backup into its branches. *)
Ltac unfold_dir :=
  unfold backupDataDir, getCategoryIncludes, log, log_kv,
         bind, try_catch, emit, engine, ret, process_exit,
         outcome_of, repo_of, trace_of.

(** Splits on what the engine answers at repository state [r]. *)
Ltac split_engine r :=
  match goal with
  | |- context [backup _ ?d ?ro ?bo r] =>
      let sm := fresh "sm" in
      let e := fresh "e" in
      let r1 := fresh "r1" in
      destruct (backup _ d ro bo r) as [[sm|e] r1]; simpl
  end.

(** A directory that does not exist: one warning, nothing else. *)
Lemma backupDataDir_missing agentDef agentConfig opts passphrase config dataDir r :
  pathExists h (expandHome h (path dataDir)) = false ->
  backupDataDir h agents agentDef agentConfig opts passphrase config dataDir r =
  (Ret tt, r,
   [Log Warn [Str "Data directory not found: "; Str (expandHome h (path dataDir));
              Str " ("; Str (dd_description dataDir); Str ")"]]).
Proof.
  intros He. unfold backupDataDir. rewrite He. reflexivity.
Qed.

(** Whatever happens, an engine invocation made for a directory is the one
    due for it, and the directory exists. *)
Lemma backupDataDir_call_inv agentDef agentConfig opts passphrase config dataDir r c :
  getAgent agents (ac_id agentConfig) = Some agentDef ->
  In c (engine_calls
          (trace_of (backupDataDir h agents agentDef agentConfig opts passphrase
                                   config dataDir r))) ->
  pathExists h (expandHome h (path dataDir)) = true /\
  c = due_call agentDef agentConfig opts passphrase config
               (expandHome h (path dataDir)).
Proof.
  intros Hg. unfold_dir. unfold due_call, backup_includes. rewrite Hg.
  destruct (pathExists h (expandHome h (path dataDir))); simpl; [|tauto].
  destruct (opt_dryRun opts) as [[|]|];
    (destruct (truthy (only opts)); simpl;
     [destruct (get_property (categories agentDef) (the (only opts))); simpl;
      try tauto|]);
    split_engine r; intros [<- | []]; auto.
Qed.

(** When the category filter resolves, the backup of a directory returns,
    whatever the engine does, and invokes the engine exactly when the
    directory exists. *)
Lemma backupDataDir_returns agentDef agentConfig opts passphrase config dataDir r :
  getAgent agents (ac_id agentConfig) = Some agentDef ->
  category_resolves (only opts) agentDef ->
  outcome_of (backupDataDir h agents agentDef agentConfig opts passphrase
                            config dataDir r) = Ret tt /\
  engine_calls (trace_of (backupDataDir h agents agentDef agentConfig opts passphrase
                                        config dataDir r)) =
  if pathExists h (expandHome h (path dataDir))
  then [due_call agentDef agentConfig opts passphrase config
                 (expandHome h (path dataDir))]
  else [].
Proof.
  intros Hg Hc. unfold category_resolves in Hc.
  unfold_dir. unfold due_call, backup_includes. rewrite Hg.
  destruct (pathExists h (expandHome h (path dataDir))); simpl; [|auto].
  destruct (opt_dryRun opts) as [[|]|];
    (destruct (truthy (only opts)); simpl;
     [destruct (get_property (categories agentDef) (the (only opts))); simpl;
      try (exfalso; apply Hc; reflexivity)|]);
    split_engine r; auto.
Qed.

(** A failure of the engine is caught and reported. *)
Lemma backupDataDir_failure agentDef agentConfig opts passphrase config dataDir r err :
  getAgent agents (ac_id agentConfig) = Some agentDef ->
  category_resolves (only opts) agentDef ->
  pathExists h (expandHome h (path dataDir)) = true ->
  (let '(d, ro, bo) := due_call agentDef agentConfig opts passphrase config
                                (expandHome h (path dataDir)) in
   fst (backup h d ro bo r)) = Err err ->
  let t := trace_of (backupDataDir h agents agentDef agentConfig opts passphrase
                                   config dataDir r) in
  In (Log SpinFail [Str "Backup failed for "; Str (expandHome h (path dataDir))]) t /\
  In (Log Error [Str err]) t.
Proof.
  intros Hg Hc He. unfold category_resolves in Hc.
  unfold_dir. unfold due_call, backup_includes. rewrite Hg, He. simpl.
  destruct (opt_dryRun opts) as [[|]|];
    (destruct (truthy (only opts)); simpl;
     [destruct (get_property (categories agentDef) (the (only opts))); simpl;
      try (exfalso; apply Hc; reflexivity)|]);
    split_engine r; intros Hf; inversion Hf; subst; simpl; auto 10.
Qed.

(** An engine invocation made for a configured agent is one of those due
    for it. *)
Lemma backupAgent_call_inv agentConfig opts passphrase config r c :
  In c (engine_calls (trace_of (backupAgent h agents agentConfig opts passphrase config r))) ->
  In c (due_calls h agents agentConfig opts passphrase config).
Proof.
  destruct c as [[d ro] bo]. rewrite In_engine_calls.
  unfold backupAgent, due_calls, due_dirs, log.
  destruct (getAgent agents (ac_id agentConfig)) as [agentDef|] eqn:Hg.
  - intros Hin.
    assert (Hloop : exists r',
      In (EngineBackup d ro bo)
         (trace_of (for_of (effective_dirs agentDef agentConfig)
                      (backupDataDir h agents agentDef agentConfig opts passphrase config)
                      r'))).
    { do 2 (rewrite bind_emit in Hin; unfold trace_of at 1 in Hin;
            cbn [snd] in Hin; destruct Hin as [Hin | Hin]; [discriminate|]).
      apply bind_trace_inv in Hin. destruct Hin as [Hin | (a & _ & Hin)].
      - exfalso. destruct (isRunning agentDef) as [[[|]|e|c]|];
          cbn in Hin; intuition discriminate.
      - eauto. }
    destruct Hloop as (r' & Hloop).
    apply for_of_trace_inv in Hloop. destruct Hloop as (dd & r2 & Hdd & He).
    apply In_engine_calls, (backupDataDir_call_inv _ _ _ _ _ _ _ Hg) in He.
    destruct He as [Hex ->].
    apply (in_map (due_call agentDef agentConfig opts passphrase config)).
    apply filter_In. split; [|exact Hex].
    apply (in_map (fun x => expandHome h (path x))). exact Hdd.
  - cbn. intuition discriminate.
Qed.

(** When the category filter resolves and the liveness probe returns, the
    backup of an agent returns, whatever the engine does and whichever
    directories are missing, and the engine is invoked for exactly the
    directories that are due, in order. *)
Lemma backupAgent_returns agentConfig opts passphrase config r :
  (forall agentDef, getAgent agents (ac_id agentConfig) = Some agentDef ->
     category_resolves (only opts) agentDef /\ probe_returns agentDef) ->
  outcome_of (backupAgent h agents agentConfig opts passphrase config r) = Ret tt /\
  engine_calls (trace_of (backupAgent h agents agentConfig opts passphrase config r)) =
  due_calls h agents agentConfig opts passphrase config.
Proof.
  intros Hok. unfold backupAgent, due_calls, due_dirs, log.
  destruct (getAgent agents (ac_id agentConfig)) as [agentDef|] eqn:Hg;
    [|split; reflexivity].
  destruct (Hok _ eq_refl) as [Hc Hp].
  assert (Hbody : forall x, In x (effective_dirs agentDef agentConfig) -> forall r0,
    outcome_of (backupDataDir h agents agentDef agentConfig opts passphrase config x r0)
      = Ret tt /\
    engine_calls (trace_of (backupDataDir h agents agentDef agentConfig opts passphrase
                                          config x r0)) =
    (fun dd => if pathExists h (expandHome h (path dd))
               then [due_call agentDef agentConfig opts passphrase config
                              (expandHome h (path dd))]
               else []) x).
  { intros x _ r0. apply backupDataDir_returns; assumption. }
  assert (Hloop : forall r0,
    outcome_of (for_of (effective_dirs agentDef agentConfig)
      (backupDataDir h agents agentDef agentConfig opts passphrase config) r0) = Ret tt /\
    engine_calls (trace_of (for_of (effective_dirs agentDef agentConfig)
      (backupDataDir h agents agentDef agentConfig opts passphrase config) r0)) =
    map (due_call agentDef agentConfig opts passphrase config)
      (filter (pathExists h)
         (map (fun d => expandHome h (path d)) (effective_dirs agentDef agentConfig)))).
  { intros r0. split.
    - apply for_of_returns. intros x Hx r1. apply Hbody, Hx.
    - rewrite (for_of_calls _ _ _ Hbody).
      clear. induction (effective_dirs agentDef agentConfig) as [|dd l IH];
        simpl; [reflexivity|].
      destruct (pathExists h (expandHome h (path dd))); simpl; rewrite IH; reflexivity. }
  unfold probe_returns in Hp.
  destruct (isRunning agentDef) as [p|].
  - destruct (Hp p eq_refl) as [[|] ->]; run; apply Hloop.
  - run. apply Hloop.
Qed.

(** An engine invocation of the loop over the selected agents is due for
    one of them. *)
Lemma backupAgents_call_inv selected opts passphrase config r c :
  In c (engine_calls (trace_of (backupAgents h agents selected opts passphrase config r))) ->
  exists agentConfig,
    In agentConfig selected /\
    In c (due_calls h agents agentConfig opts passphrase config).
Proof.
  destruct c as [[d ro] bo]. rewrite In_engine_calls. unfold backupAgents.
  intros Hin. apply for_of_trace_inv in Hin.
  destruct Hin as (ac & r' & Hac & He).
  exists ac. split; [exact Hac|].
  apply In_engine_calls in He. apply backupAgent_call_inv in He. exact He.
Qed.

(** The agents selected for a run are configured agents. *)
Lemma agentsToBackup_incl opts config (r : Repo) selected :
  outcome_of (agentsToBackup opts config r) = Ret selected ->
  incl selected (cfg_agents config).
Proof.
  unfold agentsToBackup, log.
  destruct (truthy (agent opts)).
  - destruct (find _ (cfg_agents config)) as [ac|] eqn:Hf.
    + rewrite bind_ret_l. cbn. intros Heq. inversion Heq; subst.
      intros x [<- | []]. apply find_some in Hf. apply Hf.
    + cbn. discriminate.
  - rewrite bind_ret_l.
    destruct (filter ac_enabled (cfg_agents config)) as [|a l] eqn:Hf.
    + cbn. discriminate.
    + cbn. intros Heq. inversion Heq; subst.
      intros x Hx. rewrite <- Hf in Hx. apply filter_In in Hx. apply Hx.
Qed.

(** Every engine invocation of a whole [backupCommand] is due for one of
    the configured agents. *)
Lemma backupCommand_call_inv opts r c :
  In c (engine_calls (trace_of (backupCommand h agents opts r))) ->
  exists config passphrase agentConfig,
    loadConfig h = Some config /\
    In agentConfig (cfg_agents config) /\
    In c (due_calls h agents agentConfig opts passphrase config).
Proof.
  destruct c as [[d ro] bo]. rewrite In_engine_calls.
  unfold backupCommand, requireConfig.
  destruct (loadConfig h) as [config|]; [|cbn; tauto].
  rewrite bind_ret_l. intros Hin.
  apply bind_trace_inv in Hin. destruct Hin as [Hin | (passphrase & _ & Hin)].
  { exfalso. revert Hin. unfold resolvePassphrase, log.
    destruct (truthy (passphrase opts)); [cbn; tauto|].
    destruct (truthy (envPassphrase h)); [cbn; tauto|].
    destruct (truthy (getKeychainPassphrase h)); cbn; intuition discriminate. }
  rewrite bind_emit in Hin. unfold trace_of at 1 in Hin. cbn [snd] in Hin.
  destruct Hin as [Hin | Hin]; [discriminate|].
  apply bind_trace_inv in Hin. destruct Hin as [Hin | (v & _ & Hin)].
  { exfalso. revert Hin. unfold await.
    destruct (ensureRestic h (cfg_resticVersion config)); cbn; tauto. }
  apply bind_trace_inv in Hin. destruct Hin as [Hin | (selected & Hsel & Hin)].
  { exfalso. revert Hin. unfold agentsToBackup, log.
    destruct (truthy (agent opts)).
    - destruct (find _ (cfg_agents config)); [rewrite bind_ret_l|];
        cbn; intuition discriminate.
    - rewrite bind_ret_l. destruct (filter ac_enabled (cfg_agents config));
        cbn; intuition discriminate. }
  apply bind_trace_inv in Hin. destruct Hin as [Hin | (u & _ & Hin)].
  - apply In_engine_calls, backupAgents_call_inv in Hin.
    destruct Hin as (ac & Hac & Hc).
    exists config, passphrase, ac. split; [reflexivity|]. split; [|exact Hc].
    apply (agentsToBackup_incl _ _ _ Hsel). exact Hac.
  - exfalso. revert Hin.
    destruct (negb _ && negb _); [|cbn; tauto].
    unfold log. rewrite bind_emit. unfold trace_of at 1. cbn [snd].
    intros [Hin | Hin]; [discriminate|].
    apply try_catch_trace_inv in Hin. destruct Hin as [Hin | (err & _ & Hin)].
    + revert Hin. rewrite bind_emit. unfold trace_of at 1. cbn [snd].
      intros [Hin | Hin]; [discriminate|].
      apply bind_trace_inv in Hin. destruct Hin as [Hin | (x & _ & Hin)].
      * revert Hin. unfold engine. destruct (forget h _ _ _ _) as [[?|?] ?]; cbn; tauto.
      * cbn in Hin. intuition discriminate.
    + cbn in Hin. intuition discriminate.
Qed.

(** An event that every run of the directory loop of an agent produces is
    produced by the backup of that agent. *)
Lemma backupAgent_event agentConfig agentDef opts passphrase config e :
  getAgent agents (ac_id agentConfig) = Some agentDef ->
  probe_returns agentDef ->
  (forall r, In e (trace_of
     (for_of (effective_dirs agentDef agentConfig)
        (backupDataDir h agents agentDef agentConfig opts passphrase config) r))) ->
  forall r, In e (trace_of (backupAgent h agents agentConfig opts passphrase config r)).
Proof.
  intros Hg Hp He r. unfold backupAgent, log. rewrite Hg.
  unfold probe_returns in Hp.
  destruct (isRunning agentDef) as [p|].
  - destruct (Hp p eq_refl) as [[|] ->]; run; repeat right; apply He.
  - run. repeat right. apply He.
Qed.

(** The same, one level down: an event that every backup of one of the
    effective directories produces. *)
Lemma backupAgent_dir_event agentConfig agentDef opts passphrase config dataDir e :
  getAgent agents (ac_id agentConfig) = Some agentDef ->
  category_resolves (only opts) agentDef ->
  probe_returns agentDef ->
  In dataDir (effective_dirs agentDef agentConfig) ->
  (forall r, In e (trace_of
     (backupDataDir h agents agentDef agentConfig opts passphrase config dataDir r))) ->
  forall r, In e (trace_of (backupAgent h agents agentConfig opts passphrase config r)).
Proof.
  intros Hg Hc Hp Hdd He. apply backupAgent_event with (agentDef := agentDef); auto.
  intros r. apply for_of_event with (x := dataDir); auto.
  intros y _ r0. apply backupDataDir_returns; assumption.
Qed.

(** C6.  Failure isolation of the loop over the selected agents.  Provided
    the category filter (if any) resolves for the registered agents and
    their liveness probes return, then for every agent list, every state of
    the file system and every behaviour of the engine: the loop returns
    (it neither throws nor exits); the engine is invoked for exactly the
    directories that are due (those that exist, of the agents that are
    registered), in order, whatever those invocations answer; an agent
    missing from the registry yields a warning; a missing directory yields
    a warning; and a directory for which the engine fails yields a
    failure report. *)
Theorem backup_failure_isolation selected opts passphrase config r :
  (forall agentConfig agentDef,
     In agentConfig selected ->
     getAgent agents (ac_id agentConfig) = Some agentDef ->
     category_resolves (only opts) agentDef /\ probe_returns agentDef) ->
  let run := backupAgents h agents selected opts passphrase config r in
  outcome_of run = Ret tt /\
  engine_calls (trace_of run) =
    flat_map (fun agentConfig => due_calls h agents agentConfig opts passphrase config)
             selected /\
  (forall agentConfig,
     In agentConfig selected ->
     getAgent agents (ac_id agentConfig) = None ->
     In (Log Warn [Str "Agent "; Str dq; Str (ac_id agentConfig); Str dq;
                   Str " not found in registry, skipping"]) (trace_of run)) /\
  (forall agentConfig agentDef dataDir,
     In agentConfig selected ->
     getAgent agents (ac_id agentConfig) = Some agentDef ->
     In dataDir (effective_dirs agentDef agentConfig) ->
     pathExists h (expandHome h (path dataDir)) = false ->
     In (Log Warn [Str "Data directory not found: ";
                   Str (expandHome h (path dataDir)); Str " (";
                   Str (dd_description dataDir); Str ")"]) (trace_of run)) /\
  (forall agentConfig agentDef dataDir err,
     In agentConfig selected ->
     getAgent agents (ac_id agentConfig) = Some agentDef ->
     In dataDir (effective_dirs agentDef agentConfig) ->
     pathExists h (expandHome h (path dataDir)) = true ->
     (forall r', let '(d, ro, bo) :=
                   due_call agentDef agentConfig opts passphrase config
                            (expandHome h (path dataDir)) in
                 fst (backup h d ro bo r') = Err err) ->
     In (Log SpinFail [Str "Backup failed for "; Str (expandHome h (path dataDir))])
        (trace_of run) /\
     In (Log Error [Str err]) (trace_of run)).
Proof.
  intros Hok. cbv zeta. unfold backupAgents.
  assert (Hbody : forall x, In x selected -> forall r0,
    outcome_of (backupAgent h agents x opts passphrase config r0) = Ret tt /\
    engine_calls (trace_of (backupAgent h agents x opts passphrase config r0)) =
    due_calls h agents x opts passphrase config).
  { intros x Hx r0. apply backupAgent_returns. intros def Hdef. eauto. }
  assert (Hret : forall y, In y selected -> forall r0,
    outcome_of (backupAgent h agents y opts passphrase config r0) = Ret tt).
  { intros y Hy r0. apply Hbody, Hy. }
  split; [|split; [|split; [|split]]].
  - apply for_of_returns, Hret.
  - apply for_of_calls, Hbody.
  - intros ac Hac Hnone. apply for_of_event with (x := ac); auto.
    intros r0. unfold backupAgent, log. rewrite Hnone. cbn. auto.
  - intros ac def dd Hac Hdef Hdd Hmiss.
    destruct (Hok _ _ Hac Hdef) as [Hc Hp].
    apply for_of_event with (x := ac); auto.
    apply backupAgent_dir_event with (agentDef := def) (dataDir := dd); auto.
    intros r0. rewrite backupDataDir_missing by exact Hmiss. cbn. auto.
  - intros ac def dd err Hac Hdef Hdd Hex Hfail.
    destruct (Hok _ _ Hac Hdef) as [Hc Hp].
    split; (apply for_of_event with (x := ac); auto;
            apply backupAgent_dir_event with (agentDef := def) (dataDir := dd); auto;
            intros r0;
            apply (@backupDataDir_failure def ac opts passphrase config dd r0 err
                     Hdef Hc Hex (Hfail r0))).
Qed.

End Backup.

(** ** Retention *)

Section Retention.
Variable Repo : Type.
Variable h : Host Repo.

Lemma resolvePassphrase_forget_run (flag : option string) (r : Repo) :
  repo_of (resolvePassphrase_forget h flag r) = r /\
  engine_events (trace_of (resolvePassphrase_forget h flag r)) = [].
Proof.
  unfold resolvePassphrase_forget, log.
  destruct (truthy flag); [split; reflexivity|].
  destruct (truthy (envPassphrase h)); [split; reflexivity|].
  destruct (truthy (getKeychainPassphrase h)); run; split; reflexivity.
Qed.

(** The retention run proper, from a repository state [r]. *)
Lemma applyRetention_run (opts : ForgetOptions) (config : AgentstashConfig)
    (passphrase : string) (before after : list ResticSnapshot) (r r1 r2 r3 : Repo) :
  let ro := {| ro_storage := cfg_storage config; ro_passphrase := passphrase |} in
  let tags := if truthy (f_agent opts) then Some [the (f_agent opts)] else None in
  let removed := Z.of_nat (length before) - Z.of_nat (length after) in
  listSnapshots h ro tags r = (Ok before, r1) ->
  forget h ro (cfg_retention config) tags r1 = (Ok tt, r2) ->
  listSnapshots h ro tags r2 = (Ok after, r3) ->
  applyRetention h opts config passphrase r =
  (Ret tt, r3,
   [ EngineListSnapshots ro tags;
     Log SpinStart
       (if truthy (f_agent opts)
        then [Str "Applying retention policy for "; Str dq; Str (the (f_agent opts));
              Str dq; Str " and pruning..."]
        else [Str "Applying retention policy and pruning..."]);
     EngineForget ro (cfg_retention config) tags;
     Log SpinStop [];
     EngineListSnapshots ro tags;
     Log Blank [];
     Log Header (if truthy (f_agent opts)
                 then [Str "Retention applied ("; Str (the (f_agent opts)); Str ")"]
                 else [Str "Retention applied"]);
     Kv "Before" [Num (Z.of_nat (length before)); Str " snapshots"] None;
     Kv "After" [Num (Z.of_nat (length after)); Str " snapshots"] None;
     Kv "Removed" [Num removed; Str " snapshots"]
        (if 0 <? removed then Some "ok" else None) ]).
Proof.
  cbv zeta. intros Hl1 Hf Hl2.
  unfold applyRetention, bind, try_catch, emit, engine, log, log_kv.
  rewrite Hl1. cbn. rewrite Hf. cbn. rewrite Hl2. cbn. reflexivity.
Qed.

(** C8.  When the configuration is present, a passphrase resolves and the
    engine answers, [forgetCommand] lists the snapshots under the tag
    filter, has the engine prune with the retention counts of the
    configuration under the same filter, lists again, and reports the two
    counts and their difference; it returns, and these three are its only
    engine operations. *)
Theorem forgetCommand_reports (opts : ForgetOptions) (config : AgentstashConfig)
    (passphrase path : string)
    (before after : list ResticSnapshot) (r r1 r2 r3 : Repo) :
  let ro := {| ro_storage := cfg_storage config; ro_passphrase := passphrase |} in
  let tags := if truthy (f_agent opts) then Some [the (f_agent opts)] else None in
  let removed := Z.of_nat (length before) - Z.of_nat (length after) in
  loadConfig h = Some config ->
  outcome_of (resolvePassphrase_forget h (f_passphrase opts) r) = Ret passphrase ->
  ensureRestic h (cfg_resticVersion config) = Ok path ->
  listSnapshots h ro tags r = (Ok before, r1) ->
  forget h ro (cfg_retention config) tags r1 = (Ok tt, r2) ->
  listSnapshots h ro tags r2 = (Ok after, r3) ->
  let run := forgetCommand h opts r in
  outcome_of run = Ret tt /\
  repo_of run = r3 /\
  engine_events (trace_of run) =
    [ EngineListSnapshots ro tags;
      EngineForget ro (cfg_retention config) tags;
      EngineListSnapshots ro tags ] /\
  exists earlier,
    trace_of run =
    earlier ++
    [ Kv "Before" [Num (Z.of_nat (length before)); Str " snapshots"] None;
      Kv "After" [Num (Z.of_nat (length after)); Str " snapshots"] None;
      Kv "Removed" [Num removed; Str " snapshots"]
         (if 0 <? removed then Some "ok" else None) ].
Proof.
  cbv zeta. intros Hcfg Hpass Hens Hl1 Hf Hl2.
  destruct (resolvePassphrase_forget_run (f_passphrase opts) r) as [Hrepo Hev].
  unfold forgetCommand, requireConfig. rewrite Hcfg, bind_ret_l.
  rewrite (bind_outcome_ret _ _ _ Hpass), (bind_repo_ret _ _ _ Hpass),
          (bind_trace_ret _ _ _ Hpass), Hrepo.
  rewrite bind_emit, Hens. unfold await. rewrite bind_ret_l.
  rewrite (applyRetention_run opts config passphrase r Hl1 Hf Hl2).
  cbn [outcome_of repo_of trace_of fst snd].
  split; [reflexivity|]. split; [reflexivity|]. split.
  - unfold engine_events in *. rewrite filter_app, Hev. reflexivity.
  - eexists (_ ++ [_; _; _; _; _; _; _; _]). rewrite <- app_assoc. reflexivity.
Qed.

End Retention.

(** ** Snapshot selection *)

Section Selection_of_snapshots.
Variable Repo : Type.
Variable h : Host Repo.
Variable t : Z.

Lemma js_lt_distance snap bestDiff :
  js_lt (abs_diff (of_date (dateParse h (time snap))) (Fin t)) bestDiff = true ->
  exists d, distance h t snap = Some d /\
            abs_diff (of_date (dateParse h (time snap))) (Fin t) = Fin d /\
            (bestDiff = Infinity \/ exists b, bestDiff = Fin b /\ d < b).
Proof.
  unfold distance, abs_diff.
  destruct (dateParse h (time snap)) as [x|]; simpl; [|discriminate].
  destruct (to_double (x - t)) as [d| | |]; simpl;
    try (destruct bestDiff; discriminate).
  intros Hlt. exists (Z.abs d). split; [reflexivity|]. split; [reflexivity|].
  destruct bestDiff as [b| | |]; try discriminate; [right|left; reflexivity].
  exists b. split; [reflexivity|]. apply Z.ltb_lt. exact Hlt.
Qed.

Lemma js_lt_distance_false snap b :
  js_lt (abs_diff (of_date (dateParse h (time snap))) (Fin t)) (Fin b) = false ->
  forall d, distance h t snap = Some d -> b <= d.
Proof.
  unfold distance, abs_diff.
  destruct (dateParse h (time snap)) as [x|]; simpl; [|discriminate].
  destruct (to_double (x - t)) as [d0| | |]; simpl; try discriminate.
  intros Hlt d Hd. inversion Hd; subst. apply Z.ltb_ge. exact Hlt.
Qed.

Lemma js_lt_distance_none snap :
  js_lt (abs_diff (of_date (dateParse h (time snap))) (Fin t)) Infinity = false ->
  distance h t snap = None.
Proof.
  unfold distance, abs_diff.
  destruct (dateParse h (time snap)) as [x|]; simpl; [|reflexivity].
  destruct (to_double (x - t)) as [d| | |]; simpl; try reflexivity; discriminate.
Qed.

Lemma closest_from_some snapshots :
  forall best b,
  exists res,
    closest h (Fin t) snapshots (Some best) (Fin b) = Some res /\
    ((res = best /\
      forall s' d', In s' snapshots -> distance h t s' = Some d' -> b <= d') \/
     (exists d, d < b /\ first_nearest h t snapshots res /\
                distance h t res = Some d)).
Proof.
  induction snapshots as [|snap rest IH]; intros best b; simpl.
  - exists best. split; [reflexivity|]. left. split; [reflexivity|]. intros ? ? [].
  - destruct (js_lt _ (Fin b)) eqn:Hlt.
    + destruct (js_lt_distance _ _ Hlt) as (d & Hd & -> & Hb).
      destruct Hb as [Hb | (b' & Hb & Hdb)]; [discriminate|].
      inversion Hb; subst b'.
      destruct (IH snap d) as (res & Hres & Hcase). exists res.
      split; [exact Hres|]. right.
      destruct Hcase as [[-> Hall] | (d2 & Hd2 & Hfn & Hdist)].
      * exists d. split; [exact Hdb|]. split; [|exact Hd].
        exists [], rest, d. repeat split; auto. intros ? ? [].
      * exists d2. split; [lia|]. split; [|exact Hdist].
        destruct Hfn as (earlier & later & d3 & Heq & Hd3 & Hearly & Hlate).
        rewrite Hdist in Hd3. inversion Hd3; subst d3.
        exists (snap :: earlier), later, d2. rewrite Heq.
        repeat split; auto.
        intros s' d' [<- | Hin] Hs'; [|eauto].
        rewrite Hd in Hs'. inversion Hs'; subst. exact Hd2.
    + destruct (IH best b) as (res & Hres & Hcase). exists res.
      split; [exact Hres|].
      destruct Hcase as [[-> Hall] | (d2 & Hd2 & Hfn & Hdist)].
      * left. split; [reflexivity|]. intros s' d' [<- | Hin] Hs'; [|eauto].
        apply (@js_lt_distance_false snap b Hlt d' Hs').
      * right. exists d2. split; [exact Hd2|]. split; [|exact Hdist].
        destruct Hfn as (earlier & later & d3 & Heq & Hd3 & Hearly & Hlate).
        rewrite Hdist in Hd3. inversion Hd3; subst d3.
        exists (snap :: earlier), later, d2. rewrite Heq.
        repeat split; auto.
        intros s' d' [<- | Hin] Hs'; [|eauto].
        pose proof (@js_lt_distance_false snap b Hlt d' Hs'). lia.
Qed.

(** The whole loop: no result exactly when no snapshot has a valid time
    stamp, else the first nearest snapshot. *)
Lemma closest_first_nearest snapshots :
  match closest h (Fin t) snapshots None Infinity with
  | None => forall s', In s' snapshots -> distance h t s' = None
  | Some res => first_nearest h t snapshots res
  end.
Proof.
  induction snapshots as [|snap rest IH]; simpl.
  - intros ? [].
  - destruct (js_lt _ Infinity) eqn:Hlt.
    + destruct (js_lt_distance _ _ Hlt) as (d & Hd & -> & _).
      destruct (closest_from_some rest snap d) as (res & -> & Hcase).
      destruct Hcase as [[-> Hall] | (d2 & Hd2 & Hfn & Hdist)].
      * exists [], rest, d. repeat split; auto. intros ? ? [].
      * destruct Hfn as (earlier & later & d3 & Heq & Hd3 & Hearly & Hlate).
        rewrite Hdist in Hd3. inversion Hd3; subst d3.
        exists (snap :: earlier), later, d2. rewrite Heq.
        repeat split; auto.
        intros s' d' [<- | Hin] Hs'; [|eauto].
        rewrite Hd in Hs'. inversion Hs'; subst. exact Hd2.
    + pose proof (js_lt_distance_none _ Hlt) as Hnone.
      destruct (closest h (Fin t) rest None Infinity) as [res|].
      * destruct IH as (earlier & later & d & Heq & Hd & Hearly & Hlate).
        exists (snap :: earlier), later, d. rewrite Heq.
        repeat split; auto.
        intros s' d' [<- | Hin] Hs'; [|eauto].
        rewrite Hnone in Hs'. discriminate.
      * intros s' [<- | Hin]; auto.
Qed.

End Selection_of_snapshots.

(** ** The relative-time pattern *)

Section Matcher.

Lemma space_not_digit (c : ascii) : is_space c = true -> is_digit c = false.
Proof.
  destruct c as [[] [] [] [] [] [] [] []]; vm_compute; intros H;
    first [reflexivity | discriminate H].
Qed.

Lemma letter_not_space (c : ascii) : is_letter c = true -> is_space c = false.
Proof.
  destruct c as [[] [] [] [] [] [] [] []]; vm_compute; intros H;
    first [reflexivity | discriminate H].
Qed.

Lemma is_letter_canon (c p : ascii) :
  canonicalize c = canonicalize p -> is_letter c = is_letter p.
Proof. unfold is_letter. intros ->. reflexivity. Qed.

Lemma starts_seq {A B} (m : matcher A) (f : A -> matcher B) s a rest y :
  starts (m s) (a, rest) -> starts (f a rest) y -> starts (m_seq m f s) y.
Proof.
  intros [tl Hm] [tl' Hf]. unfold m_seq. rewrite Hm. simpl. rewrite Hf.
  eexists. reflexivity.
Qed.

Lemma starts_alt_l {A} (m1 m2 : matcher A) s y :
  starts (m1 s) y -> starts (m_alt m1 m2 s) y.
Proof. intros [tl H]. unfold m_alt. rewrite H. eexists. reflexivity. Qed.

Lemma starts_alt_r {A} (m1 m2 : matcher A) s y :
  m1 s = [] -> starts (m2 s) y -> starts (m_alt m1 m2 s) y.
Proof. intros H1 [tl H]. unfold m_alt. rewrite H1, H. eexists. reflexivity. Qed.

Lemma starts_opt_some {A} (m : matcher A) s a rest :
  starts (m s) (a, rest) -> starts (m_opt m s) (Some a, rest).
Proof. intros [tl H]. unfold m_opt. rewrite H. eexists. reflexivity. Qed.

Lemma starts_opt_none {A} (m : matcher A) s :
  m s = [] -> starts (m_opt m s) (None, s).
Proof. intros H. unfold m_opt. rewrite H. eexists. reflexivity. Qed.

(** Greedy repetition takes the whole run first. *)
Lemma m_star_greedy cls ds rest :
  forallb cls ds = true -> head_outside cls rest ->
  starts (m_star cls (ds ++ rest)) (ds, rest).
Proof.
  intros Hds Hrest. induction ds as [|d ds IH]; simpl in *.
  - destruct rest as [|c rest]; simpl in *.
    + eexists. reflexivity.
    + rewrite Hrest. eexists. reflexivity.
  - apply andb_prop in Hds. destruct Hds as [Hd Hds]. rewrite Hd.
    destruct (IH Hds) as [tl ->]. simpl. eexists. reflexivity.
Qed.

Lemma m_plus_greedy cls ds rest :
  run_of cls ds -> head_outside cls rest ->
  starts (m_plus cls (ds ++ rest)) (ds, rest).
Proof.
  intros [Hne Hds] Hrest. destruct ds as [|d ds]; [congruence|].
  simpl in *. apply andb_prop in Hds. destruct Hds as [Hd Hds]. rewrite Hd.
  destruct (m_star_greedy cls ds rest Hds Hrest) as [tl ->]. simpl.
  eexists. reflexivity.
Qed.

(** A literal word matches in one way at most: when it is a prefix of the
    input, letter case apart. *)
Lemma m_word_spec pat : forall s,
  m_word pat s =
  if ci_prefix pat s
  then [(firstn (length pat) s, skipn (length pat) s)]
  else [].
Proof.
  induction pat as [|p pat IH]; intros s; simpl; [reflexivity|].
  destruct s as [|c s]; [reflexivity|].
  destruct (Ascii.eqb (canonicalize c) (canonicalize p)); simpl; [|reflexivity].
  rewrite IH. destruct (ci_prefix pat s); reflexivity.
Qed.

Lemma ci_prefix_canon pat : forall s,
  ci_prefix pat s = ci_prefix (map canonicalize pat) (map canonicalize s).
Proof.
  assert (Hidem : forall c, canonicalize (canonicalize c) = canonicalize c).
  { intros c. destruct c as [[] [] [] [] [] [] [] []]; vm_compute; reflexivity. }
  induction pat as [|p pat IH]; intros s; simpl; [reflexivity|].
  destruct s as [|c s]; simpl; [reflexivity|].
  rewrite !Hidem, IH. reflexivity.
Qed.

Lemma ci_prefix_same pat : forall w rest,
  map canonicalize w = map canonicalize pat ->
  ci_prefix pat (w ++ rest) = true /\ length w = length pat.
Proof.
  induction pat as [|p pat IH]; intros w rest Heq; destruct w as [|c w];
    simpl in *; try discriminate; [split; reflexivity|].
  injection Heq as Hc Hw. rewrite Hc, Ascii.eqb_refl. simpl.
  destruct (IH w rest Hw) as [-> ->]. split; reflexivity.
Qed.

Lemma m_word_same name w rest :
  same_ci w name -> word name (w ++ rest) = [(w, rest)].
Proof.
  unfold same_ci, word. intros Heq. rewrite m_word_spec.
  destruct (ci_prefix_same _ _ rest Heq) as [-> <-].
  rewrite firstn_app, Nat.sub_diag, firstn_all, skipn_app, Nat.sub_diag, skipn_all.
  simpl. rewrite app_nil_r. reflexivity.
Qed.

(** A word does not match where the input spells another word that
    differs from it before either ends. *)
Lemma m_word_other name other w rest :
  same_ci w name ->
  (forall tail, ci_prefix (map canonicalize (list_ascii_of_string other))
                          (map canonicalize (list_ascii_of_string name) ++ tail)
                = false) ->
  word other (w ++ rest) = [].
Proof.
  unfold same_ci, word. intros Heq Hdiff.
  rewrite m_word_spec, ci_prefix_canon, map_app, Heq, Hdiff. reflexivity.
Qed.

(** A word does not match at white space. *)
Lemma m_word_at_space name p c rest :
  list_ascii_of_string name = p :: nil ->
  is_letter p = true -> is_space c = true ->
  word name (c :: rest) = [].
Proof.
  unfold word. intros -> Hp Hc. simpl.
  destruct (Ascii.eqb (canonicalize c) (canonicalize p)) eqn:E; [|reflexivity].
  apply Ascii.eqb_eq in E. rewrite <- (is_letter_canon _ _ E) in Hp.
  rewrite (letter_not_space _ Hp) in Hc. discriminate.
Qed.

Lemma head_outside_space_digit ws rest :
  run_of is_space ws -> head_outside is_digit (ws ++ rest).
Proof.
  intros [Hne Hall]. destruct ws as [|c ws]; [congruence|].
  simpl in *. apply andb_prop in Hall. apply space_not_digit, Hall.
Qed.

Lemma head_outside_word_space name p tl w rest :
  list_ascii_of_string name = p :: tl -> is_letter p = true ->
  same_ci w name -> head_outside is_space (w ++ rest).
Proof.
  unfold same_ci. intros -> Hp Heq. destruct w as [|c w]; [discriminate|].
  simpl in *. injection Heq as Hc _.
  apply letter_not_space. rewrite (is_letter_canon _ _ Hc). exact Hp.
Qed.

(** Completeness: an expression of the grammar is matched, and the groups
    are its digits and its unit word. *)
Lemma relative_pattern_complete digits ws1 w pl ws2 a u :
  run_of is_digit digits ->
  run_of is_space ws1 ->
  same_ci w (unit_name u) ->
  (pl = [] \/ same_ci pl "s") ->
  run_of is_space ws2 ->
  same_ci a "ago" ->
  starts (relative_pattern (digits ++ ws1 ++ w ++ pl ++ ws2 ++ a)) ((digits, w), []).
Proof.
  intros Hd Hs1 Hw Hpl Hs2 Ha. unfold relative_pattern.
  apply starts_seq with (a := digits) (rest := ws1 ++ w ++ pl ++ ws2 ++ a).
  { apply m_plus_greedy; [exact Hd|]. apply head_outside_space_digit, Hs1. }
  apply starts_seq with (a := ws1) (rest := w ++ pl ++ ws2 ++ a).
  { apply m_plus_greedy; [exact Hs1|].
    destruct u; eapply head_outside_word_space; try exact Hw; reflexivity. }
  apply starts_seq with (a := w) (rest := pl ++ ws2 ++ a).
  { destruct u; simpl in Hw;
      repeat first
        [ apply starts_alt_l; rewrite (@m_word_same _ _ _ Hw); eexists; reflexivity
        | rewrite (@m_word_same _ _ _ Hw); eexists; reflexivity
        | apply starts_alt_r;
          [ apply (@m_word_other _ _ _ _ Hw); intros tail; reflexivity | ] ]. }
  apply starts_seq with (a := match pl with [] => None | _ => Some pl end)
                        (rest := ws2 ++ a).
  { destruct Hpl as [-> | Hpl].
    - simpl. apply starts_opt_none.
      destruct Hs2 as [Hne Hall]. destruct ws2 as [|c ws2]; [congruence|].
      simpl in Hall. apply andb_prop in Hall.
      apply m_word_at_space with (p := "s"%char); [reflexivity | reflexivity | apply Hall].
    - assert (Hne : pl <> []) by (intros ->; discriminate Hpl).
      destruct pl as [|c pl]; [congruence|].
      apply starts_opt_some. rewrite (@m_word_same _ _ _ Hpl). eexists. reflexivity. }
  apply starts_seq with (a := ws2) (rest := a).
  { apply m_plus_greedy; [exact Hs2|].
    rewrite <- (app_nil_r a).
    eapply head_outside_word_space; try exact Ha; reflexivity. }
  apply starts_seq with (a := a) (rest := []).
  { rewrite <- (app_nil_r a) at 1. rewrite (@m_word_same _ _ _ Ha). eexists. reflexivity. }
  apply starts_seq with (a := tt) (rest := []).
  { eexists. reflexivity. }
  eexists. reflexivity.
Qed.

(** Inversion of the matchers: what a match says about the input. *)
Lemma in_m_seq {A B} (m : matcher A) (f : A -> matcher B) s y :
  In y (m_seq m f s) -> exists a rest, In (a, rest) (m s) /\ In y (f a rest).
Proof.
  unfold m_seq. rewrite in_flat_map. intros ([a rest] & Hin & Hy). eauto.
Qed.

Lemma in_m_star cls : forall s m rest,
  In (m, rest) (m_star cls s) -> s = m ++ rest /\ forallb cls m = true.
Proof.
  induction s as [|c s IH]; simpl; intros m rest.
  - intros [Heq | []]. inversion Heq; subst. split; reflexivity.
  - destruct (cls c) eqn:Hc.
    + rewrite in_app_iff, in_map_iff.
      intros [([m' r'] & Heq & Hin) | [Heq | []]].
      * inversion Heq; subst. destruct (IH _ _ Hin) as [-> Hall].
        split; [reflexivity|]. simpl. rewrite Hc, Hall. reflexivity.
      * inversion Heq; subst. split; reflexivity.
    + intros [Heq | []]. inversion Heq; subst. split; reflexivity.
Qed.

Lemma in_m_plus cls s m rest :
  In (m, rest) (m_plus cls s) -> s = m ++ rest /\ run_of cls m.
Proof.
  unfold m_plus, run_of. destruct s as [|c s]; [intros []|].
  destruct (cls c) eqn:Hc; [|intros []].
  rewrite in_map_iff. intros ([m' r'] & Heq & Hin). inversion Heq; subst.
  destruct (in_m_star _ _ _ _ Hin) as [-> Hall].
  split; [reflexivity|]. split; [discriminate|]. simpl. rewrite Hc, Hall. reflexivity.
Qed.

Lemma ci_prefix_true pat : forall s,
  ci_prefix pat s = true ->
  map canonicalize (firstn (length pat) s) = map canonicalize pat.
Proof.
  induction pat as [|p pat IH]; intros s; simpl; [reflexivity|].
  destruct s as [|c s]; [discriminate|]. intros H.
  apply andb_prop in H. destruct H as [Hc Hs]. apply Ascii.eqb_eq in Hc.
  simpl. rewrite Hc, (IH _ Hs). reflexivity.
Qed.

Lemma in_word name s w rest :
  In (w, rest) (word name s) -> s = w ++ rest /\ same_ci w name.
Proof.
  unfold word, same_ci. rewrite m_word_spec.
  destruct (ci_prefix _ s) eqn:Hp; [|intros []].
  intros [Heq | []]. inversion Heq; subst.
  split; [symmetry; apply firstn_skipn | apply ci_prefix_true, Hp].
Qed.

Lemma in_unit_word s w rest :
  In (w, rest)
     (m_alt (word "minute") (m_alt (word "hour") (m_alt (word "day")
        (m_alt (word "week") (word "month")))) s) ->
  s = w ++ rest /\ exists u, same_ci w (unit_name u).
Proof.
  unfold m_alt. rewrite !in_app_iff.
  intros [H | [H | [H | [H | H]]]]; apply in_word in H; destruct H as [-> H];
    (split; [reflexivity|]).
  - exists Minute. exact H.
  - exists Hour. exact H.
  - exists Day. exact H.
  - exists Week. exact H.
  - exists Month. exact H.
Qed.

(** Soundness: what the pattern matches is an expression of the grammar. *)
Lemma relative_pattern_sound s g1 g2 rest :
  In ((g1, g2), rest) (relative_pattern s) ->
  exists u ws1 pl ws2 a,
    s = g1 ++ ws1 ++ g2 ++ pl ++ ws2 ++ a /\
    run_of is_digit g1 /\ run_of is_space ws1 /\ same_ci g2 (unit_name u) /\
    (pl = [] \/ same_ci pl "s") /\ run_of is_space ws2 /\ same_ci a "ago".
Proof.
  unfold relative_pattern. intros H.
  apply in_m_seq in H. destruct H as (d & s1 & Hd & H).
  apply in_m_plus in Hd. destruct Hd as [-> Hd].
  apply in_m_seq in H. destruct H as (ws1 & s2 & Hs1 & H).
  apply in_m_plus in Hs1. destruct Hs1 as [-> Hs1].
  apply in_m_seq in H. destruct H as (w & s3 & Hw & H).
  apply in_unit_word in Hw. destruct Hw as [-> [u Hw]].
  apply in_m_seq in H. destruct H as (o & s4 & Ho & H).
  apply in_m_seq in H. destruct H as (ws2 & s5 & Hs2 & H).
  apply in_m_plus in Hs2. destruct Hs2 as [-> Hs2].
  apply in_m_seq in H. destruct H as (a & s6 & Ha & H).
  apply in_word in Ha. destruct Ha as [-> Ha].
  apply in_m_seq in H. destruct H as ([] & s7 & He & H).
  unfold m_end in He. destruct s6; [|destruct He].
  destruct H as [Heq | []]. inversion Heq; subst.
  unfold m_opt in Ho. rewrite in_app_iff, in_map_iff in Ho.
  destruct Ho as [([pl s4'] & Heq' & Hpl) | [Heq' | []]].
  - inversion Heq'; subst. apply in_word in Hpl. destruct Hpl as [-> Hpl].
    exists u, ws1, pl, ws2, a. rewrite app_nil_r. repeat split; auto; apply Hd || apply Hs1 || apply Hs2.
  - inversion Heq'; subst.
    exists u, ws1, [], ws2, a. rewrite app_nil_r. repeat split; auto; apply Hd || apply Hs1 || apply Hs2.
Qed.

Lemma lower_canon (c : ascii) : lower_char (canonicalize c) = lower_char c.
Proof. destruct c as [[] [] [] [] [] [] [] []]; vm_compute; reflexivity. Qed.

(** The unit word, lower-cased, is the unit name. *)
Lemma toLowerCase_unit (w : list ascii) (u : time_unit) :
  same_ci w (unit_name u) -> toLowerCase (string_of_list_ascii w) = unit_name u.
Proof.
  unfold same_ci, toLowerCase. intros Heq.
  rewrite list_ascii_of_string_of_list_ascii.
  assert (Hl : map lower_char w = map lower_char (map canonicalize w)).
  { rewrite map_map. apply map_ext. intros c. symmetry. apply lower_canon. }
  rewrite Hl, Heq. destruct u; reflexivity.
Qed.

Lemma multiplier_unit (u : time_unit) : multiplier (unit_name u) = Fin (unit_ms u).
Proof. destruct u; reflexivity. Qed.

End Matcher.

(** ** Time expressions and the nearest snapshot *)

Section TimeExpressions.
Variable Repo : Type.
Variable h : Host Repo.

Lemma relativeMatch_complete (s : string) (digits : list ascii) (u : time_unit) :
  relative_expression s digits u ->
  exists w, relativeMatch s =
              Some (string_of_list_ascii digits, string_of_list_ascii w) /\
            same_ci w (unit_name u).
Proof.
  intros (ws1 & w & pl & ws2 & a & Hs & Hd & Hs1 & Hw & Hpl & Hs2 & Ha).
  exists w. split; [|exact Hw]. unfold relativeMatch. rewrite Hs.
  destruct (@relative_pattern_complete _ _ _ _ _ _ u Hd Hs1 Hw Hpl Hs2 Ha) as [tl ->].
  reflexivity.
Qed.

Lemma relativeMatch_sound (s g1 g2 : string) :
  relativeMatch s = Some (g1, g2) ->
  exists digits w u,
    g1 = string_of_list_ascii digits /\ g2 = string_of_list_ascii w /\
    same_ci w (unit_name u) /\ relative_expression s digits u.
Proof.
  unfold relativeMatch.
  destruct (relative_pattern (list_ascii_of_string s)) as [|[[d w] rest] tl] eqn:Hm;
    [discriminate|].
  intros Heq. inversion Heq; subst.
  assert (Hin : In ((d, w), rest) (relative_pattern (list_ascii_of_string s))).
  { rewrite Hm. left. reflexivity. }
  apply relative_pattern_sound in Hin.
  destruct Hin as (u & ws1 & pl & ws2 & a & Hs & Hd & Hs1 & Hw & Hpl & Hs2 & Ha).
  exists d, w, u. repeat split; auto.
  exists ws1, w, pl, ws2, a. repeat split; auto; apply Hd || apply Hs1 || apply Hs2.
Qed.

Lemma targetTime_ret (timeStr : string) (r : Repo) (x : jsnum) :
  outcome_of (targetTime h timeStr r) = Ret x ->
  targetTime h timeStr r = (Ret x, r, []).
Proof.
  unfold targetTime, log.
  destruct (relativeMatch timeStr) as [[g1 g2]|].
  - cbn. intros Heq. inversion Heq. reflexivity.
  - destruct (dateParse h timeStr) as [t|]; cbn.
    + intros Heq. inversion Heq. reflexivity.
    + discriminate.
Qed.

(** Doubles hold safe integers exactly. *)
Lemma to_double_safe (z : Z) : safe_integer z -> to_double z = Fin z.
Proof.
  unfold safe_integer, to_double, round_even. intros Hz.
  apply Z.ltb_lt in Hz. rewrite Hz. apply Z.ltb_lt in Hz.
  assert (Hbig : 2 ^ 53 < 2 ^ 1024) by (apply Z.pow_lt_mono_r; lia).
  destruct (2 ^ 1024 <=? Z.abs z) eqn:Hover.
  - apply Z.leb_le in Hover. lia.
  - f_equal. destruct z; reflexivity.
Qed.

Lemma parse_digits_nonneg (s : list ascii) :
  forall acc, 0 <= acc -> 0 <= parse_digits acc s.
Proof.
  induction s as [|c s IH]; intros acc Hacc; cbn [parse_digits]; [exact Hacc|].
  destruct (is_digit c); [|exact Hacc]. apply IH. lia.
Qed.

Lemma parseInt_digits (digits : list ascii) :
  run_of is_digit digits ->
  parseInt (string_of_list_ascii digits) = to_double (parse_digits 0 digits).
Proof.
  intros [Hne Hall]. unfold parseInt. rewrite list_ascii_of_string_of_list_ascii.
  destruct digits as [|c rest]; [congruence|].
  simpl in Hall. apply andb_prop in Hall. destruct Hall as [Hc _].
  rewrite Hc. reflexivity.
Qed.

Lemma unit_ms_pos (u : time_unit) : 1 <= unit_ms u.
Proof. destruct u; simpl; lia. Qed.

(** C3, as amended.  A time expression of the form [<integer> <unit>(s)?
    ago], letter case apart, resolves to the current instant minus the
    integer times the fixed duration of the unit, as long as that product
    and that difference are safe integers; in general it resolves to what
    double-precision arithmetic makes of them.  Any other string is handed
    to the date parser, and the command exits with code 1, after an error
    message, when the parser rejects it.  "3 days ago" is now -
    259,200,000 ms and "1 month ago" is now - 2,592,000,000 ms. *)
Theorem targetTime_resolution (timeStr : string) (r : Repo) :
  time_value (dateNow h) ->
  (forall digits u,
     relative_expression timeStr digits u ->
     let n := parse_digits 0 digits in
     (safe_integer (n * unit_ms u) ->
      safe_integer (dateNow h - n * unit_ms u) ->
      targetTime h timeStr r =
      (Ret (Fin (dateNow h - n * unit_ms u)), r, [])) /\
     targetTime h timeStr r =
     (Ret (js_sub (Fin (dateNow h)) (js_mul (to_double n) (Fin (unit_ms u)))),
      r, [])) /\
  ((forall digits u, ~ relative_expression timeStr digits u) ->
     targetTime h timeStr r =
     match dateParse h timeStr with
     | Some t => (Ret (Fin t), r, [])
     | None => (Exit 1, r, [Log Error [Str "Cannot parse time: "; Str timeStr]])
     end) /\
  targetTime h "3 days ago" r = (Ret (Fin (dateNow h - 259200000)), r, []) /\
  targetTime h "1 month ago" r = (Ret (Fin (dateNow h - 2592000000)), r, []).
Proof.
  intros Hnow. unfold time_value in Hnow.
  assert (Hgeneral : forall digits u,
            relative_expression timeStr digits u ->
            targetTime h timeStr r =
            (Ret (js_sub (Fin (dateNow h))
                    (js_mul (to_double (parse_digits 0 digits)) (Fin (unit_ms u)))),
             r, [])).
  { intros digits u Hrel.
    destruct (relativeMatch_complete Hrel) as (w & Hm & Hw).
    destruct Hrel as (ws1 & w' & pl & ws2 & a & _ & Hd & _).
    unfold targetTime. rewrite Hm.
    rewrite (toLowerCase_unit _ Hw), multiplier_unit, (parseInt_digits Hd).
    reflexivity. }
  assert (Hday : 2 ^ 53 = 9007199254740992) by reflexivity.
  split; [|split; [|split]].
  - intros digits u Hrel. cbv zeta. split; [|exact (Hgeneral digits u Hrel)].
    intros Hproduct Hdifference. rewrite (Hgeneral digits u Hrel).
    assert (Hn : safe_integer (parse_digits 0 digits)).
    { pose proof (@parse_digits_nonneg digits 0 (Z.le_refl 0)) as H0.
      pose proof (unit_ms_pos u) as H1.
      unfold safe_integer in *. rewrite Z.abs_eq in * by nia. nia. }
    rewrite (to_double_safe Hn). unfold js_mul.
    rewrite (to_double_safe Hproduct). unfold js_sub.
    rewrite (to_double_safe Hdifference). reflexivity.
  - intros Hnot. unfold targetTime, log.
    destruct (relativeMatch timeStr) as [[g1 g2]|] eqn:Hm.
    + apply relativeMatch_sound in Hm.
      destruct Hm as (digits & w & u & _ & _ & _ & Hrel).
      destruct (Hnot _ _ Hrel).
    + destruct (dateParse h timeStr) as [t|]; reflexivity.
  - transitivity (ret (js_sub (Fin (dateNow h)) (Fin 259200000)) r);
      [reflexivity|].
    unfold js_sub. rewrite to_double_safe; [reflexivity|].
    unfold safe_integer. lia.
  - transitivity (ret (js_sub (Fin (dateNow h)) (Fin 2592000000)) r);
      [reflexivity|].
    unfold js_sub. rewrite to_double_safe; [reflexivity|].
    unfold safe_integer. lia.
Qed.

(** Every snapshot is at an infinite distance of an infinite target. *)
Lemma closest_of_infinite (target : jsnum) (snapshots : list ResticSnapshot) :
  target = Infinity \/ target = NegInfinity ->
  closest h target snapshots None Infinity = None.
Proof.
  intros Htarget. induction snapshots as [|snap rest IH]; simpl; [reflexivity|].
  replace (js_lt (abs_diff (of_date (dateParse h (time snap))) target) Infinity)
    with false; [exact IH|].
  unfold abs_diff.
  destruct Htarget as [-> | ->];
    destruct (dateParse h (time snap)); reflexivity.
Qed.

(** In the safe range the distance is the exact one. *)
Lemma distance_safe (t : Z) (snap : ResticSnapshot) (x : Z) :
  dateParse h (time snap) = Some x ->
  safe_integer (x - t) ->
  distance h t snap = Some (Z.abs (x - t)).
Proof.
  intros Hx Hsafe. unfold distance. rewrite Hx, (to_double_safe Hsafe). reflexivity.
Qed.

(** C2, as amended.  When the expression resolves to an instant,
    [findSnapshotByTime] returns, without touching the repository or
    logging: the snapshot at the least distance to the instant, the first
    one in list order among equals; and no snapshot ([null]) exactly when
    no snapshot of the list is at a finite distance, as is the case of the
    empty list.  Distances are those of double-precision arithmetic:
    whenever the difference of a valid time stamp to the instant is a safe
    integer, the distance is its absolute value. *)
Theorem findSnapshotByTime_nearest (snapshots : list ResticSnapshot)
    (timeStr : string) (t : Z) (r : Repo) :
  outcome_of (targetTime h timeStr r) = Ret (Fin t) ->
  exists res,
    findSnapshotByTime h snapshots timeStr r = (Ret res, r, []) /\
    (snapshots = [] -> res = None) /\
    (res = None <-> forall s, In s snapshots -> distance h t s = None) /\
    (forall snap, res = Some snap -> first_nearest h t snapshots snap) /\
    (forall s x, In s snapshots -> dateParse h (time s) = Some x ->
                 safe_integer (x - t) -> distance h t s = Some (Z.abs (x - t))).
Proof.
  intros Ht. apply targetTime_ret in Ht.
  exists (closest h (Fin t) snapshots None Infinity).
  pose proof (closest_first_nearest h t snapshots) as Hc.
  split; [|split; [|split; [|split]]].
  - unfold findSnapshotByTime, bind, ret. rewrite Ht. reflexivity.
  - intros ->. reflexivity.
  - destruct (closest h (Fin t) snapshots None Infinity) as [res|].
    + split; [discriminate|]. intros Hall.
      destruct Hc as (earlier & later & d & -> & Hd & _).
      rewrite Hall in Hd; [discriminate|].
      apply in_or_app. right. left. reflexivity.
    + split; [intros _; exact Hc | reflexivity].
  - intros snap Hres. rewrite Hres in Hc. exact Hc.
  - intros s x _ Hx Hsafe. exact (distance_safe t s Hx Hsafe).
Qed.

End TimeExpressions.

(** ** Category resolution *)

Section Categories.
Variable Repo : Type.
Variable h : Host Repo.
Variable agents : Registry.

(** No category name: no filter, for any agent, in both directions. *)
Lemma getCategoryIncludes_no_filter agentId only (r : Repo) :
  truthy only = false ->
  getCategoryIncludes agents agentId only r = (Ret None, r, []) /\
  getCategoryIncludes_restore agents agentId only r = (Ret None, r, []).
Proof.
  intros Ht. unfold getCategoryIncludes, getCategoryIncludes_restore.
  rewrite Ht. split; reflexivity.
Qed.

(** A category of the agent: its include list for the direction. *)
Lemma getCategoryIncludes_own agentId agentDef name categoryRule (r : Repo) :
  getAgent agents agentId = Some agentDef ->
  truthy (Some name) = true ->
  own_property (categories agentDef) name = Some categoryRule ->
  getCategoryIncludes agents agentId (Some name) r =
    (Ret (Some (backupIncludes categoryRule)), r, []) /\
  getCategoryIncludes_restore agents agentId (Some name) r =
    (Ret (Some (restoreIncludes categoryRule)), r, []).
Proof.
  intros Hg Ht Hown. unfold getCategoryIncludes, getCategoryIncludes_restore.
  rewrite Ht, Hg. unfold get_property. cbn [the negb]. rewrite Hown.
  split; reflexivity.
Qed.

(** A name that is neither a category of the agent nor a property of
    every object: the valid names are reported and the command exits. *)
Lemma getCategoryIncludes_unknown agentId agentDef name (r : Repo) :
  getAgent agents agentId = Some agentDef ->
  truthy (Some name) = true ->
  own_property (categories agentDef) name = None ->
  mem name Object_prototype_keys = false ->
  let report :=
    [ Log Error [Str "Unknown category "; Str dq; Str name; Str dq;
                 Str " for agent "; Str (displayName agentDef)];
      Log Info [Str "Valid categories: ";
                Str (join ", " (Object_keys (categories agentDef)))] ] in
  getCategoryIncludes agents agentId (Some name) r = (Exit 1, r, report) /\
  getCategoryIncludes_restore agents agentId (Some name) r = (Exit 1, r, report).
Proof.
  intros Hg Ht Hown Hproto. unfold getCategoryIncludes, getCategoryIncludes_restore.
  rewrite Ht, Hg. unfold get_property. cbn [the negb]. rewrite Hown, Hproto.
  split; reflexivity.
Qed.

End Categories.

(** C5, at the failing inputs.  For each of the nine agents of the
    catalog and each property name that every object inherits
    ("constructor", "toString", "__proto__", ...), none of which is a
    category of any agent, [getCategoryIncludes] does not exit: it returns
    "no filter", silently, in both directions. *)
Theorem getCategoryIncludes_inherited_name (Repo : Type) (h : Host Repo) (r : Repo) :
  Forall (fun agentDef =>
    Forall (fun name =>
      own_property (categories agentDef) name = None /\
      getCategoryIncludes (builtin_agents h) (id agentDef) (Some name) r =
        (Ret None, r, []) /\
      getCategoryIncludes_restore (builtin_agents h) (id agentDef) (Some name) r =
        (Ret None, r, []))
      Object_prototype_keys)
    (builtin_agents h).
Proof.
  repeat (apply Forall_cons || apply Forall_nil);
    (split; [reflexivity | split; reflexivity]).
Qed.

(** ** Probes *)

Section Probes.
Variable Repo : Type.
Variable h : Host Repo.

Lemma array_filter_returns {A} (f : A -> outcome bool) (xs : list A) :
  (forall x, In x xs -> exists b, f x = Ret b) ->
  array_filter f xs =
  Ret (filter (fun x => match f x with Ret true => true | _ => false end) xs).
Proof.
  induction xs as [|x xs IH]; simpl; intros Hall; [reflexivity|].
  destruct (Hall x (or_introl eq_refl)) as [b ->].
  rewrite IH by (intros y Hy; apply Hall; auto).
  destruct b; reflexivity.
Qed.

(** The probes of the nine definitions absorb the failures of what they
    run: they always return. *)
Lemma builtin_probes_return : Forall probes_return (builtin_agents h).
Proof.
  unfold probes_return, probe_returns.
  repeat (apply Forall_cons || apply Forall_nil); cbn;
    (split; [eexists; reflexivity|]); intros p Hp; inversion Hp; subst;
    try (eexists; reflexivity).
  destruct (fetchOk h _); eexists; reflexivity.
Qed.

Variable agents : Registry.

(** The checks of one configured agent, by what its probes answer. *)
Lemma agentHealthChecks_returns agentConfig (r : Repo) :
  (forall a, getAgent agents (ac_id agentConfig) = Some a -> probes_return a) ->
  exists checks, agentHealthChecks h agents agentConfig r = (Ret checks, r, []).
Proof.
  intros Hp. unfold agentHealthChecks.
  destruct (getAgent agents (ac_id agentConfig)) as [a|]; [|eexists; reflexivity].
  destruct (Hp a eq_refl) as [[b Hb] Hrun]. rewrite Hb. rewrite bind_call_ret.
  destruct b; [|eexists; reflexivity]. cbn [negb].
  unfold probe_returns in Hrun. destruct (isRunning a) as [p|]; [|eexists; reflexivity].
  destruct (Hrun p eq_refl) as [b' ->]. rewrite bind_call_ret.
  destruct b'; eexists; reflexivity.
Qed.

Lemma agentsHealthChecks_returns configured :
  (forall a, In a agents -> probes_return a) ->
  forall r : Repo,
  exists checks, agentsHealthChecks h agents configured r = (Ret checks, r, []).
Proof.
  intros Hp. induction configured as [|ac rest IH]; intros r; simpl.
  - eexists. reflexivity.
  - destruct (agentHealthChecks_returns ac r) as [c1 H1].
    { intros a Ha. apply Hp. unfold getAgent in Ha. apply find_some in Ha. apply Ha. }
    destruct (IH r) as [c2 H2].
    exists (c1 ++ c2). unfold bind. rewrite H1, H2. reflexivity.
Qed.

Lemma array_filter_throws_first {A} (f : A -> outcome bool)
    (before : list A) x (after : list A) e :
  (forall y, In y before -> exists b, f y = Ret b) ->
  f x = Throw e ->
  array_filter f (before ++ x :: after) = Throw e.
Proof.
  induction before as [|y before IH]; simpl; intros Hall Hx.
  - rewrite Hx. reflexivity.
  - destruct (Hall y (or_introl eq_refl)) as [b ->].
    rewrite IH; [reflexivity | | exact Hx].
    intros z Hz. apply Hall. right. exact Hz.
Qed.

Lemma agentHealthChecks_throws agentConfig a e (r : Repo) :
  getAgent agents (ac_id agentConfig) = Some a ->
  probe_throws a e ->
  agentHealthChecks h agents agentConfig r = (Throw e, r, []).
Proof.
  intros Hg [Hd | [Hd Hrun]]; unfold agentHealthChecks; rewrite Hg, Hd.
  - reflexivity.
  - rewrite bind_call_ret, Hrun. reflexivity.
Qed.

Lemma agentsHealthChecks_throws before agentConfig after a e (r : Repo) :
  (forall c a', In c before -> getAgent agents (ac_id c) = Some a' ->
                probes_return a') ->
  getAgent agents (ac_id agentConfig) = Some a ->
  probe_throws a e ->
  agentsHealthChecks h agents (before ++ agentConfig :: after) r = (Throw e, r, []).
Proof.
  intros Hbefore Hg He. induction before as [|c before IH]; simpl.
  - unfold bind. rewrite (agentHealthChecks_throws _ r Hg He). reflexivity.
  - destruct (agentHealthChecks_returns c r) as [checks Hc].
    { intros a' Ha'. apply (Hbefore c a' (or_introl eq_refl) Ha'). }
    unfold bind. rewrite Hc, IH; [reflexivity|].
    intros c' a' Hin. apply Hbefore. right. exact Hin.
Qed.

Lemma runHealthChecks_throws config passphrase e (r : Repo) :
  loadConfig h = Some config ->
  agentsHealthChecks h agents (cfg_agents config) r = (Throw e, r, []) ->
  runHealthChecks h agents passphrase r = (Throw e, r, []).
Proof.
  intros Hc Ht. unfold runHealthChecks. rewrite Hc.
  unfold bind at 1. unfold bind at 1. rewrite Ht. reflexivity.
Qed.

(** C4, as amended.  The probes of the catalog never throw: a process
    scan or a command lookup that fails counts as false, and when the
    health request of OpenClaw fails its liveness probe falls back to the
    process scan.  When the probes return, [getInstalledAgents] returns
    the agents whose probe answers true, in order, and the per-agent
    health checks return, an agent whose probe answers false getting one
    warning entry.  An exception of a probe is caught by neither caller:
    the first installation probe that throws ends [getInstalledAgents]
    with its exception, and the first probe of a configured agent that
    throws, the installation probe or the liveness probe, ends the whole
    health-check run with its exception, no entry being returned. *)
Theorem probes_and_their_callers :
  (Forall probes_return (builtin_agents h) /\
   (forall name err,
      execSync h ("pgrep -f " +++ dq +++ name +++ dq +++ " 2>/dev/null") = Err err ->
      checkProcessRunning h name = false) /\
   (forall cmd err,
      execSync h ("which " +++ cmd +++ " 2>/dev/null") = Err err ->
      commandExists h cmd = false) /\
   (forall err,
      fetchOk h "http://127.0.0.1:18789/health" = Err err ->
      isRunning (openclaw h) = Some (Ret (checkProcessRunning h "openclaw")))) /\
  ((forall a, In a agents -> exists b, detectInstalled a = Ret b) ->
   getInstalledAgents agents = Ret (filter installed agents)) /\
  ((forall a, In a agents -> probes_return a) ->
   forall configured (r : Repo),
   exists checks, agentsHealthChecks h agents configured r = (Ret checks, r, [])) /\
  (forall agentConfig a (r : Repo),
     getAgent agents (ac_id agentConfig) = Some a ->
     detectInstalled a = Ret false ->
     agentHealthChecks h agents agentConfig r =
     (Ret [ {| hc_name := "Agent: " +++ displayName a;
               hc_status := st_warn;
               hc_message := "Not installed on this system" |} ], r, [])) /\
  (forall before a after e,
     agents = before ++ a :: after ->
     (forall b, In b before -> exists v, detectInstalled b = Ret v) ->
     detectInstalled a = Throw e ->
     getInstalledAgents agents = Throw e) /\
  (forall config before agentConfig after a e passphrase (r : Repo),
     loadConfig h = Some config ->
     cfg_agents config = before ++ agentConfig :: after ->
     (forall c a', In c before -> getAgent agents (ac_id c) = Some a' ->
                   probes_return a') ->
     getAgent agents (ac_id agentConfig) = Some a ->
     probe_throws a e ->
     runHealthChecks h agents passphrase r = (Throw e, r, [])).
Proof.
  split.
  { split; [exact builtin_probes_return|]. split; [|split].
    - intros name err Herr. unfold checkProcessRunning. rewrite Herr. reflexivity.
    - intros cmd err Herr. unfold commandExists. rewrite Herr. reflexivity.
    - intros err Herr. cbn [openclaw isRunning]. rewrite Herr. reflexivity. }
  split; [intros Hall; apply array_filter_returns; exact Hall|].
  split; [intros Hall configured r; apply agentsHealthChecks_returns; exact Hall|].
  split; [|split].
  - intros ac a r Hg Hd. unfold agentHealthChecks. rewrite Hg, Hd. reflexivity.
  - intros before a after e -> Hbefore Hd. unfold getInstalledAgents, getAllAgents.
    apply array_filter_throws_first; assumption.
  - intros config before ac after a e passphrase r Hc Hagents Hbefore Hg He.
    apply (@runHealthChecks_throws config passphrase e r Hc).
    rewrite Hagents. apply (@agentsHealthChecks_throws before ac after a e r);
      assumption.
Qed.

End Probes.

(** ** The theorems at work on the example host *)

Module Witnesses.
Import Example.

(** [--agent b] selects agent b although it is disabled. *)
Lemma agentsToBackup_selection_witness :
  truthy (agent named_b) = true /\
  In "b" (map ac_id [configA; configB]) /\
  ac_enabled configB = false /\
  exists ac,
    outcome_of (agentsToBackup named_b (config_of [configA; configB])
                               ([] : list ResticSnapshot)) = Ret [ac] /\
    ac_id ac = "b" /\ In ac [configA; configB].
Proof.
  split; [reflexivity|]. split; [simpl; auto|]. split; [reflexivity|].
  apply (proj1 (proj2 (agentsToBackup_selection
                         named_b (config_of [configA; configB]) []) eq_refl)).
  simpl. auto.
Defined.

(** Agents [A (directory exists); B (directory missing)]: the loop
    returns and the engine is invoked once, for A. *)
Lemma backup_failure_isolation_witness :
  outcome_of loop_AB = Ret tt /\
  engine_calls (trace_of loop_AB) =
    [due_call agentA configA plain "pw" (config_of [configA; configB])
              "/home/user/.a"] /\
  In (Log Warn [Str "Data directory not found: "; Str "/home/user/.b"; Str " (";
                Str "data of B"; Str ")"]) (trace_of loop_AB).
Proof.
  assert (Hok : forall agentConfig agentDef,
            In agentConfig [configA; configB] ->
            getAgent registry (ac_id agentConfig) = Some agentDef ->
            category_resolves (only plain) agentDef /\ probe_returns agentDef).
  { intros ac def Hin Hg. split; [intros Ht; discriminate Ht|].
    destruct Hin as [<- | [<- | []]]; vm_compute in Hg; inversion Hg; subst;
      intros p Hp; inversion Hp; subst; eexists; reflexivity. }
  destruct (backup_failure_isolation (host [configA; configB]) registry
              [configA; configB] plain "pw" (config_of [configA; configB]) [] Hok)
    as (Hret & Hcalls & _ & Hmissing & _).
  split; [exact Hret|]. split; [unfold loop_AB; rewrite Hcalls; reflexivity|].
  apply (Hmissing configB agentB (dir "~/.b" "data of B" true)).
  - simpl. auto.
  - reflexivity.
  - simpl. auto.
  - reflexivity.
Defined.

Lemma backupCommand_invokes_A :
  In (EngineBackup (fst (fst call_for_A)) (snd (fst call_for_A)) (snd call_for_A))
     (trace_of (backupCommand (host [configA]) registry only_secrets [])).
Proof.
  vm_compute. repeat (first [left; reflexivity | right]).
Defined.

(** Ten snapshots before pruning, six after: four removed. *)
Lemma forgetCommand_reports_witness :
  outcome_of forget_ten = Ret tt /\
  exists earlier,
    trace_of forget_ten =
    earlier ++
    [ Kv "Before" [Num 10; Str " snapshots"] None;
      Kv "After" [Num 6; Str " snapshots"] None;
      Kv "Removed" [Num 4; Str " snapshots"] (Some "ok") ].
Proof.
  destruct (@forgetCommand_reports _ (host [configA])
              {| f_passphrase := None; f_agent := None |} (config_of [configA])
              "env-pass" "/usr/bin/restic" ten_snapshots (skipn 4 ten_snapshots)
              ten_snapshots ten_snapshots (skipn 4 ten_snapshots) (skipn 4 ten_snapshots)
              eq_refl eq_refl eq_refl eq_refl eq_refl eq_refl)
    as (Hret & _ & _ & Hreport).
  split; [exact Hret | exact Hreport].
Defined.

(** "12  MINUTES   Ago" is an expression of the grammar. *)
Lemma targetTime_resolution_witness :
  targetTime (host []) "12  MINUTES   Ago" [] =
  (Ret (Fin (1700000000000 - 12 * 60000)), [], []).
Proof.
  assert (Hnow : time_value (dateNow (host []))).
  { unfold time_value. simpl. lia. }
  assert (Hrel : relative_expression "12  MINUTES   Ago"
                   (list_ascii_of_string "12") Minute).
  { exists (list_ascii_of_string "  "), (list_ascii_of_string "MINUTE"),
           (list_ascii_of_string "S"), (list_ascii_of_string "   "),
           (list_ascii_of_string "Ago").
    unfold run_of, same_ci.
    repeat split; try reflexivity; try discriminate. right. reflexivity. }
  apply (proj1 (proj1 (targetTime_resolution (host []) "12  MINUTES   Ago" [] Hnow)
                      (list_ascii_of_string "12") Minute Hrel));
    unfold safe_integer; simpl; lia.
Defined.

(** Snapshots at 10:00, 12:00 and 15:00, target 13:30: 12:00 and 15:00 are
    equally near, and the first of them is returned. *)
Lemma findSnapshotByTime_nearest_witness :
  exists res,
    findSnapshotByTime (host []) three_snapshots "13:30" [] = (Ret res, [], []) /\
    (three_snapshots = [] -> res = None) /\
    (res = None <->
     forall s, In s three_snapshots -> distance (host []) 48600000 s = None) /\
    (forall snap, res = Some snap ->
                  first_nearest (host []) 48600000 three_snapshots snap) /\
    (forall s x, In s three_snapshots -> dateParse (host []) (time s) = Some x ->
                 safe_integer (x - 48600000) ->
                 distance (host []) 48600000 s = Some (Z.abs (x - 48600000))).
Proof.
  apply (findSnapshotByTime_nearest (host []) three_snapshots "13:30" []).
  reflexivity.
Defined.

(** C2, counterexample.  An expression that is neither relative nor a
    parseable date does not yield "no match" on the empty list: the
    command exits.  A list whose only snapshot has no valid time stamp
    yields no snapshot, although it is not empty.  And far beyond the safe
    integers, where the distances of 15:00 and 10:00 to the instant round
    to the same double, the first of the two is returned although the
    second is nearer. *)
Lemma findSnapshotByTime_not_as_claimed :
  findSnapshotByTime (host []) [] "not a date" [] =
    (Exit 1, [], [Log Error [Str "Cannot parse time: "; Str "not a date"]]) /\
  findSnapshotByTime (host []) [snapshot_at "not a date"] "13:30" [] =
    (Ret None, [], []) /\
  targetTime (host []) "1000000000000000000000 weeks ago" [] =
    (Ret (Fin (-604800000000000010675141214208)), [], []) /\
  findSnapshotByTime (host []) [snapshot_at "15:00"; snapshot_at "10:00"]
    "1000000000000000000000 weeks ago" [] =
    (Ret (Some (snapshot_at "15:00")), [], []) /\
  Z.abs (36000000 - -604800000000000010675141214208) <
  Z.abs (54000000 - -604800000000000010675141214208).
Proof. repeat split; vm_compute; reflexivity. Qed.

(** C3, counterexample.  An amount beyond the safe integers:
    9007199254740993 is read as 9007199254740992, and neither the product
    nor the difference is exact. *)
Lemma targetTime_beyond_safe_integers :
  targetTime (host []) "9007199254740993 minutes ago" [] =
    (Ret (Fin (-540431953584459546624)), [], []) /\
  1700000000000 - 9007199254740993 * 60000 = -540431953584459580000.
Proof. split; vm_compute; reflexivity. Qed.

(** C4, counterexample: an installation probe that throws is not treated
    as "not installed"; the exception leaves [getInstalledAgents], and it
    leaves [runHealthChecks] without any check being returned. *)
Lemma probe_exception_propagates :
  getInstalledAgents [agentA; agentBroken] = Throw "EACCES: permission denied" /\
  runHealthChecks (host [configBroken; configA]) [agentA; agentBroken] None [] =
    (Throw "EACCES: permission denied", [], []).
Proof. split; reflexivity. Qed.

(** On the example registry, whose probes return: A is installed, B is
    not. *)
Lemma probes_and_their_callers_witness :
  getInstalledAgents registry = Ret [agentA].
Proof.
  rewrite (proj1 (proj2 (probes_and_their_callers (host []) registry))).
  - reflexivity.
  - intros a [<- | [<- | []]]; eexists; reflexivity.
Defined.

End Witnesses.

(* ===================================================================== *)
(** * Further properties of the code *)
(* ===================================================================== *)

Unset Implicit Arguments.

(** ** The registry *)

Section RegistryFacts.

(** X1.  Registration then lookup: the agent just registered is found
    under its id, whatever was registered under that id before, and the
    lookup of every other id is unchanged. *)
Theorem registerAgent_getAgent (a : AgentDefinition) (agents : Registry) :
  getAgent (registerAgent a agents) (id a) = Some a /\
  forall other, other <> id a ->
    getAgent (registerAgent a agents) other = getAgent agents other.
Proof.
  unfold getAgent. split.
  - induction agents as [|b rest IH]; simpl.
    + rewrite String.eqb_refl. reflexivity.
    + destruct (String.eqb (id b) (id a)) eqn:E; simpl.
      * rewrite String.eqb_refl. reflexivity.
      * rewrite E. exact IH.
  - intros other Hne. induction agents as [|b rest IH]; simpl.
    + destruct (String.eqb (id a) other) eqn:E; [|reflexivity].
      apply String.eqb_eq in E. congruence.
    + destruct (String.eqb (id b) (id a)) eqn:E; simpl.
      * apply String.eqb_eq in E.
        destruct (String.eqb (id a) other) eqn:E1;
          [apply String.eqb_eq in E1; congruence|].
        destruct (String.eqb (id b) other) eqn:E2;
          [apply String.eqb_eq in E2; congruence|].
        reflexivity.
      * destruct (String.eqb (id b) other); [reflexivity | exact IH].
Qed.

Lemma registerAgent_ids_known (a : AgentDefinition) (agents : Registry) :
  In (id a) (getAgentIds agents) ->
  getAgentIds (registerAgent a agents) = getAgentIds agents.
Proof.
  unfold getAgentIds. induction agents as [|b rest IH]; simpl; [tauto|].
  destruct (String.eqb (id b) (id a)) eqn:E; simpl.
  - intros _. apply String.eqb_eq in E. rewrite E. reflexivity.
  - intros [Hb | Hin].
    + rewrite Hb, String.eqb_refl in E. discriminate.
    + rewrite (IH Hin). reflexivity.
Qed.

Lemma registerAgent_ids_new (a : AgentDefinition) (agents : Registry) :
  ~ In (id a) (getAgentIds agents) ->
  getAgentIds (registerAgent a agents) = getAgentIds agents ++ [id a].
Proof.
  unfold getAgentIds. induction agents as [|b rest IH]; simpl; [reflexivity|].
  intros Hn. destruct (String.eqb (id b) (id a)) eqn:E; simpl.
  - apply String.eqb_eq in E. tauto.
  - rewrite IH by tauto. reflexivity.
Qed.

(** X2.  Registration keeps the order of the registry: an id already
    known keeps its place (the list of ids is unchanged), a new id goes
    last; and ids that were distinct stay distinct. *)
Theorem registerAgent_ids (a : AgentDefinition) (agents : Registry) :
  (In (id a) (getAgentIds agents) ->
   getAgentIds (registerAgent a agents) = getAgentIds agents) /\
  (~ In (id a) (getAgentIds agents) ->
   getAgentIds (registerAgent a agents) = getAgentIds agents ++ [id a]) /\
  (NoDup (getAgentIds agents) -> NoDup (getAgentIds (registerAgent a agents))).
Proof.
  split; [apply registerAgent_ids_known|]. split; [apply registerAgent_ids_new|].
  intros Hnd. destruct (in_dec string_dec (id a) (getAgentIds agents)) as [Hin | Hn].
  - rewrite registerAgent_ids_known by exact Hin. exact Hnd.
  - rewrite registerAgent_ids_new by exact Hn.
    apply NoDup_app; [exact Hnd | repeat constructor; intros [] | ].
    intros x Hx [<- | []]. exact (Hn Hx).
Qed.

End RegistryFacts.

(** ** The catalog *)

(** X3.  The catalog of the nine definitions, as registration leaves it:
    the ids are distinct and every definition is found under its own id;
    every definition has a data directory; within a definition the
    category names are distinct, each has a standard description, and each
    rule has as many restore patterns as backup patterns, at least one.
    The restore patterns are the backup patterns prefixed with [**/],
    except for the [config] category of [opencode]. *)
Theorem builtin_catalog_invariants (Repo : Type) (h : Host Repo) :
  NoDup (getAgentIds (builtin_agents h)) /\
  Forall (fun a =>
    getAgent (builtin_agents h) (id a) = Some a /\
    dataDirs a <> [] /\
    NoDup (Object_keys (categories a)) /\
    Forall (fun entry =>
      usable_rule (snd entry) /\
      own_property CATEGORY_DESCRIPTIONS (fst entry) <> None /\
      (anchored_rule (snd entry) \/
       (id a = "opencode" /\ fst entry = "config")))
      (categories a))
    (builtin_agents h).
Proof.
  split.
  - cbv [getAgentIds builtin_agents fold_left]. simpl.
    repeat constructor; simpl; intuition discriminate.
  - unfold usable_rule, anchored_rule.
    repeat (apply Forall_cons || apply Forall_nil);
      (split; [reflexivity|]); (split; [discriminate|]);
      (split; [simpl; repeat constructor; simpl; intuition discriminate|]);
      repeat (apply Forall_cons || apply Forall_nil);
      (split; [split; [discriminate | reflexivity]|]);
      (split; [discriminate|]);
      first [left; reflexivity | right; split; reflexivity].
Qed.

(** ** Paths and endpoints *)

Section Paths.
Variable Repo : Type.
Variable h : Host Repo.

Lemma substring_all (s : string) : substring 0 (String.length s) s = s.
Proof. induction s as [|c s IH]; simpl; [reflexivity | rewrite IH; reflexivity]. Qed.

Lemma startsWith_tilde_slash (p : string) :
  startsWith "~/" p = true <-> exists rest, p = "~/" +++ rest.
Proof.
  unfold startsWith. rewrite prefix_correct. split.
  - destruct p as [|c1 [|c2 rest]]; simpl; try discriminate.
    intros Heq. inversion Heq; subst. exists rest. reflexivity.
  - intros [rest ->]. simpl. destruct rest; reflexivity.
Qed.

Lemma startsWith_tilde_slash_false (p : string) :
  startsWith "~/" p = false <-> forall rest, p <> "~/" +++ rest.
Proof.
  split.
  - intros Hf rest Heq.
    assert (Ht : startsWith "~/" p = true)
      by (apply startsWith_tilde_slash; exists rest; exact Heq).
    rewrite Hf in Ht. discriminate.
  - intros Hn. destruct (startsWith "~/" p) eqn:E; [|reflexivity].
    apply startsWith_tilde_slash in E. destruct E as [rest ->].
    exfalso. apply (Hn rest). reflexivity.
Qed.

Lemma GetSubstitution_plain (matched before after text : string) :
  plain_text text = true ->
  GetSubstitution matched before after text = text.
Proof.
  induction text as [|c text IH]; simpl; [reflexivity|].
  intros Hp. apply andb_prop in Hp. destruct Hp as [Hc Ht].
  destruct (Ascii.eqb c "$"); [discriminate|]. rewrite (IH Ht). reflexivity.
Qed.

Lemma GetSubstitution_app (matched before after text rest : string) :
  plain_text text = true ->
  GetSubstitution matched before after (text +++ rest) =
  text +++ GetSubstitution matched before after rest.
Proof.
  induction text as [|c text IH]; [reflexivity|].
  intros Hp. simpl in Hp. apply andb_prop in Hp. destruct Hp as [Hc Ht].
  change (String c text +++ rest) with (String c (text +++ rest)).
  cbn [GetSubstitution]. destruct (Ascii.eqb c "$"); [discriminate|].
  rewrite (IH Ht). reflexivity.
Qed.

Lemma append_assoc (a b c : string) : (a +++ b) +++ c = a +++ b +++ c.
Proof. induction a as [|x a IH]; simpl; [reflexivity | rewrite IH; reflexivity]. Qed.

(** The path [~/rest] has its tilde replaced, the text after the match
    being [/rest]. *)
Lemma expandHome_replace (rest : string) :
  expandHome h ("~/" +++ rest) =
  GetSubstitution "~" EmptyString ("/" +++ rest) (homedir h) +++ "/" +++ rest.
Proof.
  unfold expandHome.
  assert (Hs : startsWith "~/" ("~/" +++ rest) = true).
  { apply startsWith_tilde_slash. exists rest. reflexivity. }
  rewrite Hs. unfold replace.
  change ("~/" +++ rest) with (String "~" (String "/" rest)).
  cbn [replace_after].
  assert (Hp : prefix "~" (String "~" (String "/" rest)) = true).
  { apply prefix_correct. reflexivity. }
  rewrite Hp. cbn [String.length Nat.sub substring append].
  rewrite substring_all. reflexivity.
Qed.

Lemma expandHome_tilde_slash (rest : string) :
  plain_text (homedir h) = true ->
  expandHome h ("~/" +++ rest) = homedir h +++ "/" +++ rest.
Proof.
  intros Hp. rewrite expandHome_replace, (GetSubstitution_plain _ _ _ _ Hp).
  reflexivity.
Qed.

Lemma expandHome_other (p : string) :
  startsWith "~/" p = false -> p <> "~" -> expandHome h p = p.
Proof.
  intros Hs Hne. unfold expandHome. rewrite Hs.
  destruct (String.eqb p "~") eqn:E; [|reflexivity].
  apply String.eqb_eq in E. contradiction.
Qed.

(** A home directory followed by a slash is no tilde path, unless the home
    directory is one. *)
Lemma home_slash_plain (home rest : string) :
  startsWith "~/" home = false -> home <> "~" ->
  startsWith "~/" (home +++ "/" +++ rest) = false /\ home +++ "/" +++ rest <> "~".
Proof.
  intros Hs Hne. rewrite startsWith_tilde_slash_false in Hs. split.
  - apply startsWith_tilde_slash_false. intros x Heq.
    destruct home as [|c1 [|c2 home]]; simpl in Heq; inversion Heq; subst.
    + apply Hne. reflexivity.
    + apply (Hs home). reflexivity.
  - destruct home as [|c1 [|c2 home]]; simpl; discriminate.
Qed.

(** X4.  [expandHome] maps [~] to the home directory, and [~/rest] to
    the home directory followed by [/rest] when the home directory holds no
    dollar sign; every other path, [~user/x] included, is returned as it
    is.  For such a home directory that is not itself a tilde path,
    expanding twice is expanding once.  A dollar sign in the home directory
    is read as a replacement pattern: where it holds [$&], the expansion
    of [~/rest] holds a tilde. *)
Theorem expandHome_spec :
  expandHome h "~" = homedir h /\
  (plain_text (homedir h) = true ->
   forall rest, expandHome h ("~/" +++ rest) = homedir h +++ "/" +++ rest) /\
  (forall p, startsWith "~/" p = false -> p <> "~" -> expandHome h p = p) /\
  (plain_text (homedir h) = true ->
   startsWith "~/" (homedir h) = false -> homedir h <> "~" ->
   forall p, expandHome h (expandHome h p) = expandHome h p) /\
  (forall before after rest,
     homedir h = before +++ "$&" +++ after ->
     plain_text before = true -> plain_text after = true ->
     expandHome h ("~/" +++ rest) = before +++ "~" +++ after +++ "/" +++ rest).
Proof.
  split; [reflexivity|].
  split; [intros Hplain rest; apply expandHome_tilde_slash; exact Hplain|].
  split; [exact expandHome_other|]. split.
  - intros Hplain Hs Hne p.
    destruct (startsWith "~/" p) eqn:Hp.
    + apply startsWith_tilde_slash in Hp. destruct Hp as [rest ->].
      rewrite (expandHome_tilde_slash _ Hplain).
      destruct (home_slash_plain (homedir h) rest Hs Hne) as [H1 H2].
      apply expandHome_other; assumption.
    + destruct (String.eqb p "~") eqn:E.
      * apply String.eqb_eq in E. subst p.
        assert (Hh : expandHome h "~" = homedir h) by reflexivity.
        rewrite Hh. apply expandHome_other; assumption.
      * assert (Hpne : p <> "~").
        { intros ->. rewrite String.eqb_refl in E. discriminate. }
        rewrite (expandHome_other p Hp Hpne). apply expandHome_other; assumption.
  - intros before after rest Hhome Hb Ha.
    rewrite expandHome_replace, Hhome, (GetSubstitution_app _ _ _ _ _ Hb).
    change ("$&" +++ after) with (String "$" (String "&" after)).
    cbn [GetSubstitution Ascii.eqb Bool.eqb].
    rewrite (GetSubstitution_plain _ _ _ _ Ha).
    rewrite !append_assoc. reflexivity.
Qed.

End Paths.

(** X5.  The repository URL is [s3:], the endpoint, a slash and the
    bucket.  An explicit endpoint is used as it is, whatever the provider.
    Building the URL throws exactly when there is no explicit endpoint and
    the provider is MinIO, or R2 without an account id; it never ends the
    process. *)
Theorem getResticRepoUrl_spec (storage : StorageConfig) :
  (truthy (endpoint storage) = true ->
   getResticRepoUrl storage =
   Ret ("s3:" +++ the (endpoint storage) +++ "/" +++ bucket storage)) /\
  ((exists err, getResticRepoUrl storage = Throw err) <->
   truthy (endpoint storage) = false /\
   (provider storage = MinIO \/
    (provider storage = R2 /\ truthy (accountId storage) = false))) /\
  (forall url, getResticRepoUrl storage = Ret url ->
   exists e, getStorageEndpoint storage = Ret e /\
             url = "s3:" +++ e +++ "/" +++ bucket storage) /\
  (forall code, getResticRepoUrl storage <> Exit code).
Proof.
  unfold getResticRepoUrl, getStorageEndpoint.
  destruct (truthy (endpoint storage)) eqn:He.
  - split; [reflexivity|]. split; [|split].
    + split; [intros [err H]; discriminate | intros [H _]; discriminate].
    + intros url H. inversion H. eexists. split; reflexivity.
    + discriminate.
  - split; [discriminate|].
    destruct (provider storage) eqn:Hp; cbn;
      [destruct (truthy (accountId storage)) eqn:Ha; cbn| | |].
    all: split; [|split; [|discriminate]].
    all: try (split; [intros [err H]; discriminate H
                     | intros [_ [H | [H1 H2]]]; discriminate]).
    all: try (intros url H; inversion H; eexists; split; reflexivity).
    all: try (intros url H; discriminate H).
    all: split; [intros _; split; [reflexivity|]; auto
                | intros _; eexists; reflexivity].
Qed.

(** ** Loading the configuration *)

(** X6.  [loadConfig] returns nothing exactly when there is no file.  An
    [agents] array in the file is returned as it is, empty or not, even
    beside a legacy [openclawDir]: what [saveConfig] wrote loads back
    unchanged.  Without [agents], a non-empty [openclawDir] becomes one
    enabled [openclaw] agent with that directory, and anything else no
    agent at all. *)
Theorem loadConfig_migration (raw : LegacyConfig) :
  loadConfig_of None = None /\
  (exists config, loadConfig_of (Some raw) = Some config /\
     cfg_agents config =
     match lc_agents raw with
     | Some configured => configured
     | None => if truthy (lc_openclawDir raw)
               then [migrated_agent (the (lc_openclawDir raw))]
               else []
     end /\
     cfg_storage config = lc_storage raw /\
     cfg_retention config = lc_retention raw /\
     cfg_exclude config = lc_exclude raw /\
     cfg_resticVersion config = lc_resticVersion raw) /\
  (forall config stale, loadConfig_of (Some (saved config stale)) = Some config).
Proof.
  split; [reflexivity|]. split.
  - unfold loadConfig_of. eexists. split; [reflexivity|]. cbn.
    destruct (lc_agents raw) as [l|]; cbn.
    + rewrite andb_false_r. auto.
    + rewrite andb_true_r. destruct (truthy (lc_openclawDir raw)); auto.
  - intros [a s0 r0 e v] stale. unfold loadConfig_of, saved. cbn.
    rewrite andb_false_r. reflexivity.
Qed.

(** ** The whole backup command *)

Section TraceFacts.
Context {Repo : Type}.

(** A property of every event of a sequence, from its parts. *)
Lemma bind_trace_forall {A B} (P : event -> Prop) (m : M Repo A)
    (f : A -> M Repo B) (r : Repo) :
  Forall P (trace_of (m r)) ->
  (forall a, outcome_of (m r) = Ret a -> Forall P (trace_of (f a (repo_of (m r))))) ->
  Forall P (trace_of (bind m f r)).
Proof.
  rewrite !Forall_forall. intros Hm Hf e Hin.
  apply bind_trace_inv in Hin. destruct Hin as [Hin | (a & Ha & Hin)].
  - apply Hm, Hin.
  - specialize (Hf a Ha). rewrite Forall_forall in Hf. apply Hf, Hin.
Qed.

Lemma try_catch_trace_forall {A} (P : event -> Prop) (m : M Repo A)
    (hd : string -> M Repo A) (r : Repo) :
  Forall P (trace_of (m r)) ->
  (forall err, Forall P (trace_of (hd err (repo_of (m r))))) ->
  Forall P (trace_of (try_catch m hd r)).
Proof.
  rewrite !Forall_forall. intros Hm Hh e Hin.
  apply try_catch_trace_inv in Hin. destruct Hin as [Hin | (err & _ & Hin)].
  - apply Hm, Hin.
  - specialize (Hh err). rewrite Forall_forall in Hh. apply Hh, Hin.
Qed.

Lemma for_of_trace_forall {A} (P : event -> Prop) (xs : list A)
    (body : A -> M Repo unit) :
  (forall x r, In x xs -> Forall P (trace_of (body x r))) ->
  forall r, Forall P (trace_of (for_of xs body r)).
Proof.
  intros Hb r. apply Forall_forall. intros e Hin.
  apply for_of_trace_inv in Hin. destruct Hin as (x & r' & Hx & He).
  specialize (Hb x r' Hx). rewrite Forall_forall in Hb. apply Hb, He.
Qed.

End TraceFacts.

(** Splits on what the engine answers to a backup at repository state
    [r]. *)
Ltac split_backup r :=
  match goal with
  | |- context [backup _ ?d ?ro ?bo r] =>
      let sm := fresh "sm" in
      let e := fresh "e" in
      let r1 := fresh "r1" in
      destruct (backup _ d ro bo r) as [[sm|e] r1]; simpl
  end.

Section BackupCommand.
Variable Repo : Type.
Variable h : Host Repo.
Variable agents : Registry.

(** What [resolvePassphrase] does, in full. *)
Lemma resolvePassphrase_run (flag : option string) (r : Repo) :
  repo_of (resolvePassphrase h flag r) = r /\
  Forall quiet (trace_of (resolvePassphrase h flag r)) /\
  forall p, outcome_of (resolvePassphrase h flag r) = Ret p ->
            first_nonempty [flag; envPassphrase h; getKeychainPassphrase h] = Some p.
Proof.
  unfold resolvePassphrase, log. cbn [first_nonempty].
  destruct (truthy flag) eqn:Hf.
  - rewrite (truthy_the _ Hf). cbn. repeat split; auto. intros p Hp. congruence.
  - destruct (truthy (envPassphrase h)) eqn:He.
    + rewrite (truthy_the _ He). cbn. repeat split; auto. intros p Hp. congruence.
    + destruct (truthy (getKeychainPassphrase h)) eqn:Hk.
      * rewrite (truthy_the _ Hk). run. cbn.
        repeat split; auto; try (repeat constructor). intros p Hp. congruence.
      * run. cbn. repeat split; auto; try (repeat constructor). discriminate.
Qed.

(** The selection of the agents does not touch the repository or the
    engine. *)
Lemma agentsToBackup_run (opts : BackupOptions) (config : AgentstashConfig)
    (r : Repo) :
  repo_of (agentsToBackup opts config r) = r /\
  Forall quiet (trace_of (agentsToBackup opts config r)).
Proof.
  unfold agentsToBackup, log.
  destruct (truthy (agent opts)).
  - destruct (find _ (cfg_agents config)) as [ac|].
    + rewrite bind_ret_l. cbn. auto.
    + cbn. split; [reflexivity | repeat constructor].
  - rewrite bind_ret_l. destruct (filter ac_enabled (cfg_agents config)); cbn.
    + split; [reflexivity | repeat constructor].
    + auto.
Qed.

(** The backup of a directory logs, and invokes the engine for a backup at
    most. *)
Lemma backupDataDir_steps agentDef agentConfig opts passphrase config dataDir r :
  Forall backup_step
    (trace_of (backupDataDir h agents agentDef agentConfig opts passphrase
                             config dataDir r)).
Proof.
  unfold backupDataDir, getCategoryIncludes, log, log_kv,
         bind, try_catch, emit, engine, ret, process_exit, trace_of.
  destruct (pathExists h (expandHome h (path dataDir))); simpl;
    [|repeat constructor].
  destruct (opt_dryRun opts) as [[|]|];
    (destruct (truthy (only opts)); simpl;
     [destruct (getAgent agents (ac_id agentConfig)); simpl;
      [destruct (get_property _ (the (only opts))); simpl|]|]);
    try (repeat constructor; fail);
    split_backup r; repeat constructor.
Qed.

Lemma backupAgent_steps agentConfig opts passphrase config r :
  Forall backup_step
    (trace_of (backupAgent h agents agentConfig opts passphrase config r)).
Proof.
  unfold backupAgent, log.
  destruct (getAgent agents (ac_id agentConfig)) as [agentDef|];
    [|repeat constructor].
  apply bind_trace_forall; [repeat constructor|]. intros _ _.
  apply bind_trace_forall; [repeat constructor|]. intros _ _.
  apply bind_trace_forall.
  - destruct (isRunning agentDef) as [[[|]|e|c]|]; cbn; repeat constructor.
  - intros _ _. apply for_of_trace_forall. intros x r0 _.
    apply backupDataDir_steps.
Qed.

Lemma backupAgents_steps selected opts passphrase config r :
  Forall backup_step
    (trace_of (backupAgents h agents selected opts passphrase config r)).
Proof.
  unfold backupAgents. apply for_of_trace_forall. intros x r0 _.
  apply backupAgent_steps.
Qed.

(** Every engine operation of a backup command, with what led to it. *)
Lemma backupCommand_engine_inv (opts : BackupOptions) (r : Repo) (e : event) :
  In e (trace_of (backupCommand h agents opts r)) ->
  quiet e \/
  exists config pw path,
    loadConfig h = Some config /\
    first_nonempty [passphrase opts; envPassphrase h; getKeychainPassphrase h]
      = Some pw /\
    ensureRestic h (cfg_resticVersion config) = Ok path /\
    match e with
    | EngineBackup d ro bo =>
        exists agentConfig,
          In agentConfig (cfg_agents config) /\
          In (d, ro, bo) (due_calls h agents agentConfig opts pw config)
    | EngineForget ro rc tgs =>
        ro = {| ro_storage := cfg_storage config; ro_passphrase := pw |} /\
        rc = cfg_retention config /\ tgs = None /\
        opt_dryRun opts <> Some true /\ opt_forget opts <> Some false
    | EngineListSnapshots _ _ => False
    | _ => True
    end.
Proof.
  unfold backupCommand, requireConfig.
  destruct (loadConfig h) as [config|]; [|cbn; tauto].
  rewrite bind_ret_l. intros Hin.
  destruct (resolvePassphrase_run (passphrase opts) r) as (Hrepo & Hquiet & Hfirst).
  apply bind_trace_inv in Hin. destruct Hin as [Hin | (pw & Hpw & Hin)].
  { left. rewrite Forall_forall in Hquiet. apply Hquiet, Hin. }
  rewrite Hrepo in Hin. apply Hfirst in Hpw.
  rewrite bind_emit in Hin. unfold trace_of at 1 in Hin. cbn [snd] in Hin.
  destruct Hin as [<- | Hin]; [left; exact I|].
  apply bind_trace_inv in Hin. destruct Hin as [Hin | (path & Hpath & Hin)].
  { exfalso. revert Hin. unfold await.
    destruct (ensureRestic h (cfg_resticVersion config)); cbn; tauto. }
  assert (Hens : ensureRestic h (cfg_resticVersion config) = Ok path /\
                 repo_of (await (ensureRestic h (cfg_resticVersion config)) r) = r).
  { revert Hpath. unfold await.
    destruct (ensureRestic h (cfg_resticVersion config)); cbn; intros Heq;
      inversion Heq; auto. }
  destruct Hens as [Hens Hr]. rewrite Hr in Hin.
  destruct (agentsToBackup_run opts config r) as (Hsrepo & Hsquiet).
  apply bind_trace_inv in Hin. destruct Hin as [Hin | (selected & Hsel & Hin)].
  { left. rewrite Forall_forall in Hsquiet. apply Hsquiet, Hin. }
  rewrite Hsrepo in Hin.
  apply bind_trace_inv in Hin. destruct Hin as [Hin | (u & _ & Hin)].
  - pose proof (backupAgents_steps selected opts pw config r) as Hsteps.
    rewrite Forall_forall in Hsteps. specialize (Hsteps e Hin).
    destruct e as [l msg|k v st| |v|d ro bo|ro tgs|ro rc tgs];
      try (left; exact I); try (destruct Hsteps).
    right. exists config, pw, path. repeat split; auto.
    apply In_engine_calls, backupAgents_call_inv in Hin.
    destruct Hin as (ac & Hac & Hc). exists ac. split; [|exact Hc].
    apply (agentsToBackup_incl _ _ _ Hsel). exact Hac.
  - revert Hin.
    destruct (opt_dryRun opts) as [[|]|] eqn:Hdry;
      destruct (opt_forget opts) as [[|]|] eqn:Hnf; cbn [negb andb];
      try (cbn; tauto);
      unfold log, bind, try_catch, emit, engine, trace_of;
      match goal with
      | |- context [forget h ?ro ?rc ?t ?r0] =>
          destruct (forget h ro rc t r0) as [[[]|err] r2]
      end; cbn;
      intros Hin;
      repeat (destruct Hin as [<- | Hin]; [first [left; exact I |
        right; exists config, pw, path; repeat split; auto; discriminate]|]);
      destruct Hin.
Qed.

(** X7.  Pruning at the end of a backup: the engine is asked to forget
    only when the run is neither a dry run nor under [--no-forget], with
    the retention counts of the configuration, the storage of the
    configuration, the passphrase that was resolved, and no tag filter. *)
Theorem backupCommand_forget_gate (opts : BackupOptions) (r : Repo)
    ro rc tgs :
  In (EngineForget ro rc tgs) (trace_of (backupCommand h agents opts r)) ->
  opt_dryRun opts <> Some true /\
  opt_forget opts <> Some false /\
  tgs = None /\
  exists config,
    loadConfig h = Some config /\
    rc = cfg_retention config /\
    ro_storage ro = cfg_storage config /\
    first_nonempty [passphrase opts; envPassphrase h; getKeychainPassphrase h]
      = Some (ro_passphrase ro).
Proof.
  intros Hin. apply backupCommand_engine_inv in Hin.
  destruct Hin as [[] | (config & pw & path & Hc & Hp & _ & He)].
  destruct He as (-> & -> & -> & Hdry & Hnf).
  repeat split; auto. exists config. repeat split; auto.
Qed.

(** X8.  A backup command invokes the engine only once the configuration
    is loaded, the passphrase resolved and the restic binary ensured, and
    then with the storage of the configuration and the resolved
    passphrase; it never lists snapshots. *)
Theorem backupCommand_engine_context (opts : BackupOptions) (r : Repo) :
  (forall d ro bo,
     In (EngineBackup d ro bo) (trace_of (backupCommand h agents opts r)) ->
     exists config path,
       loadConfig h = Some config /\
       ensureRestic h (cfg_resticVersion config) = Ok path /\
       ro_storage ro = cfg_storage config /\
       first_nonempty [passphrase opts; envPassphrase h; getKeychainPassphrase h]
         = Some (ro_passphrase ro)) /\
  (forall ro tgs,
     ~ In (EngineListSnapshots ro tgs) (trace_of (backupCommand h agents opts r))).
Proof.
  split.
  - intros d ro bo Hin. apply backupCommand_engine_inv in Hin.
    destruct Hin as [[] | (config & pw & path & Hc & Hp & Hens & ac & _ & Hdue)].
    exists config, path. split; [exact Hc|]. split; [exact Hens|].
    unfold due_calls in Hdue.
    destruct (getAgent agents (ac_id ac)) as [def|]; [|destruct Hdue].
    apply in_map_iff in Hdue. destruct Hdue as (d' & Heq & _).
    unfold due_call in Heq. inversion Heq; subst. cbn. auto.
  - intros ro tgs Hin. apply backupCommand_engine_inv in Hin.
    destruct Hin as [[] | (config & pw & path & _ & _ & _ & [])].
Qed.


(** X10.  The directories a backup of one agent hands to the engine exist,
    and they are: the override of the agent's configuration entry and
    nothing else when there is one; otherwise directories of the
    definition, home-expanded. *)
Theorem backupAgent_directories agentConfig opts passphrase config (r : Repo)
    d ro bo :
  In (EngineBackup d ro bo)
     (trace_of (backupAgent h agents agentConfig opts passphrase config r)) ->
  pathExists h d = true /\
  ((truthy (ac_dataDir agentConfig) = true /\
    d = expandHome h (the (ac_dataDir agentConfig))) \/
   (truthy (ac_dataDir agentConfig) = false /\
    exists agentDef dataDir,
      getAgent agents (ac_id agentConfig) = Some agentDef /\
      In dataDir (dataDirs agentDef) /\
      d = expandHome h (path dataDir))).
Proof.
  intros Hin. apply In_engine_calls, backupAgent_call_inv in Hin.
  unfold due_calls, due_dirs in Hin.
  destruct (getAgent agents (ac_id agentConfig)) as [def|] eqn:Hdef; [|destruct Hin].
  apply in_map_iff in Hin. destruct Hin as (d' & Heq & Hd').
  unfold due_call in Heq. inversion Heq; subst.
  apply filter_In in Hd'. destruct Hd' as [Hd' Hex]. split; [exact Hex|].
  apply in_map_iff in Hd'. destruct Hd' as (dd & <- & Hdd).
  unfold effective_dirs in Hdd.
  destruct (truthy (ac_dataDir agentConfig)) eqn:Ht.
  - left. destruct Hdd as [<- | []]. auto.
  - right. split; [reflexivity|]. exists def, dd. auto.
Qed.

Lemma run_eta {A} (x : outcome A * Repo * list event) :
  x = (outcome_of x, repo_of x, trace_of x).
Proof. destruct x as [[o r0] t]. reflexivity. Qed.

Lemma bind_run_ret {A B} (m : M Repo A) (f : A -> M Repo B) (r r1 : Repo) a t1 :
  m r = (Ret a, r1, t1) ->
  bind m f r = (outcome_of (f a r1), repo_of (f a r1), t1 ++ trace_of (f a r1)).
Proof.
  intros Hm. unfold bind. rewrite Hm. destruct (f a r1) as [[o r2] t2]. reflexivity.
Qed.

Lemma engine_calls_quiet (t : list event) : Forall quiet t -> engine_calls t = [].
Proof.
  induction 1 as [|e t He _ IH]; [reflexivity|].
  unfold engine_calls in *. simpl. rewrite IH.
  destruct e; simpl in *; try reflexivity; destruct He.
Qed.

(** The loop over the selected agents returns, and invokes the engine for
    what is due, when the category filter resolves and the probes
    return. *)
Lemma backupAgents_returns selected opts pw config :
  (forall agentConfig agentDef,
     In agentConfig selected ->
     getAgent agents (ac_id agentConfig) = Some agentDef ->
     category_resolves (only opts) agentDef /\ probe_returns agentDef) ->
  forall r,
  outcome_of (backupAgents h agents selected opts pw config r) = Ret tt /\
  engine_calls (trace_of (backupAgents h agents selected opts pw config r)) =
  flat_map (fun agentConfig => due_calls h agents agentConfig opts pw config) selected.
Proof.
  intros Hok r. unfold backupAgents.
  assert (Hbody : forall x, In x selected -> forall r0,
    outcome_of (backupAgent h agents x opts pw config r0) = Ret tt /\
    engine_calls (trace_of (backupAgent h agents x opts pw config r0)) =
    due_calls h agents x opts pw config).
  { intros x Hx r0. apply backupAgent_returns. intros def Hdef. eauto. }
  split.
  - apply for_of_returns. intros x Hx r0. apply Hbody, Hx.
  - apply for_of_calls, Hbody.
Qed.

(** The last step returns whatever the engine answers; it asks the engine
    to forget exactly when the flags allow it. *)
Lemma retentionAfterBackup_run opts config pw (r : Repo) :
  let step := retentionAfterBackup h opts config pw r in
  outcome_of step = Ret tt /\
  engine_calls (trace_of step) = [] /\
  (opt_dryRun opts <> Some true -> opt_forget opts <> Some false ->
   In (EngineForget {| ro_storage := cfg_storage config; ro_passphrase := pw |}
                    (cfg_retention config) None) (trace_of step) /\
   forall err,
     fst (forget h {| ro_storage := cfg_storage config; ro_passphrase := pw |}
                 (cfg_retention config) None r) = Err err ->
     In (Log SpinWarn [Str "Retention policy failed (backup was successful)"])
        (trace_of step)).
Proof.
  cbv zeta. unfold retentionAfterBackup.
  destruct (opt_dryRun opts) as [[|]|]; destruct (opt_forget opts) as [[|]|];
    cbn [negb andb];
    try (split; [reflexivity|]; split; [reflexivity|]; intros H1 H2; congruence);
    unfold log, bind, try_catch, emit, engine, outcome_of, repo_of, trace_of;
    destruct (forget h _ (cfg_retention config) None r) as [[[]|e] r2]; cbn;
    (split; [reflexivity|]; split; [reflexivity|]); intros _ _;
    (split; [auto|]); intros err Herr; inversion Herr; subst; auto 10.
Qed.

Lemma backupCommand_unfold (opts : BackupOptions) (r : Repo) :
  backupCommand h agents opts r =
  (config <- requireConfig h ;;
   pw <- resolvePassphrase h (passphrase opts) ;;
   emit (EnsureRestic (cfg_resticVersion config)) ;;
   _ <- await (ensureRestic h (cfg_resticVersion config)) ;;
   selected <- agentsToBackup opts config ;;
   backupAgents h agents selected opts pw config ;;
   retentionAfterBackup h opts config pw) r.
Proof. reflexivity. Qed.

(** A backup command whose preliminaries succeed, as one run: the loop
    over the selected agents from the initial repository, then the last
    step from where the loop left it. *)
Lemma backupCommand_run opts config pw path selected (r : Repo) :
  loadConfig h = Some config ->
  outcome_of (resolvePassphrase h (passphrase opts) r) = Ret pw ->
  ensureRestic h (cfg_resticVersion config) = Ok path ->
  outcome_of (agentsToBackup opts config r) = Ret selected ->
  outcome_of (backupAgents h agents selected opts pw config r) = Ret tt ->
  let loop := backupAgents h agents selected opts pw config r in
  let step := retentionAfterBackup h opts config pw (repo_of loop) in
  backupCommand h agents opts r =
  (outcome_of step, repo_of step,
   trace_of (resolvePassphrase h (passphrase opts) r) ++
   EnsureRestic (cfg_resticVersion config) ::
   trace_of (agentsToBackup opts config r) ++
   trace_of loop ++ trace_of step).
Proof.
  intros Hcfg Hpw Hens Hsel Hloop. cbv zeta.
  rewrite backupCommand_unfold. unfold requireConfig. rewrite Hcfg, bind_ret_l.
  destruct (resolvePassphrase_run (passphrase opts) r) as (Hrepo & _ & _).
  destruct (agentsToBackup_run opts config r) as (Hsrepo & _).
  rewrite (bind_run_ret _ _ r r pw (trace_of (resolvePassphrase h (passphrase opts) r)))
    by (rewrite (run_eta (resolvePassphrase h (passphrase opts) r)), Hpw, Hrepo;
        reflexivity).
  rewrite bind_emit, Hens. unfold await. rewrite bind_ret_l.
  rewrite (bind_run_ret _ _ r r selected (trace_of (agentsToBackup opts config r)))
    by (rewrite (run_eta (agentsToBackup opts config r)), Hsel, Hsrepo; reflexivity).
  rewrite (bind_run_ret _ _ r
             (repo_of (backupAgents h agents selected opts pw config r)) tt
             (trace_of (backupAgents h agents selected opts pw config r)))
    by (rewrite (run_eta (backupAgents h agents selected opts pw config r)) at 1;
        rewrite Hloop; reflexivity).
  cbn [outcome_of repo_of trace_of fst snd]. reflexivity.
Qed.

(** X11.  A backup command whose preliminaries succeed (configuration,
    passphrase, restic binary, a non-empty selection), on agents whose
    category filter resolves and whose probes return, returns normally
    whatever the engine answers, to the backups and to the final pruning
    alike; it invokes the engine for exactly what is due for the selected
    agents; and unless the flags forbid it, it asks the engine to forget,
    reporting a failure of that as a warning. *)
Theorem backupCommand_completes opts config pw path selected (r : Repo) :
  loadConfig h = Some config ->
  outcome_of (resolvePassphrase h (passphrase opts) r) = Ret pw ->
  ensureRestic h (cfg_resticVersion config) = Ok path ->
  outcome_of (agentsToBackup opts config r) = Ret selected ->
  (forall agentConfig agentDef,
     In agentConfig selected ->
     getAgent agents (ac_id agentConfig) = Some agentDef ->
     category_resolves (only opts) agentDef /\ probe_returns agentDef) ->
  let run := backupCommand h agents opts r in
  let after_loop := repo_of (backupAgents h agents selected opts pw config r) in
  let ro := {| ro_storage := cfg_storage config; ro_passphrase := pw |} in
  outcome_of run = Ret tt /\
  engine_calls (trace_of run) =
    flat_map (fun agentConfig => due_calls h agents agentConfig opts pw config)
             selected /\
  (opt_dryRun opts <> Some true -> opt_forget opts <> Some false ->
   In (EngineForget ro (cfg_retention config) None) (trace_of run) /\
   forall err,
     fst (forget h ro (cfg_retention config) None after_loop) = Err err ->
     In (Log SpinWarn [Str "Retention policy failed (backup was successful)"])
        (trace_of run)).
Proof.
  intros Hcfg Hpw Hens Hsel Hok. cbv zeta.
  destruct (backupAgents_returns selected opts pw config Hok r) as [Hloop Hcalls].
  rewrite (backupCommand_run opts config pw path selected r Hcfg Hpw Hens Hsel Hloop).
  cbn [outcome_of repo_of trace_of fst snd].
  destruct (retentionAfterBackup_run opts config pw
              (repo_of (backupAgents h agents selected opts pw config r)))
    as (Hret & Hnone & Hforget).
  destruct (resolvePassphrase_run (passphrase opts) r) as (_ & Hq1 & _).
  destruct (agentsToBackup_run opts config r) as (_ & Hq2).
  split; [exact Hret|]. split.
  - rewrite engine_calls_app. change (EnsureRestic ?v :: ?t) with ([EnsureRestic v] ++ t).
    rewrite !engine_calls_app, Hnone, Hcalls,
            (engine_calls_quiet _ Hq1), (engine_calls_quiet _ Hq2).
    cbn. rewrite app_nil_r. reflexivity.
  - intros Hdry Hnf. destruct (Hforget Hdry Hnf) as [Hin Hwarn].
    split; [|intros err Herr; specialize (Hwarn err Herr)];
      rewrite in_app_iff; right; right; rewrite !in_app_iff; auto.
Qed.

(** The engine invocations of a backup command whose preliminaries
    succeed. *)
Lemma backupCommand_engine_calls opts config pw path selected (r : Repo) :
  loadConfig h = Some config ->
  outcome_of (resolvePassphrase h (passphrase opts) r) = Ret pw ->
  ensureRestic h (cfg_resticVersion config) = Ok path ->
  outcome_of (agentsToBackup opts config r) = Ret selected ->
  (forall agentConfig agentDef,
     In agentConfig selected ->
     getAgent agents (ac_id agentConfig) = Some agentDef ->
     category_resolves (only opts) agentDef /\ probe_returns agentDef) ->
  engine_calls (trace_of (backupCommand h agents opts r)) =
  flat_map (fun agentConfig => due_calls h agents agentConfig opts pw config)
           selected.
Proof.
  intros Hcfg Hpw Hens Hsel Hok.
  destruct (backupAgents_returns selected opts pw config Hok r) as [Hloop Hcalls].
  rewrite (backupCommand_run opts config pw path selected r Hcfg Hpw Hens Hsel Hloop).
  cbn [trace_of snd].
  destruct (retentionAfterBackup_run opts config pw
              (repo_of (backupAgents h agents selected opts pw config r)))
    as (_ & Hnone & _).
  destruct (resolvePassphrase_run (passphrase opts) r) as (_ & Hq1 & _).
  destruct (agentsToBackup_run opts config r) as (_ & Hq2).
  rewrite engine_calls_app. change (EnsureRestic ?v :: ?t) with ([EnsureRestic v] ++ t).
  rewrite !engine_calls_app, Hnone, Hcalls,
          (engine_calls_quiet _ Hq1), (engine_calls_quiet _ Hq2).
  cbn. rewrite app_nil_r. reflexivity.
Qed.

Lemma map_flat_map {A B C} (f : B -> C) (g : A -> list B) (l : list A) :
  map f (flat_map g l) = flat_map (fun x => map f (g x)) l.
Proof.
  induction l as [|x l IH]; simpl; [reflexivity|].
  rewrite map_app, IH. reflexivity.
Qed.

(** C7.  The tags a backup command passes to the engine.  Whenever it
    invokes the engine, whatever the run, it is for a directory that is
    due for one of the configured agents, with exactly the tags
    "agentstash" and the agent's id, followed by the category name when,
    and only when, a category filter was requested.  And a command whose
    preliminaries succeed, on agents whose category filter resolves and
    whose probes return, does invoke the engine, once for every directory
    that is due for every selected agent, in order, each time with these
    tags. *)
Theorem backup_tags_exact (opts : BackupOptions) :
  let tags_of agentConfig :=
    if truthy (only opts)
    then ["agentstash"; ac_id agentConfig; the (only opts)]
    else ["agentstash"; ac_id agentConfig] in
  (forall (r : Repo) d ro bo,
     In (EngineBackup d ro bo) (trace_of (backupCommand h agents opts r)) ->
     exists config agentConfig,
       loadConfig h = Some config /\
       In agentConfig (cfg_agents config) /\
       In d (due_dirs h agents agentConfig) /\
       bo_tags bo = tags_of agentConfig) /\
  (forall config pw path selected (r : Repo),
     loadConfig h = Some config ->
     outcome_of (resolvePassphrase h (passphrase opts) r) = Ret pw ->
     ensureRestic h (cfg_resticVersion config) = Ok path ->
     outcome_of (agentsToBackup opts config r) = Ret selected ->
     (forall agentConfig agentDef,
        In agentConfig selected ->
        getAgent agents (ac_id agentConfig) = Some agentDef ->
        category_resolves (only opts) agentDef /\ probe_returns agentDef) ->
     map (fun c => (fst (fst c), bo_tags (snd c)))
         (engine_calls (trace_of (backupCommand h agents opts r))) =
     flat_map (fun agentConfig =>
                 map (fun d => (d, tags_of agentConfig))
                     (due_dirs h agents agentConfig))
              selected).
Proof.
  cbv zeta. split.
  - intros r d ro bo Hin. apply In_engine_calls, backupCommand_call_inv in Hin.
    destruct Hin as (config & pw & ac & Hcfg & Hac & Hc).
    exists config, ac. split; [exact Hcfg|]. split; [exact Hac|].
    unfold due_calls in Hc.
    destruct (getAgent agents (ac_id ac)) as [def|]; [|destruct Hc].
    apply in_map_iff in Hc. destruct Hc as (d' & Heq & Hd').
    unfold due_call in Heq. inversion Heq; subst. split; [exact Hd'|reflexivity].
  - intros config pw path selected r Hcfg Hpw Hens Hsel Hok.
    rewrite (backupCommand_engine_calls opts config pw path selected r
               Hcfg Hpw Hens Hsel Hok).
    rewrite map_flat_map. clear Hsel Hok.
    induction selected as [|ac rest IH]; simpl; [reflexivity|].
    rewrite IH. f_equal. unfold due_calls, due_dirs.
    destruct (getAgent agents (ac_id ac)) as [def|]; [|reflexivity].
    rewrite map_map. reflexivity.
Qed.

(** C9.  The excludes a backup command passes to the engine.  Whenever it
    invokes the engine, whatever the run, it is for a directory that is
    due for a configured agent known to the registry, and the excludes are
    those of the agent definition, then those of the agent's configuration
    entry (none when absent), then the global ones of the configuration,
    concatenated in this order with nothing removed.  And a command whose
    preliminaries succeed, on agents whose category filter resolves and
    whose probes return, does invoke the engine, once for every directory
    that is due for every selected agent, in order, each time with these
    excludes. *)
Theorem backup_excludes_order (opts : BackupOptions) :
  let excludes_of config agentDef agentConfig :=
    excludes agentDef ++
    match ac_excludes agentConfig with Some xs => xs | None => [] end ++
    cfg_exclude config in
  (forall (r : Repo) d ro bo,
     In (EngineBackup d ro bo) (trace_of (backupCommand h agents opts r)) ->
     exists config agentConfig agentDef,
       loadConfig h = Some config /\
       In agentConfig (cfg_agents config) /\
       getAgent agents (ac_id agentConfig) = Some agentDef /\
       In d (due_dirs h agents agentConfig) /\
       bo_excludes bo = excludes_of config agentDef agentConfig) /\
  (forall config pw path selected (r : Repo),
     loadConfig h = Some config ->
     outcome_of (resolvePassphrase h (passphrase opts) r) = Ret pw ->
     ensureRestic h (cfg_resticVersion config) = Ok path ->
     outcome_of (agentsToBackup opts config r) = Ret selected ->
     (forall agentConfig agentDef,
        In agentConfig selected ->
        getAgent agents (ac_id agentConfig) = Some agentDef ->
        category_resolves (only opts) agentDef /\ probe_returns agentDef) ->
     map (fun c => (fst (fst c), bo_excludes (snd c)))
         (engine_calls (trace_of (backupCommand h agents opts r))) =
     flat_map (fun agentConfig =>
                 match getAgent agents (ac_id agentConfig) with
                 | Some agentDef =>
                     map (fun d => (d, excludes_of config agentDef agentConfig))
                         (due_dirs h agents agentConfig)
                 | None => []
                 end)
              selected).
Proof.
  cbv zeta. split.
  - intros r d ro bo Hin. apply In_engine_calls, backupCommand_call_inv in Hin.
    destruct Hin as (config & pw & ac & Hcfg & Hac & Hc).
    unfold due_calls in Hc.
    destruct (getAgent agents (ac_id ac)) as [def|] eqn:Hdef; [|destruct Hc].
    exists config, ac, def. split; [exact Hcfg|]. split; [exact Hac|].
    split; [exact Hdef|].
    apply in_map_iff in Hc. destruct Hc as (d' & Heq & Hd').
    unfold due_call in Heq. inversion Heq; subst. split; [exact Hd'|reflexivity].
  - intros config pw path selected r Hcfg Hpw Hens Hsel Hok.
    rewrite (backupCommand_engine_calls opts config pw path selected r
               Hcfg Hpw Hens Hsel Hok).
    rewrite map_flat_map. clear Hsel Hok.
    induction selected as [|ac rest IH]; simpl; [reflexivity|].
    rewrite IH. f_equal. unfold due_calls, due_dirs.
    destruct (getAgent agents (ac_id ac)) as [def|]; [|reflexivity].
    rewrite map_map. reflexivity.
Qed.

End BackupCommand.

(** ** Failures of the retention command *)

Section ForgetFailures.
Variable Repo : Type.
Variable h : Host Repo.

(** [forgetCommand] whose preliminaries succeed is the retention run
    proper, after the events of the preliminaries. *)
Lemma forgetCommand_run (opts : ForgetOptions) (config : AgentstashConfig)
    (pw path : string) (r : Repo) :
  loadConfig h = Some config ->
  outcome_of (resolvePassphrase_forget h (f_passphrase opts) r) = Ret pw ->
  ensureRestic h (cfg_resticVersion config) = Ok path ->
  let run := applyRetention h opts config pw r in
  forgetCommand h opts r =
  (outcome_of run, repo_of run,
   trace_of (resolvePassphrase_forget h (f_passphrase opts) r) ++
   EnsureRestic (cfg_resticVersion config) :: trace_of run).
Proof.
  intros Hcfg Hpw Hens. cbv zeta.
  destruct (resolvePassphrase_forget_run h (f_passphrase opts) r) as [Hrepo _].
  unfold forgetCommand, requireConfig. rewrite Hcfg, bind_ret_l.
  rewrite (bind_run_ret _ _ _ r r pw
             (trace_of (resolvePassphrase_forget h (f_passphrase opts) r)))
    by (rewrite (run_eta _ (resolvePassphrase_forget h (f_passphrase opts) r)),
                Hpw, Hrepo; reflexivity).
  rewrite bind_emit, Hens. unfold await. rewrite bind_ret_l.
  cbn [outcome_of repo_of trace_of fst snd]. reflexivity.
Qed.

(** X12.  Where the engine fails in [forgetCommand].  A failure of the
    first listing is not caught: the command throws, and nothing is
    pruned.  A failure of the pruning ends the command with exit code 1
    after a failure report, without a second listing.  A failure of the
    second listing also ends it with exit code 1, although the pruning has
    taken place. *)
Theorem forgetCommand_failures (opts : ForgetOptions) (config : AgentstashConfig)
    (pw path err : string) (before : list ResticSnapshot) (r r1 r2 r3 : Repo) :
  let ro := {| ro_storage := cfg_storage config; ro_passphrase := pw |} in
  let tags := if truthy (f_agent opts) then Some [the (f_agent opts)] else None in
  let run := forgetCommand h opts r in
  loadConfig h = Some config ->
  outcome_of (resolvePassphrase_forget h (f_passphrase opts) r) = Ret pw ->
  ensureRestic h (cfg_resticVersion config) = Ok path ->
  (listSnapshots h ro tags r = (Err err, r1) ->
   outcome_of run = Throw err /\ repo_of run = r1 /\
   engine_events (trace_of run) = [EngineListSnapshots ro tags]) /\
  (listSnapshots h ro tags r = (Ok before, r1) ->
   forget h ro (cfg_retention config) tags r1 = (Err err, r2) ->
   outcome_of run = Exit 1 /\ repo_of run = r2 /\
   engine_events (trace_of run) =
     [EngineListSnapshots ro tags; EngineForget ro (cfg_retention config) tags] /\
   In (Log SpinFail [Str "Failed to apply retention policy"]) (trace_of run) /\
   In (Log Error [Str err]) (trace_of run)) /\
  (listSnapshots h ro tags r = (Ok before, r1) ->
   forget h ro (cfg_retention config) tags r1 = (Ok tt, r2) ->
   listSnapshots h ro tags r2 = (Err err, r3) ->
   outcome_of run = Exit 1 /\ repo_of run = r3 /\
   engine_events (trace_of run) =
     [EngineListSnapshots ro tags; EngineForget ro (cfg_retention config) tags;
      EngineListSnapshots ro tags] /\
   In (Log Error [Str err]) (trace_of run)).
Proof.
  cbv zeta. intros Hcfg Hpw Hens.
  destruct (resolvePassphrase_forget_run h (f_passphrase opts) r) as [_ Hev].
  rewrite (forgetCommand_run opts config pw path r Hcfg Hpw Hens).
  cbn [outcome_of repo_of trace_of fst snd].
  unfold engine_events in *. rewrite filter_app, Hev. cbn [app filter].
  split; [|split].
  - intros Hl1.
    unfold applyRetention, bind, try_catch, emit, engine, log, log_kv.
    rewrite Hl1. cbn. auto.
  - intros Hl1 Hf.
    unfold applyRetention, bind, try_catch, emit, engine, log, log_kv.
    rewrite Hl1. cbn. rewrite Hf. cbn.
    repeat split; rewrite in_app_iff; right; cbn; auto 10.
  - intros Hl1 Hf Hl2.
    unfold applyRetention, bind, try_catch, emit, engine, log, log_kv.
    rewrite Hl1. cbn. rewrite Hf. cbn. rewrite Hl2. cbn.
    repeat split; rewrite in_app_iff; right; cbn; auto 10.
Qed.

End ForgetFailures.

(** ** Health checks *)

Section Health.
Variable Repo : Type.
Variable h : Host Repo.
Variable agents : Registry.

(** The checks of the agents never touch the repository and log nothing,
    however they end. *)
Lemma agentHealthChecks_pure agentConfig (r : Repo) :
  repo_of (agentHealthChecks h agents agentConfig r) = r /\
  trace_of (agentHealthChecks h agents agentConfig r) = [].
Proof.
  unfold agentHealthChecks.
  destruct (getAgent agents (ac_id agentConfig)) as [a|]; [|split; reflexivity].
  destruct (detectInstalled a) as [[|]|e|c]; cbn; try (split; reflexivity).
  destruct (isRunning a) as [[[|]|e|c]|]; cbn; split; reflexivity.
Qed.

Lemma agentsHealthChecks_pure configured (r : Repo) :
  repo_of (agentsHealthChecks h agents configured r) = r /\
  trace_of (agentsHealthChecks h agents configured r) = [].
Proof.
  induction configured as [|ac rest IH]; simpl; [split; reflexivity|].
  destruct (agentHealthChecks_pure ac r) as [Hr Ht].
  destruct IH as [Hr2 Ht2]. unfold bind.
  destruct (agentHealthChecks h agents ac r) as [[[c1|e|c] r1] t1];
    cbn in Hr, Ht; subst; try (split; reflexivity).
  destruct (agentsHealthChecks h agents rest r) as [[[c2|e|c] r2] t2];
    cbn in Hr2, Ht2; subst; split; reflexivity.
Qed.

Ltac last_entry H :=
  match type of H with
  | Ret (?a ++ ?b ++ [?c]) = Ret ?l =>
      exists (a ++ b), c; split;
      [rewrite <- app_assoc; congruence | repeat split]
  end.

(** X13.  Without a configuration file the health run consists of two
    entries, for the binary and for the missing configuration; no probe is
    called and the repository is not contacted, so the run cannot fail.
    With a configuration but without a passphrase the repository is not
    contacted either, and a run that returns ends on the entry that says
    so, a warning. *)
Theorem runHealthChecks_offline (passphrase : option string) (r : Repo) :
  (loadConfig h = None ->
   exists binary missing,
     runHealthChecks h agents passphrase r = (Ret [binary; missing], r, []) /\
     hc_name binary = "Restic binary" /\
     (hc_status binary = st_ok <-> isResticInstalled h = true) /\
     hc_name missing = "Config" /\ hc_status missing = st_error) /\
  (forall config,
     loadConfig h = Some config -> truthy passphrase = false ->
     repo_of (runHealthChecks h agents passphrase r) = r /\
     forall checks,
       outcome_of (runHealthChecks h agents passphrase r) = Ret checks ->
       exists earlier skipped,
         checks = earlier ++ [skipped] /\
         hc_name skipped = "Remote repository" /\ hc_status skipped = st_warn).
Proof.
  split.
  - intros Hc. unfold runHealthChecks. rewrite Hc. rewrite !bind_ret_l.
    eexists. eexists. split; [reflexivity|].
    destruct (isResticInstalled h); cbn; intuition congruence.
  - intros config Hc Hp. unfold runHealthChecks. rewrite Hc, Hp.
    destruct (agentsHealthChecks_pure (cfg_agents config) r) as [Hr Ht].
    unfold bind.
    destruct (agentsHealthChecks h agents (cfg_agents config) r)
      as [[[checks0|e|c] r1] t1]; cbn in Hr, Ht; subst;
      unfold ret, repo_of, outcome_of; cbn [fst snd];
      (split; [reflexivity|]); intros checks Heq; try discriminate.
    last_entry Heq.
Qed.

(** X14.  The entry of a registered and installed agent: it is named
    after the display name; it is ok when every directory checked exists
    and an error otherwise, the directories checked being the override of
    the configuration entry alone when there is one, else those of the
    definition; a liveness probe adds one entry, a warning exactly when the
    agent runs. *)
Theorem agentHealthChecks_entry agentConfig agentDef (running : option bool)
    (r : Repo) :
  getAgent agents (ac_id agentConfig) = Some agentDef ->
  detectInstalled agentDef = Ret true ->
  isRunning agentDef = option_map Ret running ->
  let checked :=
    if truthy (ac_dataDir agentConfig)
    then [expandHome h (the (ac_dataDir agentConfig))]
    else map (fun d => expandHome h (path d)) (dataDirs agentDef) in
  exists entry liveness,
    agentHealthChecks h agents agentConfig r = (Ret (entry :: liveness), r, []) /\
    hc_name entry = "Agent: " +++ displayName agentDef /\
    hc_status entry = (if forallb (pathExists h) checked then st_ok else st_error) /\
    match running with
    | None => liveness = []
    | Some b =>
        exists process,
          liveness = [process] /\
          hc_name process = "  " +++ displayName agentDef +++ " process" /\
          hc_status process = if b then st_warn else st_ok
    end.
Proof.
  intros Hg Hd Hrun. cbv zeta. unfold agentHealthChecks.
  rewrite Hg, Hd, Hrun, bind_call_ret. cbn [negb].
  assert (Hall : forall dirs,
            forallb (fun dir => pathExists h (expandHome h dir)) dirs =
            forallb (pathExists h) (map (expandHome h) dirs)).
  { intros dirs. induction dirs as [|x xs IH]; simpl; [reflexivity|].
    rewrite IH. reflexivity. }
  assert (Hchk :
            forallb (pathExists h)
              (if truthy (ac_dataDir agentConfig)
               then [expandHome h (the (ac_dataDir agentConfig))]
               else map (fun d => expandHome h (path d)) (dataDirs agentDef)) =
            forallb (fun dir => pathExists h (expandHome h dir))
              (if truthy (ac_dataDir agentConfig)
               then [the (ac_dataDir agentConfig)]
               else map path (dataDirs agentDef))).
  { rewrite Hall. destruct (truthy (ac_dataDir agentConfig)); cbn [map];
      [reflexivity | rewrite map_map; reflexivity]. }
  rewrite Hchk. clear Hchk Hall.
  destruct (forallb (fun dir => pathExists h (expandHome h dir))
              (if truthy (ac_dataDir agentConfig)
               then [the (ac_dataDir agentConfig)]
               else map path (dataDirs agentDef)));
    destruct running as [[|]|]; cbn [option_map]; try rewrite bind_call_ret;
    (eexists; eexists; split; [reflexivity|]);
    (split; [reflexivity|]); (split; [reflexivity|]);
    try reflexivity; eexists; (split; [reflexivity|]); split; reflexivity.
Qed.

(** X15.  The entry for the repository, when there is a configuration and
    a passphrase and the checks of the agents return: an error when the
    repository cannot be reached, else ok with the repository URL; and
    when the repository answers but no URL can be built for the storage
    (no endpoint for MinIO, no account for R2), the whole run throws. *)
Theorem runHealthChecks_remote (passphrase : option string)
    (config : AgentstashConfig) (checks : list HealthCheck)
    (reachable : bool) (r r1 : Repo) :
  loadConfig h = Some config ->
  truthy passphrase = true ->
  outcome_of (agentsHealthChecks h agents (cfg_agents config) r) = Ret checks ->
  checkRepo h {| ro_storage := cfg_storage config;
                 ro_passphrase := the passphrase |} r = (reachable, r1) ->
  let run := runHealthChecks h agents passphrase r in
  repo_of run = r1 /\
  (reachable = false ->
   exists earlier entry,
     outcome_of run = Ret (earlier ++ [entry]) /\
     hc_name entry = "Remote repository" /\ hc_status entry = st_error) /\
  (reachable = true ->
   forall url, getResticRepoUrl (cfg_storage config) = Ret url ->
   exists earlier entry,
     outcome_of run = Ret (earlier ++ [entry]) /\
     hc_name entry = "Remote repository" /\ hc_status entry = st_ok /\
     hc_message entry = url) /\
  (reachable = true ->
   forall err, getResticRepoUrl (cfg_storage config) = Throw err ->
   outcome_of run = Throw err).
Proof.
  intros Hc Hp Hchecks Hrepo. cbv zeta. unfold runHealthChecks. rewrite Hc, Hp.
  destruct (agentsHealthChecks_pure (cfg_agents config) r) as [Hr Ht].
  unfold bind, call, await.
  destruct (agentsHealthChecks h agents (cfg_agents config) r)
    as [[o r0] t0]; cbn in Hr, Ht, Hchecks; subst.
  unfold ret; cbn [fst snd]. rewrite Hrepo.
  destruct reachable.
  - destruct (getResticRepoUrl (cfg_storage config)) as [url|err|c] eqn:Hurl;
      unfold repo_of, outcome_of; cbn [fst snd];
      (split; [reflexivity|]); (split; [discriminate|]); split;
      intros _ x Hx; try discriminate.
    + injection Hx as <-.
      eexists. eexists. split; [rewrite app_assoc; reflexivity|]. repeat split.
    + injection Hx as <-. reflexivity.
  - unfold repo_of, outcome_of; cbn [fst snd].
    split; [reflexivity|]. split; [|split; discriminate].
    intros _. eexists. eexists. split; [rewrite app_assoc; reflexivity|].
    split; reflexivity.
Qed.

End Health.

(** ** Restore *)

Section SameEffect.
Variable Repo : Type.

Lemma same_effect_refl {A} (m : M Repo A) : same_effect m m.
Proof. intros r. split; reflexivity. Qed.

Lemma same_effect_bind {A B} (m1 m2 : M Repo A) (k1 k2 : A -> M Repo B) :
  same_effect m1 m2 -> (forall a, same_effect (k1 a) (k2 a)) ->
  same_effect (bind m1 k1) (bind m2 k2).
Proof.
  intros Hm Hk r. destruct (Hm r) as [Ho Hr]. unfold bind.
  destruct (m1 r) as [[o1 r1] t1], (m2 r) as [[o2 r2] t2].
  cbn in Ho, Hr. subst o2 r2.
  destruct o1 as [a|e|c]; [|split; reflexivity..].
  destruct (Hk a r1) as [Ho Hr].
  destruct (k1 a r1) as [[o3 r3] t3], (k2 a r1) as [[o4 r4] t4].
  cbn in Ho, Hr. subst. split; reflexivity.
Qed.

Lemma same_effect_emit_l {A} (e : event) (m1 m2 : M Repo A) :
  same_effect m1 m2 -> same_effect (bind (emit e) (fun _ => m1)) m2.
Proof.
  intros Hm r. destruct (Hm r) as [Ho Hr]. unfold bind, emit.
  destruct (m1 r) as [[o1 r1] t1]. cbn in *. auto.
Qed.

Lemma same_effect_emit_r {A} (e : event) (m1 m2 : M Repo A) :
  same_effect m1 m2 -> same_effect m1 (bind (emit e) (fun _ => m2)).
Proof.
  intros Hm r. destruct (Hm r) as [Ho Hr]. unfold bind, emit.
  destruct (m2 r) as [[o2 r2] t2]. cbn in *. auto.
Qed.

Lemma same_effect_try_catch {A} (m1 m2 : M Repo A)
    (h1 h2 : string -> M Repo A) :
  same_effect m1 m2 -> (forall e, same_effect (h1 e) (h2 e)) ->
  same_effect (try_catch m1 h1) (try_catch m2 h2).
Proof.
  intros Hm Hk r. destruct (Hm r) as [Ho Hr]. unfold try_catch.
  destruct (m1 r) as [[o1 r1] t1], (m2 r) as [[o2 r2] t2].
  cbn in Ho, Hr. subst o2 r2.
  destruct o1 as [a|e|c]; [split; reflexivity| |split; reflexivity].
  destruct (Hk e r1) as [Ho Hr].
  destruct (h1 e r1) as [[o3 r3] t3], (h2 e r1) as [[o4 r4] t4].
  cbn in Ho, Hr. subst. split; reflexivity.
Qed.

Lemma bind_effect_ret {A B} (m : M Repo A) (f : A -> M Repo B) (r : Repo) a r1 :
  outcome_of (m r) = Ret a -> repo_of (m r) = r1 ->
  outcome_of (bind m f r) = outcome_of (f a r1) /\
  repo_of (bind m f r) = repo_of (f a r1).
Proof.
  unfold bind. destruct (m r) as [[o r0] t]. cbn. intros -> ->.
  destruct (f a r1) as [[o2 r2] t2]. split; reflexivity.
Qed.

Lemma bind_effect_stop {A B} (m : M Repo A) (f : A -> M Repo B) (r : Repo) :
  (forall e, outcome_of (m r) = Throw e ->
             outcome_of (bind m f r) = Throw e /\
             repo_of (bind m f r) = repo_of (m r)) /\
  (forall c, outcome_of (m r) = Exit c ->
             outcome_of (bind m f r) = Exit c /\
             repo_of (bind m f r) = repo_of (m r)).
Proof.
  unfold bind. destruct (m r) as [[o r0] t]. cbn.
  split; intros x ->; split; reflexivity.
Qed.

Lemma bind_pure {A B} (m : M Repo A) (f : A -> M Repo B) (r : Repo) :
  repo_of (m r) = r -> (forall a, repo_of (f a r) = r) ->
  repo_of (bind m f r) = r.
Proof.
  unfold bind. destruct (m r) as [[o r0] t]. cbn. intros -> Hf.
  destruct o as [a|e|c]; try reflexivity.
  specialize (Hf a). destruct (f a r) as [[o2 r2] t2]. exact Hf.
Qed.

Lemma engine_effect {A} (op : Repo -> result A * Repo) (r r1 : Repo) res :
  op r = (res, r1) ->
  outcome_of (engine op r) = match res with Ok a => Ret a | Err e => Throw e end /\
  repo_of (engine op r) = r1.
Proof.
  unfold engine. intros ->. destruct res; split; reflexivity.
Qed.

Lemma find_first {A} (f : A -> bool) (l : list A) (a : A) :
  find f l = Some a <->
  exists before after,
    l = before ++ a :: after /\ f a = true /\
    forall b, In b before -> f b = false.
Proof.
  induction l as [|x l IH]; simpl.
  - split; [discriminate|]. intros (before & after & Heq & _).
    destruct before; discriminate.
  - destruct (f x) eqn:Hx.
    + split.
      * intros Heq. injection Heq as <-. exists [], l. simpl. tauto.
      * intros (before & after & Heq & Ha & Hb).
        destruct before as [|y before]; simpl in Heq; injection Heq as <- ->.
        -- reflexivity.
        -- rewrite (Hb x (or_introl eq_refl)) in Hx. discriminate.
    + rewrite IH. split.
      * intros (before & after & -> & Ha & Hb). exists (x :: before), after.
        split; [reflexivity|]. split; [exact Ha|].
        intros b [<- | Hin]; auto.
      * intros (before & after & Heq & Ha & Hb).
        destruct before as [|y before]; simpl in Heq; injection Heq as <- ->.
        -- rewrite Ha in Hx. discriminate.
        -- exists before, after. split; [reflexivity|]. split; [exact Ha|].
           intros b Hin. apply Hb. right. exact Hin.
Qed.

End SameEffect.

Ltac effect_ret Ho Hr :=
  match goal with
  | |- outcome_of (bind ?m ?f ?r) = _ /\ repo_of (bind ?m ?f ?r) = _ =>
      let E1 := fresh in
      let E2 := fresh in
      destruct (bind_effect_ret _ m f r _ _ Ho Hr) as [E1 E2];
      rewrite E1, E2; clear E1 E2; cbv beta
  end.

Ltac effect_throw Ho :=
  match goal with
  | |- outcome_of (bind ?m ?f ?r) = _ /\ repo_of (bind ?m ?f ?r) = _ =>
      let E1 := fresh in
      let E2 := fresh in
      destruct (proj1 (bind_effect_stop _ m f r) _ Ho) as [E1 E2];
      rewrite E1, E2; clear E1 E2
  end.

Ltac effect_exit Ho :=
  match goal with
  | |- outcome_of (bind ?m ?f ?r) = _ /\ repo_of (bind ?m ?f ?r) = _ =>
      let E1 := fresh in
      let E2 := fresh in
      destruct (proj2 (bind_effect_stop _ m f r) _ Ho) as [E1 E2];
      rewrite E1, E2; clear E1 E2
  end.

Ltac effect_emit :=
  match goal with
  | |- outcome_of (bind ?m ?f ?r) = _ /\ repo_of (bind ?m ?f ?r) = _ =>
      effect_ret (@eq_refl _ (@Ret unit tt)) (@eq_refl _ r)
  end.

Section RestoreFacts.
Variable Repo : Type.
Variable h : Host Repo.
Variable agents : Registry.
Variable restore : string -> string -> ResticOpts -> option (list string) ->
                   Repo -> result unit * Repo.

(** X16.  [--dry-run] is not passed on to the engine: a dry run ends as
    the real run does when its confirmation is given, and leaves the
    repository and the target directory in the same state. *)
Theorem restoreCommand_dry_run (confirmed : bool) (opts : RestoreOptions) :
  same_effect
    (restoreCommand h agents restore confirmed (withDryRun true opts))
    (restoreCommand h agents restore true (withDryRun false opts)).
Proof.
  assert (Ha : forall c, @restoreAgent Repo (withDryRun true opts) c =
                         restoreAgent (withDryRun false opts) c) by reflexivity.
  assert (Hs : forall l, selectSnapshot h (withDryRun true opts) l =
                         selectSnapshot h (withDryRun false opts) l) by reflexivity.
  assert (Ht : forall a d, restoreTarget h (withDryRun true opts) a d =
                           restoreTarget h (withDryRun false opts) a d) by reflexivity.
  unfold restoreCommand.
  cbn [withDryRun r_passphrase r_agent r_only r_at r_target r_dryRun].
  apply same_effect_bind; [apply same_effect_refl|intros config].
  apply same_effect_bind; [apply same_effect_refl|intros pw].
  rewrite Ha.
  apply same_effect_bind; [apply same_effect_refl|intros agentConfig].
  cbv zeta.
  do 6 (apply same_effect_bind; [apply same_effect_refl|intros ?]).
  destruct (_ =? _)%nat; [apply same_effect_refl|].
  rewrite Hs. apply same_effect_bind; [apply same_effect_refl|intros snap].
  rewrite Ht. apply same_effect_bind; [apply same_effect_refl|intros target].
  cbn [negb]. apply same_effect_bind.
  { destruct (pathExists h target && negb (truthy (r_target opts)));
      [|apply same_effect_refl].
    unfold log. apply same_effect_emit_r, same_effect_emit_r, same_effect_refl. }
  intros proceed. destruct proceed; cbn [negb]; [|apply same_effect_refl].
  apply same_effect_bind; [apply same_effect_refl|intros includes].
  unfold log, log_kv.
  apply same_effect_emit_l, same_effect_emit_r.
  apply same_effect_try_catch; [|intros e; apply same_effect_refl].
  do 3 (apply same_effect_bind; [apply same_effect_refl|intros ?]).
  apply same_effect_emit_l, same_effect_emit_r, same_effect_refl.
Qed.

Lemma restoreAgent_pure opts config (r : Repo) :
  repo_of (restoreAgent opts config r) = r.
Proof.
  unfold restoreAgent. apply bind_pure.
  - destruct (negb (truthy (r_agent opts))); [|reflexivity].
    destruct (cfg_agents config) as [|x [|y l]]; reflexivity.
  - intros name.
    destruct (find (fun a => String.eqb (ac_id a) name) (cfg_agents config));
      reflexivity.
Qed.

Lemma targetTime_pure timeStr (r : Repo) :
  repo_of (targetTime h timeStr r) = r.
Proof.
  unfold targetTime. destruct (relativeMatch timeStr) as [[g1 g2]|]; [reflexivity|].
  destruct (isNaN (of_date (dateParse h timeStr))); reflexivity.
Qed.

Lemma selectSnapshot_pure opts snapshots (r : Repo) :
  repo_of (selectSnapshot h opts snapshots r) = r.
Proof.
  unfold selectSnapshot. destruct (truthy (r_at opts)).
  - apply bind_pure.
    + unfold findSnapshotByTime. apply bind_pure; [apply targetTime_pure|].
      reflexivity.
    + intros [found|]; reflexivity.
  - destruct (rev snapshots); reflexivity.
Qed.

Lemma restoreTarget_pure opts agentConfig agentDef (r : Repo) :
  repo_of (restoreTarget h opts agentConfig agentDef r) = r.
Proof.
  unfold restoreTarget. destruct (truthy (r_target opts)); [reflexivity|].
  destruct (truthy (ac_dataDir agentConfig)); [reflexivity|].
  destruct agentDef as [def|]; [|reflexivity].
  destruct (dataDirs def); reflexivity.
Qed.

Lemma getCategoryIncludes_restore_pure agentId only (r : Repo) :
  repo_of (getCategoryIncludes_restore agents agentId only r) = r.
Proof.
  unfold getCategoryIncludes_restore. destruct (negb (truthy only)); [reflexivity|].
  destruct (getAgent agents agentId) as [def|]; [|reflexivity].
  destruct (get_property (categories def) (the only)); reflexivity.
Qed.

(** X17.  The agent restored is the first configured entry with the id
    given by [--agent], or the only configured entry when no id is given;
    whether the entry is enabled plays no part.  In every other case the
    command exits with code 1.  The repository is not touched. *)
Theorem restoreAgent_selection (opts : RestoreOptions)
    (config : AgentstashConfig) (r : Repo) :
  let run := restoreAgent opts config r in
  repo_of run = r /\
  (forall agentConfig,
     outcome_of run = Ret agentConfig <->
     (truthy (r_agent opts) = true /\
      exists before after,
        cfg_agents config = before ++ agentConfig :: after /\
        ac_id agentConfig = the (r_agent opts) /\
        forall b, In b before -> ac_id b <> the (r_agent opts)) \/
     (truthy (r_agent opts) = false /\ cfg_agents config = [agentConfig])) /\
  (outcome_of run = Exit 1 \/ exists agentConfig, outcome_of run = Ret agentConfig).
Proof.
  cbv zeta. split; [apply restoreAgent_pure|].
  assert (Hfirst : forall name a,
            find (fun a => String.eqb (ac_id a) name) (cfg_agents config) = Some a <->
            exists before after,
              cfg_agents config = before ++ a :: after /\
              ac_id a = name /\
              forall b, In b before -> ac_id b <> name).
  { intros name a. rewrite find_first. split;
      intros (before & after & Heq & Ha & Hb); exists before, after;
      (split; [exact Heq|]); split.
    - apply String.eqb_eq. exact Ha.
    - intros b Hin. apply String.eqb_neq. apply Hb. exact Hin.
    - apply String.eqb_eq. exact Ha.
    - intros b Hin. apply String.eqb_neq. apply Hb. exact Hin. }
  unfold restoreAgent. destruct (truthy (r_agent opts)) eqn:Hgiven; cbn [negb].
  - rewrite bind_ret_l.
    destruct (find (fun a => String.eqb (ac_id a) (the (r_agent opts)))
                (cfg_agents config)) as [found|] eqn:Hfind.
    + split; [|right; exists found; reflexivity].
      intros agentConfig. split.
      * intros Heq. injection Heq as <-. left. split; [reflexivity|].
        apply Hfirst. exact Hfind.
      * intros [[_ Hex] | [Hfalse _]]; [|discriminate].
        apply Hfirst in Hex. rewrite Hfind in Hex. injection Hex as ->. reflexivity.
    + split; [|left; reflexivity].
      intros agentConfig. split; [discriminate|].
      intros [[_ Hex] | [Hfalse _]]; [|discriminate].
      apply Hfirst in Hex. rewrite Hfind in Hex. discriminate.
  - destruct (cfg_agents config) as [|x [|y l]] eqn:Hagents.
    + split; [|left; reflexivity].
      intros agentConfig. split; [discriminate|].
      intros [[Htrue _] | [_ Heq]]; discriminate.
    + assert (Hrun : outcome_of
                (bind (bind (log Info [Str "Auto-selected agent: "; Str (ac_id x)])
                         (fun _ => ret (ac_id x)))
                   (fun agentName =>
                    match find (fun a => String.eqb (ac_id a) agentName) [x] with
                    | None =>
                        bind (log Error [Str "Agent "; Str dq; Str agentName; Str dq;
                                         Str " is not configured."])
                          (fun _ =>
                           bind (log Info [Str "Configured agents: ";
                                           Str (or_else (join ", " (map ac_id [x])) "(none)")])
                             (fun _ => process_exit 1))
                    | Some agentConfig => ret agentConfig
                    end) r) = Ret x).
      { unfold bind, log, emit, ret. cbn [find]. rewrite String.eqb_refl. reflexivity. }
      rewrite Hrun. split; [|right; exists x; reflexivity].
      intros agentConfig. split.
      * intros Heq. injection Heq as <-. right. split; reflexivity.
      * intros [[Htrue _] | [_ Heq]]; [discriminate|].
        injection Heq as <-. reflexivity.
    + split; [|left; reflexivity].
      intros agentConfig. split; [discriminate|].
      intros [[Htrue _] | [_ Heq]]; discriminate.
Qed.

Lemma resolvePassphrase_pure flag (r : Repo) :
  repo_of (resolvePassphrase h flag r) = r.
Proof.
  unfold resolvePassphrase. destruct (truthy flag); [reflexivity|].
  destruct (truthy (envPassphrase h)); [reflexivity|].
  destruct (truthy (getKeychainPassphrase h)); reflexivity.
Qed.

Ltac restore_prefix opts Hconfig Hpw Hagent Hrestic path :=
  unfold restoreCommand, requireConfig; rewrite Hconfig;
  match goal with
  | |- outcome_of (bind (ret ?config) _ ?r) = _ /\ _ =>
      effect_ret (@eq_refl _ (@Ret AgentstashConfig config)) (@eq_refl _ r);
      effect_ret Hpw (resolvePassphrase_pure (r_passphrase opts) r);
      effect_ret Hagent (restoreAgent_pure opts config r);
      cbv zeta; effect_emit; rewrite Hrestic;
      effect_ret (@eq_refl _ (@Ret string path)) (@eq_refl _ r);
      effect_emit; effect_emit
  end.

(** X18.  Listing the snapshots of the agent is not guarded: when it
    fails, [restoreCommand] throws.  When the agent has no snapshot it
    exits with code 1, whatever the other options are.  Nothing is
    restored in either case. *)
Theorem restoreCommand_nothing_listed (confirmed : bool)
    (opts : RestoreOptions) (config : AgentstashConfig) (pw path : string)
    (agentConfig : AgentConfig) (r r1 : Repo)
    (listed : result (list ResticSnapshot)) :
  loadConfig h = Some config ->
  outcome_of (resolvePassphrase h (r_passphrase opts) r) = Ret pw ->
  outcome_of (restoreAgent opts config r) = Ret agentConfig ->
  ensureRestic h (cfg_resticVersion config) = Ok path ->
  listSnapshots h {| ro_storage := cfg_storage config; ro_passphrase := pw |}
    (Some [ac_id agentConfig]) r = (listed, r1) ->
  let run := restoreCommand h agents restore confirmed opts r in
  (forall err, listed = Err err -> outcome_of run = Throw err /\ repo_of run = r1) /\
  (listed = Ok [] -> outcome_of run = Exit 1 /\ repo_of run = r1).
Proof.
  intros Hconfig Hpw Hagent Hrestic Hlist. cbv zeta.
  destruct (engine_effect _ _ _ _ _ Hlist) as [Ho Hr].
  split; [intros err -> | intros ->];
    restore_prefix opts Hconfig Hpw Hagent Hrestic path.
  - effect_throw Ho. split; [reflexivity | exact Hr].
  - effect_ret Ho Hr. effect_emit. cbn [length Nat.eqb]. effect_emit.
    split; reflexivity.
Qed.

(** X19.  When the agent has snapshots and the restore goes ahead (a dry
    run, a target that does not exist yet, a target given by [--target],
    or a confirmation given), the engine restores the selected snapshot
    into the target with the patterns of the category; the command returns
    when the engine succeeds and exits with code 1 when it fails. *)
Theorem restoreCommand_restores (confirmed : bool)
    (opts : RestoreOptions) (config : AgentstashConfig) (pw path : string)
    (agentConfig : AgentConfig) (r r1 r2 : Repo)
    (snapshots : list ResticSnapshot) (selected : ResticSnapshot)
    (targetDir : string) (includes : option (list string))
    (restored : result unit) :
  loadConfig h = Some config ->
  outcome_of (resolvePassphrase h (r_passphrase opts) r) = Ret pw ->
  outcome_of (restoreAgent opts config r) = Ret agentConfig ->
  ensureRestic h (cfg_resticVersion config) = Ok path ->
  let resticOpts := {| ro_storage := cfg_storage config; ro_passphrase := pw |} in
  listSnapshots h resticOpts (Some [ac_id agentConfig]) r = (Ok snapshots, r1) ->
  snapshots <> [] ->
  outcome_of (selectSnapshot h opts snapshots r1) = Ret selected ->
  outcome_of (restoreTarget h opts agentConfig
                (getAgent agents (ac_id agentConfig)) r1) = Ret targetDir ->
  r_dryRun opts = Some true \/ pathExists h targetDir = false \/
    truthy (r_target opts) = true \/ confirmed = true ->
  outcome_of (getCategoryIncludes_restore agents (ac_id agentConfig)
                (r_only opts) r1) = Ret includes ->
  restore (snap_id selected) targetDir resticOpts includes r1 = (restored, r2) ->
  let run := restoreCommand h agents restore confirmed opts r in
  repo_of run = r2 /\
  outcome_of run = match restored with Ok _ => Ret tt | Err _ => Exit 1 end.
Proof.
  intros Hconfig Hpw Hagent Hrestic resticOpts Hlist Hsome Hsel Htarget Hgo
    Hinc Hrestore. cbv zeta. subst resticOpts.
  destruct (engine_effect _ _ _ _ _ Hlist) as [Ho Hr].
  apply and_comm.
  restore_prefix opts Hconfig Hpw Hagent Hrestic path.
  effect_ret Ho Hr. effect_emit.
  destruct snapshots as [|s0 rest]; [congruence|]. cbn [length Nat.eqb].
  effect_ret Hsel (selectSnapshot_pure opts (s0 :: rest) r1).
  effect_ret Htarget (restoreTarget_pure opts agentConfig
                        (getAgent agents (ac_id agentConfig)) r1).
  match goal with
  | |- outcome_of (bind ?m _ _) = _ /\ _ =>
      assert (Hproceed : outcome_of (m r1) = Ret true /\ repo_of (m r1) = r1)
  end.
  { destruct (r_dryRun opts) as [[|]|]; cbn [negb];
      try (split; reflexivity);
      destruct (pathExists h targetDir); cbn [andb];
      try (split; reflexivity);
      destruct (truthy (r_target opts)); cbn [negb];
      try (split; reflexivity);
      destruct confirmed;
      try (split; reflexivity);
      destruct Hgo as [Hgo | [Hgo | [Hgo | Hgo]]]; discriminate. }
  destruct Hproceed as [Hp1 Hp2]. effect_ret Hp1 Hp2. cbn [negb].
  effect_ret Hinc (getCategoryIncludes_restore_pure (ac_id agentConfig)
                     (r_only opts) r1).
  effect_emit.
  unfold try_catch, bind, engine. rewrite Hrestore.
  destruct restored as [u|err]; [|split; reflexivity].
  destruct (truthy (r_only opts)); split; reflexivity.
Qed.

(** X20.  A real run into an existing directory that was not given by
    [--target] asks for a confirmation; when it is declined the command
    returns normally and nothing is restored.  The category of [--only] is
    not looked at before. *)
Theorem restoreCommand_cancelled (opts : RestoreOptions)
    (config : AgentstashConfig) (pw path : string)
    (agentConfig : AgentConfig) (r r1 : Repo)
    (snapshots : list ResticSnapshot) (selected : ResticSnapshot)
    (targetDir : string) :
  loadConfig h = Some config ->
  outcome_of (resolvePassphrase h (r_passphrase opts) r) = Ret pw ->
  outcome_of (restoreAgent opts config r) = Ret agentConfig ->
  ensureRestic h (cfg_resticVersion config) = Ok path ->
  listSnapshots h {| ro_storage := cfg_storage config; ro_passphrase := pw |}
    (Some [ac_id agentConfig]) r = (Ok snapshots, r1) ->
  snapshots <> [] ->
  outcome_of (selectSnapshot h opts snapshots r1) = Ret selected ->
  outcome_of (restoreTarget h opts agentConfig
                (getAgent agents (ac_id agentConfig)) r1) = Ret targetDir ->
  r_dryRun opts <> Some true ->
  pathExists h targetDir = true ->
  truthy (r_target opts) = false ->
  let run := restoreCommand h agents restore false opts r in
  outcome_of run = Ret tt /\ repo_of run = r1.
Proof.
  intros Hconfig Hpw Hagent Hrestic Hlist Hsome Hsel Htarget Hreal Hexists
    Hnone. cbv zeta.
  destruct (engine_effect _ _ _ _ _ Hlist) as [Ho Hr].
  restore_prefix opts Hconfig Hpw Hagent Hrestic path.
  effect_ret Ho Hr. effect_emit.
  destruct snapshots as [|s0 rest]; [congruence|]. cbn [length Nat.eqb].
  effect_ret Hsel (selectSnapshot_pure opts (s0 :: rest) r1).
  effect_ret Htarget (restoreTarget_pure opts agentConfig
                        (getAgent agents (ac_id agentConfig)) r1).
  rewrite Hexists, Hnone. cbn [negb andb].
  destruct (r_dryRun opts) as [[|]|]; [congruence| |]; split; reflexivity.
Qed.

(** X21.  The snapshot restored.  Without [--at] it is the last one of
    the list as the engine returned it, whatever the time stamps say.
    With [--at], resolved to an instant: when no snapshot of the list is at
    a finite distance of the instant (no time stamp is a valid date, for
    one) the command exits with code 1, and otherwise the snapshot is the
    one at the least distance, the first one among equals, distances being
    those of double-precision arithmetic.  With an [--at] so far back that
    it resolves to an infinity, the command exits with code 1 as well. *)
Theorem selectSnapshot_choice (opts : RestoreOptions)
    (snapshots : list ResticSnapshot) (r : Repo) :
  let run := selectSnapshot h opts snapshots r in
  (truthy (r_at opts) = false ->
   forall earlier latest,
     snapshots = earlier ++ [latest] -> outcome_of run = Ret latest) /\
  (truthy (r_at opts) = true ->
   forall t, outcome_of (targetTime h (the (r_at opts)) r) = Ret (Fin t) ->
     ((forall s, In s snapshots -> distance h t s = None) ->
      outcome_of run = Exit 1) /\
     (forall s, In s snapshots -> distance h t s <> None ->
      exists found, outcome_of run = Ret found /\
                    first_nearest h t snapshots found)) /\
  (truthy (r_at opts) = true ->
   forall target, outcome_of (targetTime h (the (r_at opts)) r) = Ret target ->
     target = Infinity \/ target = NegInfinity ->
     outcome_of run = Exit 1).
Proof.
  cbv zeta. unfold selectSnapshot. split; [|split]; intros Hat; rewrite Hat.
  - intros earlier latest ->. rewrite rev_app_distr. reflexivity.
  - intros t Ht. apply targetTime_ret in Ht.
    unfold findSnapshotByTime, bind. rewrite Ht. unfold ret at 1.
    pose proof (closest_first_nearest h t snapshots) as Hc.
    destruct (closest h (Fin t) snapshots None Infinity) as [found|].
    + split.
      * intros Hall. destruct Hc as (earlier & later & d & -> & Hd & _).
        rewrite Hall in Hd; [discriminate|].
        apply in_or_app. right. left. reflexivity.
      * intros _ _ _. exists found. split; [reflexivity | exact Hc].
    + split; [reflexivity|]. intros s Hin Hd. destruct (Hd (Hc s Hin)).
  - intros target Ht Hinf. apply targetTime_ret in Ht.
    unfold findSnapshotByTime, bind. rewrite Ht. unfold ret at 1.
    rewrite (closest_of_infinite h snapshots Hinf). reflexivity.
Qed.

End RestoreFacts.

(** ** Listing what a backup tagged *)

Section ListingFacts.
Variable Repo : Type.
Variable h : Host Repo.
Variable agents : Registry.

(** X22.  The snapshot listing reads the tags a backup writes.  Every
    engine invocation of a backup command is made for a registered agent,
    and from its tags the listing shows the display name of that agent in
    the agent column (unless the id of the agent is [agentstash], the tag
    the listing skips); the tags column holds the requested category, and
    nothing when none was requested or when the category name is
    [agentstash] or the id of a registered agent. *)
Theorem backup_tags_listing (opts : BackupOptions) (r : Repo) d ro bo :
  In (EngineBackup d ro bo) (trace_of (backupCommand h agents opts r)) ->
  displayTags agents (Some (bo_tags bo)) =
    (if truthy (only opts)
        && negb (String.eqb (the (only opts)) "agentstash")
        && negb (match getAgent agents (the (only opts)) with
                 | Some _ => true
                 | None => false
                 end)
     then [the (only opts)] else []) /\
  exists agentConfig agentDef,
    getAgent agents (ac_id agentConfig) = Some agentDef /\
    In d (due_dirs h agents agentConfig) /\
    (ac_id agentConfig <> "agentstash" ->
     getAgentNameFromTag agents (Some (bo_tags bo)) = Some (displayName agentDef)).
Proof.
  intros Hin. apply In_engine_calls, backupCommand_call_inv in Hin.
  destruct Hin as (config & pw & agentConfig & _ & _ & Hc).
  unfold due_calls in Hc.
  destruct (getAgent agents (ac_id agentConfig)) as [agentDef|] eqn:Hdef;
    [|destruct Hc].
  apply in_map_iff in Hc. destruct Hc as (d' & Heq & Hd').
  unfold due_call in Heq. injection Heq as <- _ <-. cbn [bo_tags].
  split.
  - unfold displayTags.
    destruct (truthy (only opts)); cbn [filter String.eqb andb negb];
      rewrite Hdef; cbn [negb andb]; rewrite ?andb_false_r; [|reflexivity].
    change (("agentstash" =? "agentstash")%string) with true. cbn [negb andb].
    destruct (negb (the (only opts) =? "agentstash")%string &&
              negb match getAgent agents (the (only opts)) with
                   | Some _ => true
                   | None => false
                   end); reflexivity.
  - exists agentConfig, agentDef. split; [exact Hdef|]. split; [exact Hd'|].
    intros Hid. apply String.eqb_neq in Hid.
    destruct (truthy (only opts)); unfold getAgentNameFromTag; cbn [agentNameOf];
      change (("agentstash" =? "agentstash")%string) with true; cbn iota;
      rewrite Hid, Hdef; reflexivity.
Qed.

End ListingFacts.

(** ** The probes of the agent definitions *)

Section ProbeFacts.
Variable Repo : Type.
Variable h : Host Repo.

Lemma dropWhile_nil {A} (f : A -> bool) (l : list A) :
  dropWhile f l = [] <-> forall x, In x l -> f x = true.
Proof.
  induction l as [|x l IH]; simpl.
  - split; [intros _ x [] | reflexivity].
  - destruct (f x) eqn:Hx.
    + rewrite IH. split.
      * intros Hall y [<- | Hin]; auto.
      * intros Hall y Hin. apply Hall. right. exact Hin.
    + split; [discriminate|]. intros Hall.
      rewrite (Hall x (or_introl eq_refl)) in Hx. discriminate.
Qed.

Lemma length_string_of_list (l : list ascii) :
  String.length (string_of_list_ascii l) = length l.
Proof. induction l as [|c l IH]; simpl; [reflexivity | rewrite IH; reflexivity]. Qed.

(** Trimming leaves nothing exactly when every character is white space. *)
Lemma trim_empty (s : string) :
  String.length (trim s) = 0%nat <->
  forall c, In c (list_ascii_of_string s) -> is_space c = true.
Proof.
  unfold trim. rewrite length_string_of_list, length_rev.
  rewrite length_zero_iff_nil, dropWhile_nil.
  split.
  - intros Hall c Hin.
    destruct (is_space c) eqn:Hc; [reflexivity|].
    assert (Hkept : In c (dropWhile is_space (list_ascii_of_string s))).
    { clear Hall. induction (list_ascii_of_string s) as [|x l IH]; [destruct Hin|].
      simpl. destruct (is_space x) eqn:Hx.
      - destruct Hin as [<- | Hin]; [congruence | auto].
      - exact Hin. }
    rewrite <- Hc. apply Hall. apply in_rev in Hkept. exact Hkept.
  - intros Hall c Hin. apply in_rev in Hin. apply Hall.
    clear Hall. induction (list_ascii_of_string s) as [|x l IH]; [destruct Hin|].
    simpl in Hin. destruct (is_space x); [right; auto | exact Hin].
Qed.

(** X23.  [checkProcessRunning] answers true exactly when [pgrep] ran
    successfully and printed something other than white space; a failure
    of the command, such as the exit status 1 of [pgrep] when nothing
    matches, is answered by false. *)
Theorem checkProcessRunning_spec (name : string) :
  (checkProcessRunning h name = true <->
   exists output,
     execSync h ("pgrep -f " +++ dq +++ name +++ dq +++ " 2>/dev/null") = Ok output /\
     exists c, In c (list_ascii_of_string output) /\ is_space c = false) /\
  (forall err,
     execSync h ("pgrep -f " +++ dq +++ name +++ dq +++ " 2>/dev/null") = Err err ->
     checkProcessRunning h name = false).
Proof.
  unfold checkProcessRunning.
  destruct (execSync h ("pgrep -f " +++ dq +++ name +++ dq +++ " 2>/dev/null"))
    as [output|err0].
  - split; [|discriminate]. split.
    + intros Hlen. exists output. split; [reflexivity|].
      apply Nat.ltb_lt in Hlen.
      assert (Hsome : ~ forall c, In c (list_ascii_of_string output) ->
                                  is_space c = true).
      { intros Hall. apply trim_empty in Hall. lia. }
      clear Hlen. induction (list_ascii_of_string output) as [|x l IH].
      * exfalso. apply Hsome. intros c [].
      * destruct (is_space x) eqn:Hx.
        -- destruct IH as (c & Hin & Hc).
           ++ intros Hall. apply Hsome. intros c [<- | Hin]; auto.
           ++ exists c. split; [right; exact Hin | exact Hc].
        -- exists x. split; [left; reflexivity | exact Hx].
    + intros (out & Heq & c & Hin & Hc). injection Heq as <-.
      apply Nat.ltb_lt.
      destruct (String.length (trim output)) eqn:Hlen; [|lia].
      rewrite (proj1 (trim_empty output) Hlen c Hin) in Hc. discriminate.
  - split; [|reflexivity]. split; [discriminate|].
    intros (out & Heq & _). discriminate.
Qed.

End ProbeFacts.

(** ** A legacy configuration, backed up *)

Section LegacyBackup.
Variable Repo : Type.
Variable h : Host Repo.

(** X24.  A configuration file of the old format (an [openclawDir] and no
    [agents]) is backed up as the one agent [openclaw] with that directory:
    a plain backup command returns, and invokes the engine once, for the
    directory, when it exists, with the tags [agentstash] and [openclaw],
    the excludes of the OpenClaw definition followed by those of the file,
    and no include filter; the directories of the definition are not
    looked at. *)
Theorem legacy_backup (raw : LegacyConfig) (opts : BackupOptions)
    (pw binary : string) (r : Repo) :
  lc_agents raw = None ->
  truthy (lc_openclawDir raw) = true ->
  loadConfig h = loadConfig_of (Some raw) ->
  outcome_of (resolvePassphrase h (passphrase opts) r) = Ret pw ->
  ensureRestic h (lc_resticVersion raw) = Ok binary ->
  truthy (agent opts) = false ->
  truthy (only opts) = false ->
  let openclawDir := expandHome h (the (lc_openclawDir raw)) in
  let run := backupCommand h (builtin_agents h) opts r in
  outcome_of run = Ret tt /\
  engine_calls (trace_of run) =
    if pathExists h openclawDir
    then [(openclawDir,
           {| ro_storage := lc_storage raw; ro_passphrase := pw |},
           {| bo_tags := ["agentstash"; "openclaw"];
              bo_excludes := excludes (openclaw h) ++ lc_exclude raw;
              bo_includes := None;
              bo_dryRun := opt_dryRun opts |})]
    else [].
Proof.
  intros Hnone Hdir Hload Hpw Hens Hagent Honly. cbv zeta.
  unfold loadConfig_of in Hload. rewrite Hnone, Hdir in Hload. cbn in Hload.
  set (config := {| cfg_agents := [migrated_agent (the (lc_openclawDir raw))];
                    cfg_storage := lc_storage raw;
                    cfg_retention := lc_retention raw;
                    cfg_exclude := lc_exclude raw;
                    cfg_resticVersion := lc_resticVersion raw |}).
  change (loadConfig h = Some config) in Hload.
  assert (Hsel : outcome_of (agentsToBackup opts config r) =
                 Ret [migrated_agent (the (lc_openclawDir raw))]).
  { unfold agentsToBackup. rewrite Hagent. reflexivity. }
  assert (Hok : forall agentConfig agentDef,
            In agentConfig [migrated_agent (the (lc_openclawDir raw))] ->
            getAgent (builtin_agents h) (ac_id agentConfig) = Some agentDef ->
            category_resolves (only opts) agentDef /\ probe_returns agentDef).
  { intros agentConfig agentDef _ Hdef. split.
    - intros Ht. rewrite Honly in Ht. discriminate.
    - unfold getAgent in Hdef. apply find_some in Hdef.
      pose proof (builtin_probes_return h) as Hall.
      rewrite Forall_forall in Hall. apply (Hall agentDef), Hdef. }
  destruct (backupAgents_returns Repo h (builtin_agents h) _ opts pw config Hok r)
    as [Hloop Hcalls].
  rewrite (backupCommand_run Repo h (builtin_agents h) opts config pw binary _ r
             Hload Hpw Hens Hsel Hloop).
  cbn [outcome_of repo_of trace_of fst snd].
  destruct (retentionAfterBackup_run Repo h opts config pw
              (repo_of (backupAgents h (builtin_agents h)
                          [migrated_agent (the (lc_openclawDir raw))]
                          opts pw config r)))
    as (Hret & Hnocall & _).
  destruct (resolvePassphrase_run Repo h (passphrase opts) r) as (_ & Hq1 & _).
  destruct (agentsToBackup_run Repo opts config r) as (_ & Hq2).
  split; [exact Hret|].
  rewrite engine_calls_app. change (EnsureRestic ?v :: ?t) with ([EnsureRestic v] ++ t).
  rewrite !engine_calls_app, Hnocall, Hcalls,
          (engine_calls_quiet _ Hq1), (engine_calls_quiet _ Hq2).
  cbn [flat_map engine_calls app]. rewrite !app_nil_r.
  unfold due_calls, due_dirs, effective_dirs, migrated_agent.
  cbn [ac_id ac_dataDir ac_excludes].
  change (getAgent (builtin_agents h) "openclaw") with (Some (openclaw h)).
  rewrite <- (truthy_the _ Hdir), Hdir. cbn [map filter path].
  destruct (pathExists h (expandHome h (the (lc_openclawDir raw)))); [|reflexivity].
  unfold due_call, backup_includes. rewrite Honly. reflexivity.
Qed.

End LegacyBackup.

(** ** The two copies of the category filter *)

Section CategoryFilter.
Variable Repo : Type.
Variable agents : Registry.

(** X25.  The copies of [getCategoryIncludes] in the backup and in the
    restore command go the same way: they log the same, leave the
    repository alone, and end alike, so a category a backup accepts is a
    category a restore accepts.  When they return patterns, these are the
    backup patterns and the restore patterns of one and the same rule, an
    own category of the agent. *)
Theorem getCategoryIncludes_copies (agentId : string) (only : option string)
    (r : Repo) :
  let saving := getCategoryIncludes agents agentId only r in
  let restoring := getCategoryIncludes_restore agents agentId only r in
  trace_of saving = trace_of restoring /\
  repo_of saving = r /\ repo_of restoring = r /\
  match outcome_of saving, outcome_of restoring with
  | Ret None, Ret None => True
  | Ret (Some saved_patterns), Ret (Some restored_patterns) =>
      exists agentDef categoryRule,
        getAgent agents agentId = Some agentDef /\
        own_property (categories agentDef) (the only) = Some categoryRule /\
        saved_patterns = backupIncludes categoryRule /\
        restored_patterns = restoreIncludes categoryRule
  | Exit code, Exit code' => code = 1 /\ code' = 1
  | _, _ => False
  end.
Proof.
  cbv zeta. unfold getCategoryIncludes, getCategoryIncludes_restore.
  destruct (negb (truthy only)); [cbn; auto|].
  destruct (getAgent agents agentId) as [agentDef|]; [|cbn; auto].
  unfold get_property.
  destruct (own_property (categories agentDef) (the only)) as [categoryRule|] eqn:Hown.
  - cbn. repeat split. exists agentDef, categoryRule. auto.
  - destruct (mem (the only) Object_prototype_keys); cbn; auto.
Qed.

End CategoryFilter.

(** ** What a backup hands to the engine, on the example host *)

Module CommandWitnesses.
Import Example.

Lemma only_secrets_resolves :
  forall agentConfig agentDef,
    In agentConfig [configA] ->
    getAgent registry (ac_id agentConfig) = Some agentDef ->
    category_resolves (only only_secrets) agentDef /\ probe_returns agentDef.
Proof.
  intros ac def [<- | []] Hg. vm_compute in Hg. inversion Hg; subst. split.
  - intros _. discriminate.
  - intros p Hp. inversion Hp; subst. eexists. reflexivity.
Defined.

(** A backup of agent a with [--only secrets] invokes the engine once,
    for the directory of a, with three tags. *)
Lemma backup_tags_exact_witness :
  map (fun c => (fst (fst c), bo_tags (snd c)))
      (engine_calls (trace_of (backupCommand (host [configA]) registry
                                 only_secrets []))) =
  [("/home/user/.a", ["agentstash"; "a"; "secrets"])].
Proof.
  rewrite (proj2 (backup_tags_exact _ (host [configA]) registry only_secrets)
             (config_of [configA]) "pw" "/usr/bin/restic" [configA] []
             eq_refl eq_refl eq_refl eq_refl only_secrets_resolves).
  reflexivity.
Defined.

(** The same backup: the excludes of the definition, of the agent's
    configuration entry and of the configuration, in this order. *)
Lemma backup_excludes_order_witness :
  map (fun c => (fst (fst c), bo_excludes (snd c)))
      (engine_calls (trace_of (backupCommand (host [configA]) registry
                                 only_secrets []))) =
  [("/home/user/.a", ["*.lock"; "*.tmp"; "*.custom"])].
Proof.
  rewrite (proj2 (backup_excludes_order _ (host [configA]) registry only_secrets)
             (config_of [configA]) "pw" "/usr/bin/restic" [configA] []
             eq_refl eq_refl eq_refl eq_refl only_secrets_resolves).
  reflexivity.
Defined.

End CommandWitnesses.

(** ** The further properties, on the example host *)

Module FurtherWitnesses.
Import Example Scenario.

(** Registering A again keeps the ids; registering the broken agent puts
    its id last. *)
Lemma registerAgent_ids_witness :
  getAgentIds (registerAgent agentA registry) = getAgentIds registry /\
  getAgentIds (registerAgent agentBroken registry) =
    getAgentIds registry ++ ["broken"].
Proof.
  split.
  - apply (proj1 (registerAgent_ids agentA registry)). simpl. auto.
  - apply (proj1 (proj2 (registerAgent_ids agentBroken registry))).
    simpl. intuition discriminate.
Defined.

(** On the example host the directory of A expands under the home
    directory, and a path under another user's home is left alone. *)
Lemma expandHome_spec_witness :
  expandHome (host []) "~/.a" = "/home/user/.a" /\
  expandHome (host []) "~user/x" = "~user/x".
Proof.
  split.
  - apply (proj1 (proj2 (expandHome_spec _ (host []))) eq_refl ".a").
  - apply (proj1 (proj2 (proj2 (expandHome_spec _ (host []))))).
    + reflexivity.
    + discriminate.
Defined.

(** The URL of the example storage is made of its endpoint. *)
Lemma getResticRepoUrl_spec_witness :
  exists e, getStorageEndpoint storage = Ret e /\
            "s3:https://abc.r2.cloudflarestorage.com/test" =
            "s3:" +++ e +++ "/" +++ bucket storage.
Proof.
  apply (proj1 (proj2 (proj2 (getResticRepoUrl_spec storage)))). reflexivity.
Defined.

Lemma backup_plain_forgets :
  In (EngineForget resticOpts_plain (cfg_retention (config_of [configA; configB])) None)
     (trace_of backup_plain).
Proof.
  vm_compute. repeat (first [left; reflexivity | right]).
Defined.

(** The plain backup prunes: it is no dry run and pruning is not
    forbidden. *)
Lemma backupCommand_forget_gate_witness :
  opt_dryRun plain <> Some true /\
  opt_forget plain <> Some false /\
  (None : option (list string)) = None /\
  exists config,
    loadConfig (host [configA; configB]) = Some config /\
    cfg_retention (config_of [configA; configB]) = cfg_retention config /\
    ro_storage resticOpts_plain = cfg_storage config /\
    first_nonempty [passphrase plain; envPassphrase (host [configA; configB]);
                    getKeychainPassphrase (host [configA; configB])]
      = Some (ro_passphrase resticOpts_plain).
Proof.
  exact (backupCommand_forget_gate _ (host [configA; configB]) registry plain []
           _ _ _ backup_plain_forgets).
Defined.

(** The backup of A with [--only secrets]: the storage and the passphrase
    of the engine invocation. *)
Lemma backupCommand_engine_context_witness :
  exists config path,
    loadConfig (host [configA]) = Some config /\
    ensureRestic (host [configA]) (cfg_resticVersion config) = Ok path /\
    ro_storage (snd (fst call_for_A)) = cfg_storage config /\
    first_nonempty [passphrase only_secrets; envPassphrase (host [configA]);
                    getKeychainPassphrase (host [configA])]
      = Some (ro_passphrase (snd (fst call_for_A))).
Proof.
  exact (proj1 (backupCommand_engine_context _ (host [configA]) registry
                  only_secrets [])
           _ _ _ Witnesses.backupCommand_invokes_A).
Defined.


(** The same backup, as the listing shows it: agent A, tag [secrets]. *)
Lemma backup_tags_listing_witness :
  displayTags registry (Some (bo_tags (snd call_for_A))) = ["secrets"] /\
  exists agentConfig agentDef,
    getAgent registry (ac_id agentConfig) = Some agentDef /\
    In (fst (fst call_for_A)) (due_dirs (host [configA]) registry agentConfig) /\
    (ac_id agentConfig <> "agentstash" ->
     getAgentNameFromTag registry (Some (bo_tags (snd call_for_A))) =
     Some (displayName agentDef)).
Proof.
  exact (backup_tags_listing _ (host [configA]) registry only_secrets []
           _ _ _ Witnesses.backupCommand_invokes_A).
Defined.

Lemma backup_A_secrets_invokes :
  In (EngineBackup (fst (fst call_for_A)) (snd (fst call_for_A)) (snd call_for_A))
     (trace_of backup_A_secrets).
Proof.
  vm_compute. repeat (first [left; reflexivity | right]).
Defined.

(** The directory of A that is backed up exists; it is the directory of
    the definition, expanded. *)
Lemma backupAgent_directories_witness :
  pathExists (host [configA]) (fst (fst call_for_A)) = true /\
  ((truthy (ac_dataDir configA) = true /\
    fst (fst call_for_A) = expandHome (host [configA]) (the (ac_dataDir configA))) \/
   (truthy (ac_dataDir configA) = false /\
    exists agentDef dataDir,
      getAgent registry (ac_id configA) = Some agentDef /\
      In dataDir (dataDirs agentDef) /\
      fst (fst call_for_A) = expandHome (host [configA]) (path dataDir))).
Proof.
  exact (backupAgent_directories _ (host [configA]) registry configA only_secrets
           "pw" (config_of [configA]) [] _ _ _ backup_A_secrets_invokes).
Defined.

(** The plain backup over A (enabled) and B (disabled) returns and invokes
    the engine for what is due for A. *)
Lemma backupCommand_completes_witness :
  outcome_of backup_plain = Ret tt /\
  engine_calls (trace_of backup_plain) =
    due_calls (host [configA; configB]) registry configA plain "pw"
              (config_of [configA; configB]) ++ [].
Proof.
  assert (Hok : forall agentConfig agentDef,
            In agentConfig [configA] ->
            getAgent registry (ac_id agentConfig) = Some agentDef ->
            category_resolves (only plain) agentDef /\ probe_returns agentDef).
  { intros ac def Hin Hg. split; [intros Ht; discriminate Ht|].
    destruct Hin as [<- | []]; vm_compute in Hg; inversion Hg; subst;
      intros p Hp; inversion Hp; subst; eexists; reflexivity. }
  destruct (backupCommand_completes _ (host [configA; configB]) registry plain
              (config_of [configA; configB]) "pw" "/usr/bin/restic" [configA] []
              eq_refl eq_refl eq_refl eq_refl Hok)
    as (Hret & Hcalls & _).
  split; [exact Hret | exact Hcalls].
Defined.

(** Pruning a locked repository: exit code 1 after a failure report, and
    no second listing. *)
Lemma forgetCommand_failures_witness :
  outcome_of (forgetCommand locked_host forget_all three_snapshots) = Exit 1 /\
  repo_of (forgetCommand locked_host forget_all three_snapshots) = three_snapshots /\
  engine_events (trace_of (forgetCommand locked_host forget_all three_snapshots)) =
    [EngineListSnapshots {| ro_storage := storage; ro_passphrase := "env-pass" |} None;
     EngineForget {| ro_storage := storage; ro_passphrase := "env-pass" |}
                  (cfg_retention (config_of [configA])) None] /\
  In (Log SpinFail [Str "Failed to apply retention policy"])
     (trace_of (forgetCommand locked_host forget_all three_snapshots)) /\
  In (Log Error [Str "repository is locked"])
     (trace_of (forgetCommand locked_host forget_all three_snapshots)).
Proof.
  exact (proj1 (proj2 (forgetCommand_failures _ locked_host forget_all
                         (config_of [configA]) "env-pass" "/usr/bin/restic"
                         "repository is locked" three_snapshots
                         three_snapshots three_snapshots three_snapshots
                         three_snapshots eq_refl eq_refl eq_refl))
           eq_refl eq_refl).
Defined.

(** Without a configuration file: two entries. *)
Lemma runHealthChecks_offline_witness :
  exists binary missing,
    runHealthChecks fresh_host registry None [] = (Ret [binary; missing], [], []) /\
    hc_name binary = "Restic binary" /\
    (hc_status binary = st_ok <-> isResticInstalled fresh_host = true) /\
    hc_name missing = "Config" /\ hc_status missing = st_error.
Proof.
  exact (proj1 (runHealthChecks_offline _ fresh_host registry None []) eq_refl).
Defined.

(** The entry of agent A, whose directory exists and which does not run. *)
Lemma agentHealthChecks_entry_witness :
  exists entry liveness,
    agentHealthChecks (host [configA]) registry configA [] =
      (Ret (entry :: liveness), [], []) /\
    hc_name entry = "Agent: A" /\
    hc_status entry = st_ok /\
    exists process,
      liveness = [process] /\
      hc_name process = "  A process" /\
      hc_status process = st_ok.
Proof.
  exact (agentHealthChecks_entry _ (host [configA]) registry configA agentA
           (Some false) [] eq_refl eq_refl eq_refl).
Defined.

(** The repository of the example answers: its entry is ok and holds the
    URL. *)
Lemma runHealthChecks_remote_witness :
  exists earlier entry,
    outcome_of (runHealthChecks (host [configA]) registry (Some "pw") []) =
      Ret (earlier ++ [entry]) /\
    hc_name entry = "Remote repository" /\
    hc_status entry = st_ok /\
    hc_message entry = "s3:https://abc.r2.cloudflarestorage.com/test".
Proof.
  destruct (runHealthChecks_remote _ (host [configA]) registry (Some "pw")
              (config_of [configA])
              [ {| hc_name := "Agent: A"; hc_status := st_ok;
                   hc_message := "Installed (/home/user/.a)" |};
                {| hc_name := "  A process"; hc_status := st_ok;
                   hc_message := "Not running (safe to backup)" |} ]
              true [] [] eq_refl eq_refl eq_refl eq_refl)
    as (_ & _ & Hok & _).
  exact (Hok eq_refl _ eq_refl).
Defined.

(** Restoring agent A from an empty repository: exit code 1. *)
Lemma restoreCommand_nothing_listed_witness :
  outcome_of (restoreCommand (host [configA]) registry restore_ok false restore_a [])
    = Exit 1 /\
  repo_of (restoreCommand (host [configA]) registry restore_ok false restore_a [])
    = [].
Proof.
  exact (proj2 (restoreCommand_nothing_listed _ (host [configA]) registry
                  restore_ok false restore_a (config_of [configA])
                  "env-pass" "/usr/bin/restic" configA [] [] (Ok [])
                  eq_refl eq_refl eq_refl eq_refl eq_refl)
           eq_refl).
Defined.

(** Restoring the secrets of A as of 13:30 into [/tmp/out]: the snapshot
    of 12:00 is restored, without a confirmation. *)
Lemma restoreCommand_restores_witness :
  repo_of (restoreCommand (host [configA]) registry restore_ok false
             restore_a_to_tmp three_snapshots) = three_snapshots /\
  outcome_of (restoreCommand (host [configA]) registry restore_ok false
                restore_a_to_tmp three_snapshots) = Ret tt.
Proof.
  apply (restoreCommand_restores _ (host [configA]) registry restore_ok false
           restore_a_to_tmp (config_of [configA]) "env-pass" "/usr/bin/restic"
           configA three_snapshots three_snapshots three_snapshots
           three_snapshots (snapshot_at "12:00") "/tmp/out"
           (Some ["**/auth/**"]) (Ok tt));
    try reflexivity.
  - discriminate.
  - right. right. left. reflexivity.
Defined.

(** Restoring A into its existing directory, the confirmation declined:
    the command returns and the repository is as it was. *)
Lemma restoreCommand_cancelled_witness :
  outcome_of (restoreCommand (host [configA]) registry restore_ok false
                restore_a three_snapshots) = Ret tt /\
  repo_of (restoreCommand (host [configA]) registry restore_ok false
             restore_a three_snapshots) = three_snapshots.
Proof.
  apply (restoreCommand_cancelled _ (host [configA]) registry restore_ok
           restore_a (config_of [configA]) "env-pass" "/usr/bin/restic"
           configA three_snapshots three_snapshots three_snapshots
           (snapshot_at "15:00") "/home/user/.a");
    try reflexivity; discriminate.
Defined.

(** Without [--at] the last snapshot of the list is taken. *)
Lemma selectSnapshot_choice_witness :
  outcome_of (selectSnapshot (host []) restore_a three_snapshots []) =
  Ret (snapshot_at "15:00").
Proof.
  exact (proj1 (selectSnapshot_choice _ (host []) restore_a three_snapshots [])
           eq_refl [snapshot_at "10:00"; snapshot_at "12:00"] (snapshot_at "15:00")
           eq_refl).
Defined.

(** The legacy file of the example: one engine invocation, for the
    directory it names. *)
Lemma legacy_backup_witness :
  outcome_of (backupCommand legacy_host (builtin_agents legacy_host) plain []) = Ret tt /\
  engine_calls (trace_of (backupCommand legacy_host (builtin_agents legacy_host)
                            plain [])) =
    [("/home/user/.a",
      {| ro_storage := storage; ro_passphrase := "pw" |},
      {| bo_tags := ["agentstash"; "openclaw"];
         bo_excludes := excludes (openclaw legacy_host) ++ ["*.custom"];
         bo_includes := None;
         bo_dryRun := None |})].
Proof.
  exact (legacy_backup _ legacy_host legacy_file plain "pw" "/usr/bin/restic" []
           eq_refl eq_refl eq_refl eq_refl eq_refl eq_refl eq_refl).
Defined.

End FurtherWitnesses.
